(** * Commerce chatbot: orchestration engine and its resilience helpers

    A shallow embedding of the TypeScript sources

    - [utils/healthMonitor] ([HealthMonitor]),
    - [utils/retryUtils]    ([withRetry], [isRetryableError]),
    - [utils/cache]         ([Cache]),
    - [bridge-service/services/ChatService] ([executeMCPTools],
      [storeDeliveryModes], [fixDeliveryModeCode], [handleChatMessage]),
    - [bridge-service/middleware/guardrails] ([Guardrails],
      [createGuardrailMiddleware]),
    - [bridge-service/services/ConversationManager],
    - [mcp-server/services/sapCommerceService] ([withCache]),
    - [mcp-server/services/modules/sapCommerceClient] ([getAuthToken]),

    together with the properties stated about them.

    Conventions.  JavaScript numbers that hold counters, millisecond
    delays and timestamps are integers and are modelled in [Z]; the two
    health rates are quotients of counters and are modelled in [Q].
    [Date.now()] is an explicit argument [now].  A JavaScript [Map] keeps
    insertion order, which [Array.prototype.reduce] observes, so the cache
    is an association list; the per-conversation maps of the chat service
    are only looked up, set and deleted, and are finite maps.  A thrown
    exception is an explicit error result. *)

From Stdlib Require Import ZArith QArith Lia Bool List String Ascii DecimalString.
From stdpp Require Import base option list strings gmap.
Import ListNotations.

Set Warnings "-register-all".

(* ===================================================================== *)
(** ** Health monitor *)
(* ===================================================================== *)

Module HealthMonitor.

Inductive Status := healthy | degraded | unhealthy.

Record Details := mkDetails {
  apiLatency   : option Z;
  errorRate    : option Q;
  cacheHitRate : option Q
}.

Record HealthStatus := mkHealthStatus {
  status    : Status;
  lastCheck : Z;
  details   : Details
}.

(** The private fields of the class. *)
Record t := mk {
  hstatus      : HealthStatus;
  errorCount   : Z;
  requestCount : Z;
  cacheHits    : Z;
  cacheMisses  : Z
}.

(** The field initialisers; [now] stands for [new Date()]. *)
Definition create (now : Z) : t :=
  mk (mkHealthStatus healthy now (mkDetails None None None)) 0 0 0 0.

(** [a >= b] and [a < b] on rates. *)
Definition Qgeb (a b : Q) : bool := Qle_bool b a.
Definition Qltb (a b : Q) : bool := negb (Qle_bool b a).

Definition determineStatus (errorRate cacheHitRate : Q) : Status :=
  if Qgeb errorRate (1 # 10) || Qltb cacheHitRate (3 # 10) then unhealthy
  else if Qgeb errorRate (5 # 100) || Qltb cacheHitRate (5 # 10) then degraded
  else healthy.

Definition computeErrorRate (m : t) : Q :=
  if (0 <? requestCount m)%Z
  then inject_Z (errorCount m) / inject_Z (requestCount m)
  else 0.

Definition computeCacheHitRate (m : t) : Q :=
  if (0 <? cacheHits m + cacheMisses m)%Z
  then inject_Z (cacheHits m) / inject_Z (cacheHits m + cacheMisses m)
  else 1.

(** One timer tick: classify the window, then reset the counters. *)
Definition checkHealth (now : Z) (m : t) : t :=
  let errorRate := computeErrorRate m in
  let cacheHitRate := computeCacheHitRate m in
  mk (mkHealthStatus
        (determineStatus errorRate cacheHitRate)
        now
        (mkDetails (apiLatency (details (hstatus m)))
                   (Some errorRate) (Some cacheHitRate)))
     0 0 0 0.

Definition recordRequestComplete (latencyMs : Z) (hasError : bool) (m : t) : t :=
  let s := hstatus m in
  mk (mkHealthStatus (status s) (lastCheck s)
        (mkDetails (Some latencyMs) (errorRate (details s))
                   (cacheHitRate (details s))))
     (if hasError then errorCount m + 1 else errorCount m)%Z
     (requestCount m + 1)%Z
     (cacheHits m) (cacheMisses m).

Definition recordCacheAccess (hit : bool) (m : t) : t :=
  mk (hstatus m) (errorCount m) (requestCount m)
     (if hit then cacheHits m + 1 else cacheHits m)%Z
     (if hit then cacheMisses m else cacheMisses m + 1)%Z.

Definition getStatus (m : t) : HealthStatus := hstatus m.

(** A window in which nothing was recorded. *)
Definition idle (m : t) : Prop :=
  requestCount m = 0%Z /\ cacheHits m = 0%Z /\ cacheMisses m = 0%Z.

End HealthMonitor.

(* ===================================================================== *)
(** ** Retry with backoff *)
(* ===================================================================== *)

Module Retry.
Local Open Scope Z_scope.

(** What an operation can reject with: an [AxiosError] with the status
    of its response, if it has one, or any other error. *)
Inductive Error :=
| AxiosError (status : option Z)
| OtherError (message : string).

(** The two [RetryError]s the wrapper throws: the one of the last
    attempt, whose message counts the attempts and which carries the
    cause, and the one after the loop. *)
Inductive RetryError :=
| OperationFailedAfter (attempts : Z) (cause : Error)
| UnexpectedRetryFailure.

(** [Required<RetryConfig>]. *)
Record RetryConfig := mkConfig {
  maxRetries        : Z;
  initialDelay      : Z;
  maxDelay          : Z;
  backoffFactor     : Z;
  retryableStatuses : list Z
}.

(** [RetryConfig], every field optional. *)
Record PartialConfig := mkPartial {
  p_maxRetries        : option Z;
  p_initialDelay      : option Z;
  p_maxDelay          : option Z;
  p_backoffFactor     : option Z;
  p_retryableStatuses : option (list Z)
}.

Definition DEFAULT_RETRY_CONFIG : RetryConfig :=
  mkConfig 2 1000 5000 2 [408; 429; 500; 502; 503; 504].

Definition no_overrides : PartialConfig := mkPartial None None None None None.

(** [{ ...DEFAULT_RETRY_CONFIG, ...config }] *)
Definition finalConfig (config : PartialConfig) : RetryConfig :=
  mkConfig
    (default (maxRetries DEFAULT_RETRY_CONFIG) (p_maxRetries config))
    (default (initialDelay DEFAULT_RETRY_CONFIG) (p_initialDelay config))
    (default (maxDelay DEFAULT_RETRY_CONFIG) (p_maxDelay config))
    (default (backoffFactor DEFAULT_RETRY_CONFIG) (p_backoffFactor config))
    (default (retryableStatuses DEFAULT_RETRY_CONFIG) (p_retryableStatuses config)).

Section WithResult.
Context {T : Type}.

(** The operation is called once per attempt; [operation k] is what
    its [k]-th call (from 0) settles to. *)
Definition Operation := nat -> T + Error.

(** What a run of the wrapper shows: how it settles, the delays it
    waited, in order, and how often it called the operation. *)
Record Run := mkRun {
  outcome : T + RetryError;
  delays  : list Z;
  calls   : nat
}.

(** The [for] loop; [fuel] counts the iterations that remain while
    [attempt <= maxRetries]. *)
Fixpoint retryLoop (cfg : RetryConfig) (operation : Operation)
         (fuel : nat) (attempt : nat) (delay : Z) (waited : list Z) : Run :=
  match fuel with
  | O => mkRun (inr UnexpectedRetryFailure) waited attempt
  | S fuel' =>
      match operation attempt with
      | inl v => mkRun (inl v) waited (S attempt)
      | inr error =>
          if Z.of_nat attempt =? maxRetries cfg
          then mkRun (inr (OperationFailedAfter (Z.of_nat attempt + 1) error))
                     waited (S attempt)
          else retryLoop cfg operation fuel' (S attempt)
                 (Z.min (delay * backoffFactor cfg) (maxDelay cfg))
                 (waited ++ [delay])
      end
  end.

Definition withRetry (operation : Operation) (config : PartialConfig) : Run :=
  let cfg := finalConfig config in
  retryLoop cfg operation (Z.to_nat (maxRetries cfg + 1)) 0
            (initialDelay cfg) [].
End WithResult.

Definition isRetryableError (error : Error) : bool :=
  match error with
  | AxiosError (Some status) =>
      if status =? 0 then false
      else existsb (Z.eqb status) (retryableStatuses DEFAULT_RETRY_CONFIG)
  | AxiosError None => false
  | OtherError _ => false
  end.

(** The same test against the statuses of a given policy. *)
Definition retryableUnder (cfg : RetryConfig) (error : Error) : bool :=
  match error with
  | AxiosError (Some status) =>
      if status =? 0 then false
      else existsb (Z.eqb status) (retryableStatuses cfg)
  | _ => false
  end.

Fixpoint nondecreasing (l : list Z) : Prop :=
  match l with
  | [] => True
  | x :: rest =>
      match rest with
      | [] => True
      | y :: _ => x <= y /\ nondecreasing rest
      end
  end.

(** Fails on each of the first [N] calls, succeeds with [v] on call [N]. *)
Definition failsThenSucceeds {T} (operation : @Operation T) (N : nat) (v : T) : Prop :=
  (forall k, (k < N)%nat -> exists e, operation k = inr e) /\ operation N = inl v.

(** An operation that is rejected with the given status until its
    [n]-th call, which succeeds with [v]. *)
Definition flaky {T} (status : Z) (n : nat) (v : T) : @Operation T :=
  fun k => if (k <? n)%nat then inr (AxiosError (Some status)) else inl v.

(** The delays the loop waits when it starts with [delay] and fails
    [n] more times. *)
Fixpoint backoff (cfg : RetryConfig) (delay : Z) (n : nat) : list Z :=
  match n with
  | O => []
  | S n' => delay :: backoff cfg (Z.min (delay * backoffFactor cfg) (maxDelay cfg)) n'
  end.

End Retry.

(* ===================================================================== *)
(** ** Bounded TTL cache *)
(* ===================================================================== *)

Module Cache.
Local Open Scope Z_scope.

Section WithValue.
Context {T : Type}.

Record CacheEntry := mkEntry {
  value     : T;
  expiresAt : Z
}.

(** [Required<CacheConfig>] *)
Record CacheConfig := mkConfig {
  ttl     : Z;
  maxSize : Z
}.

(** A [Map<string, CacheEntry<T>>] in insertion order. *)
Definition JsMap := list (string * CacheEntry).

Record t := mk {
  cache  : JsMap;
  config : CacheConfig
}.

(** [Map.prototype.get] *)
Fixpoint map_get (key : string) (m : JsMap) : option CacheEntry :=
  match m with
  | [] => None
  | (k, e) :: rest => if String.eqb k key then Some e else map_get key rest
  end.

(** [Map.prototype.delete] *)
Fixpoint map_delete (key : string) (m : JsMap) : JsMap :=
  match m with
  | [] => []
  | (k, e) :: rest =>
      if String.eqb k key then map_delete key rest
      else (k, e) :: map_delete key rest
  end.

(** [Map.prototype.set]: an existing key keeps its place, a new one
    goes last. *)
Fixpoint map_set (key : string) (e : CacheEntry) (m : JsMap) : JsMap :=
  match m with
  | [] => [(key, e)]
  | (k, e') :: rest =>
      if String.eqb k key then (k, e) :: rest
      else (k, e') :: map_set key e rest
  end.

(** The constructor: [maxSize: config.maxSize || 1000]. *)
Definition create (ttl0 : Z) (maxSize0 : option Z) : t :=
  mk [] (mkConfig ttl0
           (match maxSize0 with
            | Some n => if n =? 0 then 1000 else n
            | None => 1000
            end)).

(** The callback of [entries.reduce]. *)
Definition older (oldest current : string * CacheEntry) : string * CacheEntry :=
  if expiresAt (snd current) <? expiresAt (snd oldest) then current else oldest.

(** [entries.reduce(cb)] without an initial value: a [TypeError] on
    an empty array, else the fold from the first entry. *)
Definition oldestEntry (entries : JsMap) : option (string * CacheEntry) :=
  match entries with
  | [] => None
  | first :: rest => Some (fold_left older rest first)
  end.

(** [set(key, value)]; [None] is the [TypeError] of [reduce]. *)
Definition set (key : string) (v : T) (now : Z) (c : t) : option t :=
  let entry := mkEntry v (now + ttl (config c)) in
  if maxSize (config c) <=? Z.of_nat (length (cache c)) then
    match oldestEntry (cache c) with
    | None => None
    | Some oldest =>
        Some (mk (map_set key entry (map_delete (fst oldest) (cache c)))
                 (config c))
    end
  else Some (mk (map_set key entry (cache c)) (config c)).

(** [get(key)]: the value or [undefined], and the cache afterwards. *)
Definition get (key : string) (now : Z) (c : t) : option T * t :=
  match map_get key (cache c) with
  | None => (None, c)
  | Some entry =>
      if expiresAt entry <? now
      then (None, mk (map_delete key (cache c)) (config c))
      else (Some (value entry), c)
  end.

Definition clear (c : t) : t := mk [] (config c).

Definition size (c : t) : Z := Z.of_nat (length (cache c)).

Definition getKeys (c : t) : list string := map fst (cache c).

Definition getEntries (c : t) : list (string * T) :=
  map (fun ke => (fst ke, value (snd ke))) (cache c).

(** Keys of a [Map] are distinct. *)
Definition wf (c : t) : Prop := List.NoDup (map fst (cache c)).

(** The cache holds as many entries as it may. *)
Definition full (c : t) : Prop :=
  cache c <> [] /\ maxSize (config c) <= Z.of_nat (length (cache c)).

End WithValue.

Arguments CacheEntry : clear implicits.
Arguments JsMap : clear implicits.
Arguments t : clear implicits.

End Cache.

(* ===================================================================== *)
(** ** Values of type [any], strings, thrown errors *)
(* ===================================================================== *)

Module Js.
Local Open Scope string_scope.

(** What [JSON.parse] yields. *)
Inductive Json :=
| JNull
| JBool (b : bool)
| JNum (n : Z)
| JStr (s : string)
| JArr (items : list Json)
| JObj (fields : list (string * Json)).

(** A value of type [any]; [None] is [undefined]. *)
Definition Any := option Json.

(** Arguments of a tool call: an object literal whose properties may be
    [undefined] or object literals again. *)
Inductive Arg :=
| AVal (v : Any)
| AObj (fields : list (string * Arg)).

Definition Args := list (string * Arg).

(** A computation that may throw; the message is that of the
    exception. *)
Inductive Result (A : Type) :=
| Ok (a : A)
| Throw (message : string).
Arguments Ok {A} a.
Arguments Throw {A} message.

Definition TypeError := "TypeError".

(** Truthiness. *)
Definition truthy (v : Any) : bool :=
  match v with
  | None => false
  | Some JNull => false
  | Some (JBool b) => b
  | Some (JNum n) => negb (n =? 0)%Z
  | Some (JStr s) => negb (String.eqb s EmptyString)
  | Some (JArr _) => true
  | Some (JObj _) => true
  end.

(** [a || b] *)
Definition jor (a b : Any) : Any := if truthy a then a else b.

Fixpoint assoc (key : string) (fields : list (string * Json)) : Any :=
  match fields with
  | [] => None
  | (k, v) :: rest => if String.eqb k key then Some v else assoc key rest
  end.

(** [v?.key], for the property names read in this program (none of
    them is a built-in property of a string, number or array). *)
Definition optProp (key : string) (v : Any) : Any :=
  match v with
  | Some (JObj fields) => assoc key fields
  | _ => None
  end.

(** [v.key]: a [TypeError] on [undefined] and [null]. *)
Definition prop (key : string) (v : Any) : Result Any :=
  match v with
  | None => Throw TypeError
  | Some JNull => Throw TypeError
  | _ => Ok (optProp key v)
  end.

Definition isArray (v : Any) : bool :=
  match v with Some (JArr _) => true | _ => false end.

(** [v[0]] of an array. *)
Definition index0 (v : Any) : Any :=
  match v with
  | Some (JArr (x :: _)) => Some x
  | _ => None
  end.

(** [a === b]; two objects or arrays that come from different places
    are never the same object. *)
Definition strictEq (a b : Any) : bool :=
  match a, b with
  | None, None => true
  | Some JNull, Some JNull => true
  | Some (JBool x), Some (JBool y) => Bool.eqb x y
  | Some (JNum x), Some (JNum y) => (x =? y)%Z
  | Some (JStr x), Some (JStr y) => String.eqb x y
  | _, _ => false
  end.

(** *** Strings

    A string is held as its UTF-8 bytes.  Looking for a prefix or for a
    substring, and cutting at an ASCII character, give the same on these
    bytes as on the UTF-16 code units of the JavaScript string.  The
    length and the change of case do not: [strLength] counts the code
    units, and [String.prototype.toLowerCase], which folds all of
    Unicode, is a parameter [toLowerCase] wherever the program calls
    it. *)

(** The number of UTF-16 code units of the character that the byte
    begins: none for a continuation byte, two for the first byte of a
    four-byte sequence, one otherwise. *)
Definition unitsOf (c : ascii) : nat :=
  let n := nat_of_ascii c in
  if (128 <=? n)%nat && (n <? 192)%nat then 0%nat
  else if (240 <=? n)%nat then 2%nat
  else 1%nat.

(** [s.length] *)
Fixpoint strLength (s : string) : nat :=
  match s with
  | EmptyString => 0%nat
  | String c rest => (unitsOf c + strLength rest)%nat
  end.

(** The number of steps of [for (const x of s.slice(0, units))]: the
    characters that begin within the first [units] code units, a
    character cut in two by the slice counting as one. *)
Fixpoint charactersWithin (units : nat) (s : string) : nat :=
  match s with
  | EmptyString => 0%nat
  | String c rest =>
      match unitsOf c with
      | O => charactersWithin units rest
      | S u =>
          match units with
          | O => 0%nat
          | S remaining => S (charactersWithin (remaining - u) rest)
          end
      end
  end.

(** The lower case of an ASCII character. *)
Definition lowerAscii (c : ascii) : ascii :=
  let n := nat_of_ascii c in
  if (65 <=? n)%nat && (n <=? 90)%nat then ascii_of_nat (n + 32) else c.

(** [s.startsWith(p)] *)
Definition startsWith (s p : string) : bool := String.prefix p s.

(** [s.includes(p)] *)
Fixpoint includes (s p : string) : bool :=
  String.prefix p s ||
  match s with
  | EmptyString => false
  | String _ rest => includes rest p
  end.

(** [s.split(sep)[0]] for a one-character separator: the part of [s]
    before the first [sep], all of [s] if there is none. *)
Fixpoint beforeFirst (sep : ascii) (s : string) : string :=
  match s with
  | EmptyString => EmptyString
  | String c rest =>
      if Ascii.eqb c sep then EmptyString else String c (beforeFirst sep rest)
  end.

(** [v.toLowerCase()] on a value of type [any]: only strings have the
    method. *)
Definition anyToLowerCase (toLowerCase : string -> string) (v : Any) : Result string :=
  match v with
  | Some (JStr s) => Ok (toLowerCase s)
  | _ => Throw TypeError
  end.

End Js.

(* ===================================================================== *)
(** ** The chat service: tool execution *)
(* ===================================================================== *)

Module ChatService.
Import Js.
Local Open Scope string_scope.

(** A tool invocation requested by the completion provider (or built by
    the service itself). *)
Record ToolCall := mkToolCall {
  id    : string;
  name  : string;
  input : Any
}.

(** [MCPToolResult]; a missing [isError] is falsy. *)
Record MCPToolResult := mkMCPToolResult {
  content : Any;
  isError : bool
}.

Record Product := mkProduct {
  p_code  : Any;
  p_name  : Any;
  p_price : Any;
  p_stock : Any
}.

(** An element of the [results] array of [executeMCPTools]: either
    [{tool_use_id, content, products}] or [{tool_use_id, error}]. *)
Record ToolResult := mkToolResult {
  tool_use_id : string;
  r_content   : Any;
  r_products  : option (list Product);
  r_error     : option string
}.

(** The switch of [executeMCPTools] is over these names. *)
Inductive ToolKind :=
| SearchProducts | SearchProductsAdvanced | GetProductDetails
| CheckProductAvailability | GetCategories | GetProductsByCategory
| GetPromotions | GetProductReviews | GetProductSuggestions
| GetOrderStatus | GetOrderHistory | PlaceOrder | CreateCart | GetCart
| AddToCart | UpdateCartEntry | RemoveFromCart | SetDeliveryAddress
| GetDeliveryModes | SetDeliveryMode | SetPaymentDetails | UnknownTool.

Definition toolNames : list (string * ToolKind) :=
  [ ("search-products", SearchProducts);
    ("search-products-advanced", SearchProductsAdvanced);
    ("get-product-details", GetProductDetails);
    ("check-product-availability", CheckProductAvailability);
    ("get-categories", GetCategories);
    ("get-products-by-category", GetProductsByCategory);
    ("get-promotions", GetPromotions);
    ("get-product-reviews", GetProductReviews);
    ("get-product-suggestions", GetProductSuggestions);
    ("get-order-status", GetOrderStatus);
    ("get-order-history", GetOrderHistory);
    ("place-order", PlaceOrder);
    ("create-cart", CreateCart);
    ("get-cart", GetCart);
    ("add-to-cart", AddToCart);
    ("update-cart-entry", UpdateCartEntry);
    ("remove-from-cart", RemoveFromCart);
    ("set-delivery-address", SetDeliveryAddress);
    ("get-delivery-modes", GetDeliveryModes);
    ("set-delivery-mode", SetDeliveryMode);
    ("set-payment-details", SetPaymentDetails) ].

Fixpoint lookupKind (nm : string) (table : list (string * ToolKind)) : ToolKind :=
  match table with
  | [] => UnknownTool
  | (k, kind) :: rest => if String.eqb k nm then kind else lookupKind nm rest
  end.

Definition classify (nm : string) : ToolKind := lookupKind nm toolNames.

(** Monadic [Array.prototype.find]: the predicate may throw, and is not
    called past the first hit. *)
Fixpoint findM {A} (p : A -> Result bool) (l : list A) : Result (option A) :=
  match l with
  | [] => Ok None
  | x :: rest =>
      match p x with
      | Throw msg => Throw msg
      | Ok true => Ok (Some x)
      | Ok false => findM p rest
      end
  end.

Definition bindR {A B} (c : Result A) (k : A -> Result B) : Result B :=
  match c with
  | Ok a => k a
  | Throw msg => Throw msg
  end.

Notation "'let?' x ':=' c 'in' k" := (bindR c (fun x => k))
  (at level 10, x name, c at level 100, k at level 200, only parsing).

(** The predicate of the exact search. *)
Definition exactPred (requestedCode : Any) (m : Json) : Result bool :=
  let? c := prop "code" (Some m) in
  Ok (strictEq c requestedCode).

Section Lowering.

(** [String.prototype.toLowerCase] *)
Variable toLowerCase : string -> string.

(** The predicate of the fuzzy search; [||] does not look at the name
    once the code matches. *)
Definition fuzzyPred (pfx : string) (m : Json) : Result bool :=
  let? c := prop "code" (Some m) in
  let? cl := anyToLowerCase toLowerCase c in
  if startsWith cl pfx then Ok true
  else
    let? n := prop "name" (Some m) in
    let? nl := anyToLowerCase toLowerCase n in
    Ok (includes nl pfx).

(** The fuzzy search and what follows it. *)
Definition fuzzyCode (first : Json) (deliveryModes : list Json) (requestedCode : Any)
  : Result Any :=
  let? requestedLower := anyToLowerCase toLowerCase requestedCode in
  let pfx := beforeFirst "-" requestedLower in
  let? fuzzyMatch := findM (fuzzyPred pfx) deliveryModes in
  match fuzzyMatch with
  | Some m => prop "code" (Some m)
  | None => prop "code" (Some first)
  end.

Definition fixDeliveryModeCode
           (deliveryModesByConversation : gmap string (list Json))
           (conversationId : string) (requestedCode : Any) : Result Any :=
  match deliveryModesByConversation !! conversationId with
  | None => Ok requestedCode
  | Some [] => Ok requestedCode
  | Some ((first :: _) as deliveryModes) =>
      let? exactMatch := findM (exactPred requestedCode) deliveryModes in
      match exactMatch with
      | Some m =>
          (* [if (exactMatch)] *)
          if truthy (Some m) then Ok requestedCode
          else fuzzyCode first deliveryModes requestedCode
      | None => fuzzyCode first deliveryModes requestedCode
      end
  end.

End Lowering.

Section Engine.

(** The MCP client, connected: [callTool] turns every failure of
    the underlying call into an error-flagged result, so it never
    throws; [World] is whatever the server and the commerce backend
    behind it remember. *)
Variable World : Type.
Variable callTool : World -> string -> Args -> World * MCPToolResult.

(** [JSON.parse] ([None] is its [SyntaxError]), [JSON.stringify], and
    the conversion to string that [JSON.parse] applies to an
    argument that is not a string. *)
Variable JSON_parse : string -> option Json.
Variable JSON_stringify : Json -> string.
Variable ToString : Any -> string.

(** [String.prototype.toLowerCase] *)
Variable toLowerCase : string -> string.

Definition SyntaxError := "SyntaxError".

Definition jsonParse (text : Any) : Result Any :=
  let s := match text with
           | Some (JStr s) => s
           | _ => ToString text
           end in
  match JSON_parse s with
  | Some j => Ok (Some j)
  | None => Throw SyntaxError
  end.

(** The three maps of the service, the world behind the MCP client,
    and the calls made through the client so far, oldest first. *)
Record State := mkState {
  cartsByConversation         : gmap string Json;
  deliveryModesByConversation : gmap string (list Json);
  lastOrderCodeByConversation : gmap string string;
  mcp                         : World;
  trace                       : list (string * Args)
}.

Definition initialState (w : World) : State := mkState ∅ ∅ ∅ w [].

Definition withCarts (f : gmap string Json -> gmap string Json) (st : State) : State :=
  mkState (f (cartsByConversation st)) (deliveryModesByConversation st)
          (lastOrderCodeByConversation st) (mcp st) (trace st).

Definition withModes (f : gmap string (list Json) -> gmap string (list Json))
           (st : State) : State :=
  mkState (cartsByConversation st) (f (deliveryModesByConversation st))
          (lastOrderCodeByConversation st) (mcp st) (trace st).

(** Code that reads and writes the state and may throw; what was
    written before a throw stays written. *)
Definition M (A : Type) := State -> State * Result A.

Definition ret {A} (a : A) : M A := fun st => (st, Ok a).
Definition throw {A} (msg : string) : M A := fun st => (st, Throw msg).
Definition lift {A} (r : Result A) : M A := fun st => (st, r).
Definition bind {A B} (c : M A) (k : A -> M B) : M B :=
  fun st =>
    match c st with
    | (st', Ok a) => k a st'
    | (st', Throw msg) => (st', Throw msg)
    end.
Definition gets {A} (f : State -> A) : M A := fun st => (st, Ok (f st)).
Definition modify (f : State -> State) : M unit := fun st => (f st, Ok tt).

Notation "'do' x '<-' c 'in' k" := (bind c (fun x => k))
  (at level 10, x name, c at level 100, k at level 200, only parsing).
Notation "'run' c 'in' k" := (bind c (fun _ => k))
  (at level 10, c at level 100, k at level 200, only parsing).

(** [await this.mcpClient.callTool({ name, arguments })] *)
Definition mcpCallTool (nm : string) (args : Args) : M MCPToolResult :=
  fun st =>
    let '(w, result) := callTool (mcp st) nm args in
    (mkState (cartsByConversation st) (deliveryModesByConversation st)
             (lastOrderCodeByConversation st) w (trace st ++ [(nm, args)]),
     Ok result).

(** [this.cartsByConversation.get(conversationId)] *)
Definition storedCart (conversationId : string) : M Any :=
  gets (fun st => cartsByConversation st !! conversationId).

(** *** [parseProducts] *)

Definition unwrapContent (data : Any) : Any :=
  if isArray data then jor (optProp "text" (index0 data)) (index0 data)
  else data.

Definition parseIfString (data : Any) : Result Any :=
  match data with
  | Some (JStr s) => jsonParse data
  | _ => Ok data
  end.

(** The loop over [productList.slice(0, 5)]; a [null] element throws
    and leaves what was pushed before it. *)
Fixpoint pushProducts (items : list Json) : list Product :=
  match items with
  | [] => []
  | JNull :: _ => []
  | p :: rest =>
      mkProduct (optProp "code" (Some p)) (optProp "name" (Some p))
                (optProp "price" (Some p)) (optProp "stock" (Some p))
      :: pushProducts rest
  end.

Definition parseProducts (mcpResponse : Any) : list Product :=
  match parseIfString (unwrapContent mcpResponse) with
  | Throw _ => []
  | Ok data =>
      match prop "products" data with
      | Throw _ => []
      | Ok found =>
          match jor found (Some (JArr [])) with
          | Some (JArr items) => pushProducts (firstn 5 items)
          | Some (JStr s) =>
              repeat (mkProduct None None None None) (charactersWithin 5 s)
          | _ => []
          end
      end
  end.

(** *** [storeDeliveryModes] *)

Definition isNull (j : Json) : bool :=
  match j with JNull => true | _ => false end.

(** The body of the loop for one element whose [content] is given:
    the map afterwards, and whether the body threw. *)
Definition storeDeliveryModesOf (conversationId : string) (resultContent : Any)
           (modes : gmap string (list Json)) : gmap string (list Json) * bool :=
  if truthy resultContent then
    match parseIfString (unwrapContent resultContent) with
    | Throw _ => (modes, true)
    | Ok data =>
        match prop "deliveryModes" data with
        | Throw _ => (modes, true)
        | Ok (Some (JArr deliveryModes)) =>
            (* the log line reads [m.code] of every element *)
            (<[conversationId := deliveryModes]> modes,
             existsb isNull deliveryModes)
        | Ok _ => (modes, false)
        end
    end
  else (modes, false).

(** The [try { for ... } catch { }]: a throw ends the loop. *)
Fixpoint storeDeliveryModesLoop (conversationId : string) (contents : list Any)
         (modes : gmap string (list Json)) : gmap string (list Json) :=
  match contents with
  | [] => modes
  | c :: rest =>
      match storeDeliveryModesOf conversationId c modes with
      | (modes', true) => modes'
      | (modes', false) => storeDeliveryModesLoop conversationId rest modes'
      end
  end.

(** [storeDeliveryModes(conversationId, toolResults)]; only the
    [content] of each element of [toolResults] is read. *)
Definition storeDeliveryModes (conversationId : string) (contents : list Any) : M unit :=
  modify (withModes (storeDeliveryModesLoop conversationId contents)).

(** *** [executeMCPTools] *)

(** [toolCall.input.key] *)
Definition field (toolCall : ToolCall) (key : string) : M Any :=
  lift (prop key (input toolCall)).

(** [{ k1: o.k1, k2: o.k2, ... }] *)
Definition pick (keys : list string) (o : Any) : Result Args :=
  match keys with
  | [] => Ok []
  | _ =>
      match o with
      | None | Some JNull => Throw TypeError
      | _ => Ok (map (fun k => (k, AVal (optProp k o))) keys)
      end
  end.

(** The address literal built from [o], which is [toolCall.input] or
    [toolCall.input.billingAddress]; [withRegion] says when the region
    is added. *)
Definition addressPayload (o : Any) (withRegion : bool) : Arg :=
  AObj
    ([ ("title", AVal (optProp "title" o));
       ("titleCode", AVal (jor (optProp "titleCode" o) (Some (JStr "mr"))));
       ("firstName", AVal (optProp "firstName" o));
       ("lastName", AVal (optProp "lastName" o));
       ("companyName", AVal (optProp "companyName" o));
       ("line1", AVal (optProp "line1" o));
       ("line2", AVal (optProp "line2" o));
       ("town", AVal (optProp "town" o));
       ("postalCode", AVal (optProp "postalCode" o));
       ("country", AObj [ ("isocode", AVal (optProp "countryIsocode" o));
                          ("name", AVal (optProp "countryName" o)) ]);
       ("phone", AVal (optProp "phone" o));
       ("email", AVal (optProp "email" o)) ]
     ++ (if withRegion
         then [ ("region",
                 AObj [ ("isocode", AVal (optProp "regionIsocode" o));
                        ("name", AVal (optProp "regionName" o));
                        ("countryIso", AVal (optProp "countryIsocode" o)) ]) ]
         else []))%list.

Definition emptyCartMessage : Json :=
  JObj [ ("message", JStr "Your cart is currently empty. Start shopping by searching for products!");
         ("isEmpty", JBool true);
         ("totalItems", JNum 0) ].

Definition noCartError : Json :=
  JObj [ ("error", JStr "No cart exists");
         ("message", JStr "You need to create a cart and add items before setting a delivery address. Please start by adding products to your cart.") ].

(** The cart data of a [create-cart] result. *)
Definition cartDataOf (resultContent : Any) : Result Any :=
  if isArray resultContent then
    let? text := prop "text" (index0 resultContent) in
    jsonParse text
  else
    match resultContent with
    | Some (JStr _) => jsonParse resultContent
    | _ => Ok resultContent
    end.

(** [cartData?.cartId || cartData?.code || cartData?.guid] of the
    create-cart case. *)
Definition newCartIdOf (cartData : Any) : Any :=
  jor (optProp "cartId" cartData)
      (jor (optProp "code" cartData) (optProp "guid" cartData)).

(** [cartData?.cartId || cartData?.code || cartData?.guid ||
    cartData?.id] of the add-to-cart case, from the result of its
    create-cart call. *)
Definition createdCartId (cartResult : MCPToolResult) : Result Any :=
  let? cartData := (if truthy (content cartResult)
                    then cartDataOf (content cartResult)
                    else Ok None) in
  Ok (jor (optProp "cartId" cartData)
          (jor (optProp "code" cartData)
               (jor (optProp "guid" cartData) (optProp "id" cartData)))).

Definition extractFailed := "Failed to extract cartId from cart creation response".

Definition token (userAccessToken : Any) : string * Arg :=
  ("userAccessToken", AVal userAccessToken).

(** The [switch]; the result is what [result] holds after it. *)
Definition dispatch (toolCall : ToolCall) (conversationId : string)
           (userAccessToken : Any) : M MCPToolResult :=
  match classify (name toolCall) with
  | SearchProducts =>
      do query <- field toolCall "query" in
      do pageSize <- field toolCall "pageSize" in
      mcpCallTool "search-products"
        [ ("query", AVal query);
          ("pageSize", AVal (jor pageSize (Some (JNum 10)))) ]
  | SearchProductsAdvanced =>
      do args <- lift (pick ["query"; "minPrice"; "maxPrice"; "categoryCode";
                             "sort"; "pageSize"; "currentPage"] (input toolCall)) in
      mcpCallTool "search-products-advanced" args
  | GetProductDetails =>
      do args <- lift (pick ["productCode"] (input toolCall)) in
      mcpCallTool "get-product-details" args
  | CheckProductAvailability =>
      do args <- lift (pick ["productCode"] (input toolCall)) in
      mcpCallTool "check-product-availability" args
  | GetCategories => mcpCallTool "get-categories" []
  | GetProductsByCategory =>
      do categoryCode <- field toolCall "categoryCode" in
      do rest <- lift (pick ["currentPage"; "pageSize"; "sort"] (input toolCall)) in
      mcpCallTool "get-products-by-category" (("categoryId", AVal categoryCode) :: rest)
  | GetPromotions => mcpCallTool "get-promotions" []
  | GetProductReviews =>
      do args <- lift (pick ["productCode"] (input toolCall)) in
      mcpCallTool "get-product-reviews" args
  | GetProductSuggestions =>
      do args <- lift (pick ["term"; "max"] (input toolCall)) in
      mcpCallTool "get-product-suggestions" args
  | GetOrderStatus =>
      do args <- lift (pick ["orderCode"] (input toolCall)) in
      mcpCallTool "get-order-status" (args ++ [token userAccessToken])%list
  | GetOrderHistory =>
      do args <- lift (pick ["pageSize"; "currentPage"] (input toolCall)) in
      mcpCallTool "get-order-history" (args ++ [token userAccessToken])%list
  | PlaceOrder =>
      do own <- field toolCall "cartId" in
      do stored <- storedCart conversationId in
      let orderCartId := jor own stored in
      do result <- mcpCallTool "place-order"
                     [ ("cartId", AVal orderCartId); token userAccessToken ] in
      run (if truthy orderCartId
           then modify (withCarts (delete conversationId))
           else ret tt) in
      ret result
  | CreateCart =>
      do result <- mcpCallTool "create-cart" [ token userAccessToken ] in
      run (if truthy (content result) && negb (isError result) then
             do cartData <- lift (cartDataOf (content result)) in
             let newCartId := newCartIdOf cartData in
             match newCartId with
             | Some cid =>
                 if truthy newCartId
                 then modify (withCarts (insert conversationId cid))
                 else ret tt
             | None => ret tt
             end
           else ret tt) in
      ret result
  | GetCart =>
      do own <- field toolCall "cartId" in
      do stored <- storedCart conversationId in
      let getCartId := jor own stored in
      if negb (truthy getCartId)
      then ret (mkMCPToolResult (Some (JStr (JSON_stringify emptyCartMessage))) false)
      else mcpCallTool "get-cart" [ ("cartId", AVal getCartId); token userAccessToken ]
  | AddToCart =>
      do own <- field toolCall "cartId" in
      do stored <- storedCart conversationId in
      do cartId <-
        (if negb (truthy (jor own stored)) then
           do cartResult <- mcpCallTool "create-cart" [ token userAccessToken ] in
           do created <- lift (createdCartId cartResult) in
           match created with
           | Some cid =>
               if truthy created
               then run modify (withCarts (insert conversationId cid)) in
                    ret created
               else throw extractFailed
           | None => throw extractFailed
           end
         else ret (jor own stored)) in
      do productCode <- field toolCall "productCode" in
      do quantity <- field toolCall "quantity" in
      mcpCallTool "add-to-cart"
        [ ("cartId", AVal cartId);
          ("productCode", AVal productCode);
          ("quantity", AVal (jor quantity (Some (JNum 1))));
          token userAccessToken ]
  | UpdateCartEntry =>
      do own <- field toolCall "cartId" in
      do stored <- storedCart conversationId in
      do rest <- lift (pick ["entryNumber"; "quantity"] (input toolCall)) in
      mcpCallTool "update-cart-entry"
        ((("cartId", AVal (jor own stored)) :: rest) ++ [ token userAccessToken ])%list
  | RemoveFromCart =>
      do own <- field toolCall "cartId" in
      do stored <- storedCart conversationId in
      do rest <- lift (pick ["entryNumber"] (input toolCall)) in
      mcpCallTool "remove-from-cart"
        ((("cartId", AVal (jor own stored)) :: rest) ++ [ token userAccessToken ])%list
  | SetDeliveryAddress =>
      do setAddrCartId <- storedCart conversationId in
      if negb (truthy setAddrCartId)
      then ret (mkMCPToolResult (Some (JStr (JSON_stringify noCartError))) true)
      else
        do regionIsocode <- field toolCall "regionIsocode" in
        do regionName <- field toolCall "regionName" in
        mcpCallTool "set-delivery-address"
          [ ("cartId", AVal setAddrCartId);
            ("address", addressPayload (input toolCall)
                          (truthy (jor regionIsocode regionName)));
            token userAccessToken ]
  | GetDeliveryModes =>
      do getModeCartId <- storedCart conversationId in
      do result <- mcpCallTool "get-delivery-modes"
                     [ ("cartId", AVal getModeCartId); token userAccessToken ] in
      run (if negb (isError result)
           then storeDeliveryModes conversationId [content result]
           else ret tt) in
      ret result
  | SetDeliveryMode =>
      do setModeCartId <- storedCart conversationId in
      do requestedCode <- field toolCall "deliveryModeCode" in
      do modes <- gets deliveryModesByConversation in
      do correctedCode <- lift (fixDeliveryModeCode toLowerCase modes conversationId
                                                    requestedCode) in
      mcpCallTool "set-delivery-mode"
        [ ("cartId", AVal setModeCartId);
          ("deliveryModeCode", AVal correctedCode);
          token userAccessToken ]
  | SetPaymentDetails =>
      do setPaymentCartId <- storedCart conversationId in
      do billingAddress <- field toolCall "billingAddress" in
      do regionIsocode <- lift (prop "regionIsocode" billingAddress) in
      do card <- lift (pick ["accountHolderName"; "cardNumber"] (input toolCall)) in
      do cardTypeCode <- field toolCall "cardTypeCode" in
      do expiry <- lift (pick ["expiryMonth"; "expiryYear"; "cvv"] (input toolCall)) in
      mcpCallTool "set-payment-details"
        [ ("cartId", AVal setPaymentCartId);
          ("paymentDetails",
           AObj (card
                 ++ [ ("cardType", AObj [ ("code", AVal cardTypeCode) ]) ]
                 ++ expiry
                 ++ [ ("billingAddress",
                       addressPayload billingAddress (truthy regionIsocode)) ])%list);
          token userAccessToken ]
  | UnknownTool => ret (mkMCPToolResult None false)
  end.

(** [contentStr]: the content itself if it is a string, else
    [JSON.stringify] of it ([undefined] for [undefined]). *)
Definition contentStr (result : MCPToolResult) : option string :=
  match content result with
  | Some (JStr s) => Some s
  | Some j => Some (JSON_stringify j)
  | None => None
  end.

(** The test for an expired or invalid token. *)
Definition authFailed (result : MCPToolResult) : bool :=
  isError result &&
  match contentStr result with
  | Some s => includes s "401" || includes s "Unauthorized"
  | None => false
  end.

Definition reauthPayload : Json :=
  JObj [ ("error", JStr "Authentication failed");
         ("message", JStr "Your session has expired. Please log in again to continue.");
         ("requiresReauth", JBool true) ].

Definition reauthResult (toolCall : ToolCall) : ToolResult :=
  mkToolResult (id toolCall) (Some (JStr (JSON_stringify reauthPayload)))
               (Some []) None.

Definition isSearch (nm : string) : bool :=
  String.eqb nm "search-products" || String.eqb nm "search-products-advanced".

(** One iteration of the loop: the [try] block and its [catch]; the
    element pushed to [results]. *)
Definition executeOne (toolCall : ToolCall) (conversationId : string)
           (userAccessToken : Any) (st : State) : State * ToolResult :=
  match dispatch toolCall conversationId userAccessToken st with
  | (st', Ok result) =>
      if authFailed result then (st', reauthResult toolCall)
      else
        let products :=
          if isSearch (name toolCall) && negb (isError result)
          then parseProducts (content result) else [] in
        (st', mkToolResult (id toolCall) (content result) (Some products) None)
  | (st', Throw message) =>
      (st', mkToolResult (id toolCall) None None (Some message))
  end.

Fixpoint executeMCPTools (toolCalls : list ToolCall) (conversationId : string)
         (userAccessToken : Any) (st : State) : State * list ToolResult :=
  match toolCalls with
  | [] => (st, [])
  | toolCall :: rest =>
      let '(st1, result) := executeOne toolCall conversationId userAccessToken st in
      let '(st2, results) := executeMCPTools rest conversationId userAccessToken st1 in
      (st2, result :: results)
  end.

(** [clearConversation], without the conversation manager. *)
Definition clearConversation (conversationId : string) (st : State) : State :=
  mkState (delete conversationId (cartsByConversation st))
          (delete conversationId (deliveryModesByConversation st))
          (delete conversationId (lastOrderCodeByConversation st))
          (mcp st) (trace st).

(** *** [handleChatMessage], from the first provider call on

    The first part of [handleChatMessage] finds or creates the
    conversation, appends the user message, and assembles what the
    provider is called with: the last ten messages, the system prompt,
    the tool definitions for the caller, and the tool choice that the
    order-inquiry heuristic forces.  None of it touches the cart or the
    delivery-mode map; here it is the [prompt] of the request.  The
    message that the end of the function appends to the conversation is
    built from the same values as the response. *)

Record AiResponse := mkAiResponse {
  ai_content : string;
  toolCalls  : option (list ToolCall);
  tokensUsed : Z
}.

(** A block of the synthetic assistant message. *)
Inductive ContentBlock :=
| TextBlock (text : string)
| ToolUseBlock (toolCall : ToolCall).

(** A block of the synthetic user message. *)
Record ToolResultBlock := mkToolResultBlock {
  b_tool_use_id : string;
  b_content     : option string
}.

(** The completion provider: [sendMessage] is the first call of a turn,
    [sendToolResults] the second one, whose messages end with the
    synthetic assistant message (text and tool-use blocks) and the
    synthetic user message (tool-result blocks). *)
Variable Provider : Type.
Variable Prompt : Type.
Variable providerName : string.
Variable sendMessage : Provider -> Prompt -> Provider * AiResponse.
Variable sendToolResults :
  Provider -> Prompt -> list ContentBlock -> list ToolResultBlock ->
  Provider * AiResponse.

Record ChatRequest := mkChatRequest {
  conversationId  : string;      (* the given or the created one *)
  prompt          : Prompt;
  userAccessToken : Any;
  placeOrderId    : string;      (* the [uuidv4()] of the place-order call *)
  deliveryModesId : string       (* the [uuidv4()] of the get-delivery-modes call *)
}.

Record ChatResponse := mkChatResponse {
  resp_conversationId : string;
  message             : string;
  productsFound       : nat;
  mcpToolsUsed        : list string;
  resp_tokensUsed     : Z;
  provider            : string
}.

(** [toolResults.find(r => toolCalls.find(tc => tc.id === r.tool_use_id
    && tc.name === nm))] *)
Definition resultOf (nm : string) (calls : list ToolCall)
           (toolResults : list ToolResult) : option ToolResult :=
  List.find
    (fun r => existsb (fun tc => String.eqb (id tc) (tool_use_id r)
                                 && String.eqb (name tc) nm) calls)
    toolResults.

(** [r && !r.error] *)
Definition presentWithoutError (r : option ToolResult) : bool :=
  match r with
  | None => false
  | Some r =>
      match r_error r with
      | None => true
      | Some message => String.eqb message EmptyString
      end
  end.

Definition includesName (nm : string) (names : list string) : bool :=
  existsb (String.eqb nm) names.

Definition mkCall (callId nm : string) : ToolCall :=
  mkToolCall callId nm (Some (JObj [])).

(** What the tool part of a turn leaves behind: [aiResponse.toolCalls],
    [toolResults], [toolsUsed] and [products]. *)
Record ToolPhase := mkToolPhase {
  allCalls    : list ToolCall;
  toolResults : list ToolResult;
  toolsUsed   : list string;
  products    : list Product
}.

Definition collectProducts (results : list ToolResult) : list Product :=
  flat_map (fun r => match r_products r with
                     | Some ps => ps
                     | None => []
                     end) results.

(** The model-requested executions. *)
Definition requestedPhase (req : ChatRequest) (calls : list ToolCall)
           (st : State) : State * ToolPhase :=
  let '(st1, results) :=
    executeMCPTools calls (conversationId req) (userAccessToken req) st in
  (st1, mkToolPhase calls results (map name calls) (collectProducts results)).

(** Auto-trigger of place-order after set-payment-details. *)
Definition autoPlaceOrder (req : ChatRequest) (ph : ToolPhase)
           (st : State) : State * ToolPhase :=
  if includesName "set-payment-details" (toolsUsed ph)
     && presentWithoutError
          (resultOf "set-payment-details" (allCalls ph) (toolResults ph))
  then
    let placeOrderCall := mkCall (placeOrderId req) "place-order" in
    let '(st1, placeOrderResults) :=
      executeMCPTools [placeOrderCall] (conversationId req)
                      (userAccessToken req) st in
    (st1, mkToolPhase (allCalls ph ++ [placeOrderCall])
                      (toolResults ph ++ placeOrderResults)
                      (toolsUsed ph ++ ["place-order"])
                      (products ph))
  else (st, ph).

(** Auto-trigger of get-delivery-modes after set-delivery-address. *)
Definition autoDeliveryModes (req : ChatRequest) (ph : ToolPhase)
           (st : State) : State * ToolPhase :=
  if includesName "set-delivery-address" (toolsUsed ph)
     && presentWithoutError
          (resultOf "set-delivery-address" (allCalls ph) (toolResults ph))
  then
    let deliveryModesCall := mkCall (deliveryModesId req) "get-delivery-modes" in
    let '(st1, deliveryModesResults) :=
      executeMCPTools [deliveryModesCall] (conversationId req)
                      (userAccessToken req) st in
    let '(st2, _) :=
      storeDeliveryModes (conversationId req)
                         (map r_content deliveryModesResults) st1 in
    (st2, mkToolPhase (allCalls ph ++ [deliveryModesCall])
                      (toolResults ph ++ deliveryModesResults)
                      (toolsUsed ph ++ ["get-delivery-modes"])
                      (products ph))
  else (st, ph).

Definition toolPhase (req : ChatRequest) (calls : list ToolCall)
           (st : State) : State * ToolPhase :=
  let '(st1, ph1) := requestedPhase req calls st in
  let '(st2, ph2) := autoPlaceOrder req ph1 st1 in
  autoDeliveryModes req ph2 st2.

(** [JSON.stringify(result.content || result.error)] *)
Definition resultBlock (r : ToolResult) : ToolResultBlock :=
  mkToolResultBlock (tool_use_id r)
    (match jor (r_content r) (option_map JStr (r_error r)) with
     | Some j => Some (JSON_stringify j)
     | None => None
     end).

Definition assistantContent (aiResponse : AiResponse) (calls : list ToolCall)
  : list ContentBlock :=
  ((if String.eqb (ai_content aiResponse) EmptyString then []
    else [TextBlock (ai_content aiResponse)])
   ++ map ToolUseBlock calls)%list.

Definition placeholder := "Processing your request...".

(** A turn; the state of the service and of the provider before and
    after. *)
Definition handleChatMessage (req : ChatRequest) (st : State) (pv : Provider)
  : State * Provider * ChatResponse :=
  let '(pv1, aiResponse) := sendMessage pv (prompt req) in
  let '(st', pv', aiFinal, used, found) :=
    match toolCalls aiResponse with
    | Some ((_ :: _) as calls) =>
        let '(st1, ph) := toolPhase req calls st in
        let '(pv2, aiResponse2) :=
          sendToolResults pv1 (prompt req)
            (assistantContent aiResponse (allCalls ph))
            (map resultBlock (toolResults ph)) in
        (st1, pv2, aiResponse2, toolsUsed ph, products ph)
    | _ => (st, pv1, aiResponse, [], [])
    end in
  let responseContent :=
    if String.eqb (ai_content aiFinal) EmptyString then placeholder
    else ai_content aiFinal in
  (st', pv',
   mkChatResponse (conversationId req) responseContent (length found)
                  used (tokensUsed aiFinal) providerName).

End Engine.

End ChatService.

(* ===================================================================== *)
(** ** Vocabulary of the statements, and a simulated backend *)
(* ===================================================================== *)

Module Props.
Import Js ChatService.
Local Open Scope string_scope.

(** The call has an [input] object ([toolCall.input.x] does not throw). *)
Definition hasInput (toolCall : ToolCall) : Prop :=
  input toolCall <> None /\ input toolCall <> Some JNull.

(** The call carries no cart id of its own. *)
Definition noOwnCart (toolCall : ToolCall) : Prop :=
  truthy (optProp "cartId" (input toolCall)) = false.

(** The cart that the arguments of a call through the client name: the
    value of [cartId], if they have one. *)
Fixpoint cartArg (args : Args) : option Arg :=
  match args with
  | [] => None
  | (k, a) :: rest => if String.eqb k "cartId" then Some a else cartArg rest
  end.

(** Every stored cart id is truthy. *)
Definition cartsTruthy (carts : gmap string Json) : Prop :=
  forall conv cid, carts !! conv = Some cid -> truthy (Some cid) = true.

(** The delivery-mode list that the content of a tool result holds,
    read the way [storeDeliveryModes] reads it. *)
Definition listedModes (JSON_parse : string -> option Json) (ToString : Any -> string)
           (resultContent : Any) : option (list Json) :=
  if truthy resultContent then
    match parseIfString JSON_parse ToString (unwrapContent resultContent) with
    | Ok data =>
        match prop "deliveryModes" data with
        | Ok (Some (JArr deliveryModes)) => Some deliveryModes
        | _ => None
        end
    | Throw _ => None
    end
  else None.

(** The code and the name of a cached delivery mode, when they are
    strings. *)
Definition codeOf (m : Json) : option string :=
  match optProp "code" (Some m) with
  | Some (JStr c) => Some c
  | _ => None
  end.

Definition nameOf (m : Json) : option string :=
  match optProp "name" (Some m) with
  | Some (JStr n) => Some n
  | _ => None
  end.

(** [p] stands at the start of [s]; [p] occurs in [s]. *)
Definition isPrefixOf (p s : string) : Prop := exists rest, s = p ++ rest.

Definition occursIn (p s : string) : Prop :=
  exists before after, s = before ++ p ++ after.

(** [token] is what stands in [s] before its first [-]: all of [s] when
    [s] has none. *)
Definition tokenOf (s token : string) : Prop :=
  (forall before after, token <> before ++ "-" ++ after) /\
  (s = token \/ exists rest, s = token ++ "-" ++ rest).

(** The mode matches the token: its code, in lower case, starts with
    it, or its name, in lower case, contains it. *)
Definition matches (toLowerCase : string -> string) (token : string) (m : Json) : Prop :=
  exists c, codeOf m = Some c /\
    (isPrefixOf token (toLowerCase c) \/
     exists n, nameOf m = Some n /\ occursIn token (toLowerCase n)).

(** The mode has a code and a name and does not match the token. *)
Definition differs (toLowerCase : string -> string) (token : string) (m : Json) : Prop :=
  exists c n, codeOf m = Some c /\ nameOf m = Some n /\
    ~ isPrefixOf token (toLowerCase c) /\
    ~ occursIn token (toLowerCase n).

(** The mode has a code that does not match the token, and no name that
    is a string. *)
Definition nameless (toLowerCase : string -> string) (token : string) (m : Json) : Prop :=
  exists c, codeOf m = Some c /\ nameOf m = None /\
    ~ isPrefixOf token (toLowerCase c).

(** The cached list of the specification's example. *)
Definition exampleModes : list Json :=
  [ JObj [("code", JStr "standard-gross")];
    JObj [("code", JStr "premium-gross")] ].

(** The computation keeps [cartsTruthy]. *)
Definition keeps {World A} (c : M World A) : Prop :=
  forall st, cartsTruthy (cartsByConversation World st) ->
             cartsTruthy (cartsByConversation World (fst (c st))).

Definition sda := "set-delivery-address".

(** The results of a run line up with the calls: same ids, and no
    error on a set-delivery-address call that has an input. *)
Definition lined (tc : ToolCall) (r : ToolResult) : Prop :=
  tool_use_id r = id tc /\ (name tc = sda -> hasInput tc -> r_error r = None).

(** The arguments of the automatic get-delivery-modes and place-order
    calls: the stored cart id and the access token. *)
Definition storedCartArgs {World} (st : State World) (conv : string) (tok : Any) : Args :=
  [ ("cartId", AVal (cartsByConversation World st !! conv)); token tok ].

(** The arguments of a place-order call with the resolved cart id. *)
Definition placeOrderArgs (orderCartId tok : Any) : Args :=
  [ ("cartId", AVal orderCartId); token tok ].

(** The arguments of the add-to-cart call for [toolCall] on [cartId]. *)
Definition addToCartArgs (toolCall : ToolCall) (cartId tok : Any) : Args :=
  [ ("cartId", AVal cartId);
    ("productCode", AVal (optProp "productCode" (input toolCall)));
    ("quantity", AVal (jor (optProp "quantity" (input toolCall)) (Some (JNum 1))));
    token tok ].

(** The cart id that a place-order call resolves: its own, else the
    stored one. *)
Definition resolvedCart {World} (st : State World) (conv : string)
           (toolCall : ToolCall) : Any :=
  jor (optProp "cartId" (input toolCall)) (cartsByConversation World st !! conv).

Definition sessionExpired :=
  "Your session has expired. Please log in again to continue.".

(** The text a reply carries: the provider's, or the placeholder. *)
Definition replyText (ai : AiResponse) : string :=
  if String.eqb (ai_content ai) EmptyString then placeholder else ai_content ai.

(** The names of the tools called through the MCP client, in order. *)
Definition calledTools {World} (st : State World) : list string :=
  map fst (trace World st).

End Props.

(** A simulated backend and completion provider, to run turns on. *)
Module Demo.
Import Js ChatService.
Local Open Scope string_scope.

Definition zToString (n : Z) : string :=
  NilEmpty.string_of_int (Z.to_int n).

Definition dquote : ascii := ascii_of_nat 34.
Definition backslash : ascii := ascii_of_nat 92.

Fixpoint escape (s : string) : string :=
  match s with
  | EmptyString => EmptyString
  | String c rest =>
      if Ascii.eqb c dquote || Ascii.eqb c backslash
      then String backslash (String c (escape rest))
      else String c (escape rest)
  end.

Definition quote (s : string) : string :=
  String dquote (escape s ++ String dquote EmptyString).

(** [JSON.stringify] on ASCII data. *)
Fixpoint stringify (j : Json) : string :=
  match j with
  | JNull => "null"
  | JBool true => "true"
  | JBool false => "false"
  | JNum n => zToString n
  | JStr s => quote s
  | JArr items =>
      "[" ++ (fix go (l : list Json) : string :=
                match l with
                | [] => EmptyString
                | [x] => stringify x
                | x :: rest => stringify x ++ "," ++ go rest
                end) items ++ "]"
  | JObj fields =>
      "{" ++ (fix go (l : list (string * Json)) : string :=
                match l with
                | [] => EmptyString
                | [(k, v)] => quote k ++ ":" ++ stringify v
                | (k, v) :: rest => quote k ++ ":" ++ stringify v ++ "," ++ go rest
                end) fields ++ "}"
  end.

(** [JSON.parse] on the texts that occur in the simulated runs: the
    payloads the service itself serialises; every other text there is
    an error message and no JSON. *)
Definition knownPayloads : list Json :=
  [ reauthPayload; emptyCartMessage; noCartError ].

Definition parse (s : string) : option Json :=
  List.find (fun j => String.eqb (stringify j) s) knownPayloads.

Definition toString (v : Any) : string :=
  match v with
  | Some (JStr s) => s
  | Some j => stringify j
  | None => "undefined"
  end.

(** [String.prototype.toLowerCase] on the texts of the simulated runs,
    which are ASCII. *)
Fixpoint toLowerCase (s : string) : string :=
  match s with
  | EmptyString => EmptyString
  | String c rest => String (lowerAscii c) (toLowerCase rest)
  end.

Definition ok (j : Json) : MCPToolResult := mkMCPToolResult (Some j) false.
Definition failed (text : string) : MCPToolResult :=
  mkMCPToolResult (Some (JArr [JObj [("type", JStr "text"); ("text", JStr text)]])) true.

Fixpoint argOf (key : string) (args : Args) : Any :=
  match args with
  | [] => None
  | (k, a) :: rest =>
      if String.eqb k key
      then match a with AVal v => v | AObj _ => None end
      else argOf key rest
  end.

Definition standardModes : list Json :=
  [ JObj [("code", JStr "standard-gross"); ("name", JStr "Standard Delivery")];
    JObj [("code", JStr "premium-gross"); ("name", JStr "Premium Delivery")] ].

(** The world is the number of carts created so far. *)
Definition World := Z.

(** A backend that works. *)
Definition healthy (w : World) (nm : string) (args : Args) : World * MCPToolResult :=
  if String.eqb nm "create-cart" then
    ((w + 1)%Z, ok (JObj [("code", JStr ("0000" ++ zToString (w + 1)))]))
  else if String.eqb nm "get-delivery-modes" then
    if truthy (argOf "cartId" args)
    then (w, ok (JObj [("deliveryModes", JArr standardModes)]))
    else (w, failed "Cart not found.")
  else if String.eqb nm "place-order" then
    if truthy (argOf "cartId" args)
    then (w, ok (JObj [("code", JStr "00002001"); ("status", JStr "CREATED")]))
    else (w, failed "Cart not found.")
  else (w, ok (JObj [("success", JBool true)])).

(** A backend that rejects the access token on every call. *)
Definition expired (w : World) (nm : string) (args : Args) : World * MCPToolResult :=
  (w, failed "Request failed with status code 401").

(** A backend on which placing the order fails. *)
Definition declining (w : World) (nm : string) (args : Args) : World * MCPToolResult :=
  if String.eqb nm "place-order"
  then (w, failed "Error placing order: payment was declined")
  else healthy w nm args.

(** A provider that asks for the given tool calls and then answers
    with the given text. *)
Definition scripted (calls : list ToolCall) (answer : string)
  : (unit -> unit -> unit * AiResponse) *
    (unit -> unit -> list ContentBlock -> list ToolResultBlock -> unit * AiResponse) :=
  (fun _ _ => (tt, mkAiResponse EmptyString (Some calls) 100),
   fun _ _ _ _ => (tt, mkAiResponse answer None 50)).

Definition request (conv : string) : ChatRequest unit :=
  mkChatRequest unit conv tt (Some (JStr "token-1")) "auto-1" "auto-2".

Definition address : Json :=
  JObj [ ("firstName", JStr "Ada"); ("lastName", JStr "Lovelace");
         ("line1", JStr "12 St James Square"); ("town", JStr "London");
         ("postalCode", JStr "SW1Y 4JH"); ("countryIsocode", JStr "GB") ].

Definition card : Json :=
  JObj [ ("accountHolderName", JStr "Ada Lovelace");
         ("cardNumber", JStr "4111111111111111");
         ("cardTypeCode", JStr "visa");
         ("expiryMonth", JStr "12"); ("expiryYear", JStr "2030");
         ("billingAddress", address) ].

(** A state in which conversation [conv] has the cart [cid]. *)
Definition withCart (conv cid : string) : State World :=
  mkState World {[ conv := JStr cid ]} ∅ ∅ 0%Z [].

(** Tool calls as a provider would request them. *)
Definition addressCall : ToolCall :=
  mkToolCall "toolu_01" "set-delivery-address" (Some address).
Definition paymentCall : ToolCall :=
  mkToolCall "toolu_02" "set-payment-details" (Some card).
Definition placeOrderCall : ToolCall :=
  mkToolCall "toolu_03" "place-order" (Some (JObj [])).
Definition addCall : ToolCall :=
  mkToolCall "toolu_04" "add-to-cart" (Some (JObj [("productCode", JStr "ACME-100")])).
Definition historyCall : ToolCall :=
  mkToolCall "toolu_05" "get-order-history" (Some (JObj [])).
Definition searchCall : ToolCall :=
  mkToolCall "toolu_06" "search-products" (Some (JObj [("query", JStr "camera")])).

(** The same calls, carrying the cart id 00001 in their input. *)
Definition addCallWithCart : ToolCall :=
  mkToolCall "toolu_07" "add-to-cart"
             (Some (JObj [("cartId", JStr "00001"); ("productCode", JStr "ACME-100")])).
Definition placeOrderCallWithCart : ToolCall :=
  mkToolCall "toolu_08" "place-order" (Some (JObj [("cartId", JStr "00001")])).

(** A request for a delivery mode that the backend does not have. *)
Definition expressCall : ToolCall :=
  mkToolCall "toolu_09" "set-delivery-mode"
             (Some (JObj [("deliveryModeCode", JStr "express-net")])).

Definition tok : Any := Some (JStr "token-1").

(** The service over a backend. *)
Definition run (backend : World -> string -> Args -> World * MCPToolResult)
           (toolCall : ToolCall) (st : State World) : State World * ToolResult :=
  executeOne World backend parse stringify toString toLowerCase toolCall "c1" tok st.

Definition turn (backend : World -> string -> Args -> World * MCPToolResult)
           (calls : list ToolCall) (st : State World) : State World * ToolPhase :=
  toolPhase World backend parse stringify toString toLowerCase unit (request "c1") calls st.

(** A conversation that has put an item into its cart: the cart 00001
    was created for it. *)
Definition shopping (backend : World -> string -> Args -> World * MCPToolResult)
  : State World :=
  fst (run backend addCall (initialState World 0%Z)).

(** The same conversation after a place-order call. *)
Definition ordered (backend : World -> string -> Args -> World * MCPToolResult)
  : State World :=
  fst (run backend placeOrderCall (shopping backend)).

Definition chat (backend : World -> string -> Args -> World * MCPToolResult)
           (calls : list ToolCall) (answer : string) (st : State World)
  : State World * unit * ChatResponse :=
  handleChatMessage World backend parse stringify toString toLowerCase unit unit "claude"
                    (fst (scripted calls answer)) (snd (scripted calls answer))
                    (request "c1") st tt.

End Demo.

(* ===================================================================== *)
(** ** Sequences of operations on the helpers *)
(* ===================================================================== *)

Module Runs.

(** What a window of the health monitor gets recorded. *)
Inductive Event :=
| RequestComplete (latencyMs : Z) (hasError : bool)
| CacheAccess (hit : bool).

Definition record (m : HealthMonitor.t) (e : Event) : HealthMonitor.t :=
  match e with
  | RequestComplete latencyMs hasError =>
      HealthMonitor.recordRequestComplete latencyMs hasError m
  | CacheAccess hit => HealthMonitor.recordCacheAccess hit m
  end.

Definition recordAll (events : list Event) (m : HealthMonitor.t) : HealthMonitor.t :=
  fold_left record events m.

Definition isRequest (e : Event) : bool :=
  match e with RequestComplete _ _ => true | CacheAccess _ => false end.
Definition isFailure (e : Event) : bool :=
  match e with RequestComplete _ hasError => hasError | CacheAccess _ => false end.
Definition isHit (e : Event) : bool :=
  match e with CacheAccess hit => hit | RequestComplete _ _ => false end.
Definition isMiss (e : Event) : bool :=
  match e with CacheAccess hit => negb hit | RequestComplete _ _ => false end.

Definition count (p : Event -> bool) (events : list Event) : Z :=
  Z.of_nat (length (List.filter p events)).

(** The counters are those of a window that has just begun. *)
Definition freshWindow (m : HealthMonitor.t) : Prop :=
  HealthMonitor.errorCount m = 0%Z /\ HealthMonitor.requestCount m = 0%Z /\
  HealthMonitor.cacheHits m = 0%Z /\ HealthMonitor.cacheMisses m = 0%Z.

(** The rates and the status that a tick computes from the events of a
    window. *)
Definition errorRateOf (events : list Event) : Q :=
  if (0 <? count isRequest events)%Z
  then inject_Z (count isFailure events) / inject_Z (count isRequest events)
  else 0.

Definition hitRateOf (events : list Event) : Q :=
  if (0 <? count isHit events + count isMiss events)%Z
  then inject_Z (count isHit events)
       / inject_Z (count isHit events + count isMiss events)
  else 1.

(** Operations on a cache, in the order they are made. *)
Inductive CacheOp (T : Type) :=
| OpSet (key : string) (v : T) (now : Z)
| OpGet (key : string) (now : Z)
| OpClear.
Arguments OpSet {T} key v now.
Arguments OpGet {T} key now.
Arguments OpClear {T}.

(** One operation; [None] when it throws. *)
Definition step {T} (c : Cache.t T) (op : CacheOp T) : option (Cache.t T) :=
  match op with
  | OpSet key v now => Cache.set key v now c
  | OpGet key now => Some (snd (Cache.get key now c))
  | OpClear => Some (Cache.clear c)
  end.

Fixpoint run {T} (ops : list (CacheOp T)) (c : Cache.t T) : option (Cache.t T) :=
  match ops with
  | [] => Some c
  | op :: rest =>
      match step c op with
      | Some c' => run rest c'
      | None => None
      end
  end.

(** What every operation on a cache keeps: distinct keys, a positive
    capacity and no more entries than the capacity. *)
Definition bounded {T} (c : Cache.t T) : Prop :=
  Cache.wf c /\ (0 < Cache.maxSize (Cache.config c))%Z /\
  (Z.of_nat (length (Cache.cache c)) <= Cache.maxSize (Cache.config c))%Z.

(** The latency reported after a run of events: that of the last
    completed request, or the one reported before. *)
Definition lastLatency (events : list Event) (before : option Z) : option Z :=
  fold_left (fun acc e =>
               match e with
               | RequestComplete latencyMs _ => Some latencyMs
               | CacheAccess _ => acc
               end) events before.

End Runs.

(* ===================================================================== *)
(** ** Vocabulary of the engine's footprint *)
(* ===================================================================== *)

Module Footprint.
Import Js ChatService.
Local Open Scope string_scope.

(** The cases of the switch that write the cart map, and the one that
    writes the delivery-mode map. *)
Definition writesCarts (k : ToolKind) : bool :=
  match k with
  | PlaceOrder | CreateCart | AddToCart => true
  | _ => false
  end.

Definition writesModes (k : ToolKind) : bool :=
  match k with
  | GetDeliveryModes => true
  | _ => false
  end.

(** From [st] to [st'] the order map is kept, the cart map and the
    delivery-mode map are kept outside conversation [conv], and each of
    them is kept as a whole unless [wc], respectively [wm], allows
    writing it. *)
Definition footprint {World} (conv : string) (wc wm : bool)
           (st st' : State World) : Prop :=
  lastOrderCodeByConversation World st' = lastOrderCodeByConversation World st /\
  (forall c, c <> conv ->
             cartsByConversation World st' !! c = cartsByConversation World st !! c) /\
  (wc = false -> cartsByConversation World st' = cartsByConversation World st) /\
  (forall c, c <> conv ->
             deliveryModesByConversation World st' !! c
             = deliveryModesByConversation World st !! c) /\
  (wm = false ->
   deliveryModesByConversation World st' = deliveryModesByConversation World st).

Definition within {World A} (conv : string) (wc wm : bool) (c : M World A) : Prop :=
  forall st, footprint conv wc wm st (fst (c st)).

(** The computation only adds calls to the trace, each to a tool that
    [allowed] admits. *)
Definition emits {World A} (allowed : string -> Prop) (c : M World A) : Prop :=
  forall st, exists extra,
    trace World (fst (c st)) = (trace World st ++ extra)%list /\
    Forall (fun e => allowed (fst e)) extra.

(** The tools a call named [nm] may reach: the one of that name, and
    create-cart on behalf of add-to-cart. *)
Definition reachable (nm : string) (called : string) : Prop :=
  called = nm \/ (nm = "add-to-cart" /\ called = "create-cart").

(** The calls that ask for a product search. *)
Definition searches (calls : list ToolCall) : nat :=
  length (List.filter (fun tc => isSearch (name tc)) calls).

End Footprint.

(* ===================================================================== *)
(** ** Guardrails of the bridge service *)
(* ===================================================================== *)

Module Guardrails.
Import Js.
Local Open Scope string_scope.

(** The numeric limits of [GuardrailConfig]; its [blockedPatterns] are
    regular expressions and are the parameter [matchesBlocked] below, its
    [allowedTopics] and [requireModeration] are not read by any check. *)
Record GuardrailConfig := mkConfig {
  maxMessageLength        : Z;
  maxMessagesPerMinute    : Z;
  maxConversationsPerUser : Z
}.

Definition defaultConfig : GuardrailConfig := mkConfig 2000 20 10.

(** The [reason] of a failed check. *)
Inductive Reason :=
| ExceedsMaximumLength (max : Z)
| ProhibitedContent
| PromptInjection
| RateLimitExceeded (max : Z)
| MaximumConversationsReached (max : Z)
| OffTopic.

(** [{ valid | allowed: boolean; reason?: string }]: [None] when the
    check passes. *)
Definition Check := option Reason.

(** An entry of [rateLimitStore]. *)
Record RateLimit := mkRateLimit {
  count     : Z;
  resetTime : Z
}.

(** The two module-level stores. *)
Record Stores := mkStores {
  rateLimitStore    : gmap string RateLimit;
  conversationStore : gmap string (gset string)
}.

Definition noStores : Stores := mkStores ∅ ∅.

(** [userId || 'anonymous'] *)
Definition userKeyOf (userId : option string) : string :=
  match userId with
  | Some s => if String.eqb s EmptyString then "anonymous" else s
  | None => "anonymous"
  end.

(** [!conversationId] *)
Definition givenId (conversationId : option string) : option string :=
  match conversationId with
  | Some s => if String.eqb s EmptyString then None else Some s
  | None => None
  end.

Definition checkRateLimit (config : GuardrailConfig) (now : Z) (userId : option string)
           (store : gmap string RateLimit) : gmap string RateLimit * Check :=
  let userKey := userKeyOf userId in
  let fresh := (<[userKey := mkRateLimit 1 (now + 60000)]> store, None) in
  match store !! userKey with
  | None => fresh
  | Some limit =>
      if (resetTime limit <? now)%Z then fresh
      else if (maxMessagesPerMinute config <=? count limit)%Z
      then (store, Some (RateLimitExceeded (maxMessagesPerMinute config)))
      else (<[userKey := mkRateLimit (count limit + 1) (resetTime limit)]> store, None)
  end.

Definition checkConversationLimit (config : GuardrailConfig) (userId : option string)
           (conversationId : option string) (store : gmap string (gset string))
  : gmap string (gset string) * Check :=
  let userKey := userKeyOf userId in
  let store1 := match store !! userKey with
                | Some _ => store
                | None => <[userKey := ∅]> store
                end in
  let userConversations := default ∅ (store1 !! userKey) in
  match givenId conversationId with
  | None =>
      if (maxConversationsPerUser config <=? Z.of_nat (size userConversations))%Z
      then (store1, Some (MaximumConversationsReached (maxConversationsPerUser config)))
      else (store1, None)
  | Some cid => (<[userKey := {[cid]} ∪ userConversations]> store1, None)
  end.

Definition commerceKeywords : list string :=
  [ "product"; "order"; "cart"; "buy"; "purchase"; "price"; "shipping";
    "delivery"; "return"; "category"; "promotion"; "discount"; "sale";
    "stock"; "available"; "camera"; "lens"; "webcam"; "electronics" ].

Section Patterns.

(** The tests against regular expressions, which have whitespace
    classes and word boundaries and ignore case by the rules of regular
    expressions: some pattern of [blockedPatterns] matches, some
    pattern of [injectionPatterns] matches, [greetingPatterns] matches,
    [questionPatterns] matches, some pattern of [offTopicPatterns]
    matches. *)
Variable matchesBlocked : string -> bool.
Variable detectPromptInjection : string -> bool.
Variable matchesGreeting : string -> bool.
Variable matchesQuestion : string -> bool.
Variable matchesOffTopic : string -> bool.

(** [String.prototype.toLowerCase] *)
Variable toLowerCase : string -> string.

Definition validateMessageContent (config : GuardrailConfig) (message : string) : Check :=
  if (maxMessageLength config <? Z.of_nat (strLength message))%Z
  then Some (ExceedsMaximumLength (maxMessageLength config))
  else if matchesBlocked message then Some ProhibitedContent
  else if detectPromptInjection message then Some PromptInjection
  else None.

Definition validateTopic (message : string) : Check :=
  let lowerMessage := toLowerCase message in
  let hasCommerceKeyword := existsb (includes lowerMessage) commerceKeywords in
  if hasCommerceKeyword || matchesGreeting message || matchesQuestion message
  then None
  else if matchesOffTopic message then Some OffTopic
  else None.

(** [req.body], as the middleware reads it. *)
Record Body := mkBody {
  message        : string;
  userId         : option string;
  conversationId : option string
}.

(** What the middleware does with the request: it calls [next()], or it
    answers with a status and an error. *)
Inductive Outcome :=
| Next
| Blocked (status : Z) (error : string) (reason : Reason).

(** The middleware that [createGuardrailMiddleware] returns, for the
    merged configuration [config]. *)
Definition guardrailMiddleware (config : GuardrailConfig) (now : Z) (body : Body)
           (stores : Stores) : Stores * Outcome :=
  match validateMessageContent config (message body) with
  | Some reason => (stores, Blocked 400 "Invalid message" reason)
  | None =>
      let '(rates, rateLimitCheck) :=
        checkRateLimit config now (userId body) (rateLimitStore stores) in
      match rateLimitCheck with
      | Some reason =>
          (mkStores rates (conversationStore stores),
           Blocked 429 "Rate limit exceeded" reason)
      | None =>
          let '(conversations, conversationCheck) :=
            checkConversationLimit config (userId body) (conversationId body)
                                   (conversationStore stores) in
          match conversationCheck with
          | Some reason =>
              (mkStores rates conversations,
               Blocked 429 "Conversation limit exceeded" reason)
          | None =>
              match validateTopic (message body) with
              | Some reason =>
                  (mkStores rates conversations,
                   Blocked 400 "Off-topic message" reason)
              | None => (mkStores rates conversations, Next)
              end
          end
      end
  end.

End Patterns.

Definition passes (check : Check) : bool :=
  match check with
  | None => true
  | Some _ => false
  end.

(** The requests of one user, at the given times, one after the other:
    whether each was allowed. *)
Fixpoint rateLimited (config : GuardrailConfig) (userId : option string)
         (times : list Z) (store : gmap string RateLimit)
  : gmap string RateLimit * list bool :=
  match times with
  | [] => (store, [])
  | now :: rest =>
      let '(store1, check) := checkRateLimit config now userId store in
      let '(store2, flags) := rateLimited config userId rest store1 in
      (store2, passes check :: flags)
  end.

(** The conversation checks of one user, one after the other. *)
Fixpoint conversationsChecked (config : GuardrailConfig) (userId : option string)
         (ids : list (option string)) (store : gmap string (gset string))
  : gmap string (gset string) :=
  match ids with
  | [] => store
  | cid :: rest =>
      conversationsChecked config userId rest
        (fst (checkConversationLimit config userId cid store))
  end.

End Guardrails.

(* ===================================================================== *)
(** ** Conversation manager of the bridge service *)
(* ===================================================================== *)

Module ConversationManager.
Import Js.
Local Open Scope string_scope.

Inductive Role := user | assistant.

Section WithContent.

(** The content of a message, a string or an array of blocks, is not
    looked at by the manager. *)
Context {Content : Type}.

(** [ChatMessage]; [mcpToolsUsed] is [metadata?.mcpToolsUsed]. *)
Record ChatMessage := mkChatMessage {
  m_id         : string;
  role         : Role;
  content      : Content;
  timestamp    : Z;
  mcpToolsUsed : option (list string)
}.

Record Conversation := mkConversation {
  c_id      : string;
  userId    : option string;
  messages  : list ChatMessage;
  createdAt : Z;
  updatedAt : Z
}.

(** [Map<string, Conversation>] in insertion order, which the sort of
    [cleanupOldConversations] observes. *)
Definition Conversations := list (string * Conversation).

Definition MAX_MESSAGES : Z := 50.
Definition MAX_CONVERSATIONS : Z := 1000.

Fixpoint map_get (key : string) (m : Conversations) : option Conversation :=
  match m with
  | [] => None
  | (k, c) :: rest => if String.eqb k key then Some c else map_get key rest
  end.

Fixpoint map_delete (key : string) (m : Conversations) : Conversations :=
  match m with
  | [] => []
  | (k, c) :: rest =>
      if String.eqb k key then map_delete key rest
      else (k, c) :: map_delete key rest
  end.

Fixpoint map_set (key : string) (c : Conversation) (m : Conversations) : Conversations :=
  match m with
  | [] => [(key, c)]
  | (k, c') :: rest =>
      if String.eqb k key then (k, c) :: rest
      else (k, c') :: map_set key c rest
  end.

(** [array.slice(start)] *)
Definition sliceFrom {A} (start : Z) (l : list A) : list A :=
  let len := Z.of_nat (length l) in
  skipn (Z.to_nat (if (start <? 0)%Z then Z.max (len + start) 0 else Z.min start len)) l.

(** [m.role === 'assistant' && m.metadata?.mcpToolsUsed?.includes('system')] *)
Definition isSystemMessage (m : ChatMessage) : bool :=
  match role m with
  | assistant =>
      match mcpToolsUsed m with
      | Some used => existsb (String.eqb "system") used
      | None => false
      end
  | user => false
  end.

(** The pruning at the end of [addMessage]. *)
Definition prune (all : list ChatMessage) : list ChatMessage :=
  if (MAX_MESSAGES <? Z.of_nat (length all))%Z then
    let systemMessages := List.filter isSystemMessage all in
    let recentMessages :=
      sliceFrom (- (MAX_MESSAGES - Z.of_nat (length systemMessages))) all in
    (systemMessages ++ recentMessages)%list
  else all.

Definition notFound (conversationId : string) : string :=
  "Conversation " ++ conversationId ++ " not found".

Definition addMessage (conversationId : string) (message : ChatMessage) (now : Z)
           (conversations : Conversations) : Result Conversations :=
  match map_get conversationId conversations with
  | None => Throw (notFound conversationId)
  | Some conversation =>
      Ok (map_set conversationId
            (mkConversation (c_id conversation) (userId conversation)
                            (prune (messages conversation ++ [message]))
                            (createdAt conversation) now)
            conversations)
  end.

Definition getConversation (conversationId : string) (conversations : Conversations)
  : option Conversation :=
  map_get conversationId conversations.

Definition getMessages (conversationId : string) (conversations : Conversations)
  : list ChatMessage :=
  match map_get conversationId conversations with
  | Some conversation => messages conversation
  | None => []
  end.

Definition clearConversation (conversationId : string) (now : Z)
           (conversations : Conversations) : Conversations :=
  match map_get conversationId conversations with
  | Some conversation =>
      map_set conversationId
        (mkConversation (c_id conversation) (userId conversation) []
                        (createdAt conversation) now)
        conversations
  | None => conversations
  end.

Definition deleteConversation (conversationId : string) (conversations : Conversations)
  : Conversations * bool :=
  (map_delete conversationId conversations,
   match map_get conversationId conversations with Some _ => true | None => false end).

(** [entries.sort((a, b) => a[1].updatedAt - b[1].updatedAt)]: the sort
    is stable, so entries updated at the same time keep their order;
    this is insertion from the right, an entry going before those that
    were not updated strictly earlier. *)
Fixpoint insertByUpdated (x : string * Conversation) (sorted : Conversations)
  : Conversations :=
  match sorted with
  | [] => [x]
  | y :: rest =>
      if (updatedAt (snd y) <? updatedAt (snd x))%Z
      then y :: insertByUpdated x rest
      else x :: sorted
  end.

Definition sortByUpdated (entries : Conversations) : Conversations :=
  fold_right insertByUpdated [] entries.

Definition cleanupOldConversations (conversations : Conversations) : Conversations :=
  if (Z.of_nat (length conversations) <=? MAX_CONVERSATIONS)%Z then conversations
  else
    let sorted := sortByUpdated conversations in
    let toRemove :=
      firstn (Z.to_nat (Z.of_nat (length conversations) - MAX_CONVERSATIONS)) sorted in
    fold_left (fun m entry => map_delete (fst entry) m) toRemove conversations.

(** [createConversation(userId)]; [newId] is the [uuidv4()], [created]
    and [updated] are the two [new Date()]. *)
Definition createConversation (newId : string) (forUser : option string)
           (created updated : Z) (conversations : Conversations)
  : Conversations * Conversation :=
  let conversation := mkConversation newId forUser [] created updated in
  (cleanupOldConversations (map_set newId conversation conversations), conversation).

Definition getStats (conversations : Conversations) : nat * nat :=
  (length conversations,
   fold_left (fun total entry => (total + length (messages (snd entry)))%nat)
             conversations 0%nat).

(** Keys of a [Map] are distinct. *)
Definition wf (conversations : Conversations) : Prop :=
  List.NoDup (map fst conversations).

(** The first of the entries that were updated earliest. *)
Fixpoint firstOldest (first : string * Conversation) (rest : Conversations)
  : string * Conversation :=
  match rest with
  | [] => first
  | y :: rest' =>
      let best := firstOldest y rest' in
      if (updatedAt (snd best) <? updatedAt (snd first))%Z then best else first
  end.

End WithContent.

Arguments ChatMessage : clear implicits.
Arguments Conversation : clear implicits.
Arguments Conversations : clear implicits.

End ConversationManager.

(* ===================================================================== *)
(** ** The commerce service of the MCP server: cached calls *)
(* ===================================================================== *)

Module CommerceService.
Import Js.
Local Open Scope Z_scope.

(** The cache of responses and the health monitor of the service. *)
Record t := mk {
  cache         : Cache.t Any;
  healthMonitor : HealthMonitor.t
}.

(** The constructor: a cache with a TTL of five minutes and a new
    monitor. *)
Definition create (now : Z) : t :=
  mk (Cache.create (5 * 60 * 1000) None) (HealthMonitor.create now).

(** What [operation()] does when it is awaited: the requests it
    completes, which the response interceptor records with their latency
    and whether they failed, and how it settles. *)
Record Operation (E : Type) := mkOperation {
  completed : list (Z * bool);
  settles   : Any + E
}.
Arguments completed {E} _.
Arguments settles {E} _.

Inductive Failure (E : Type) :=
| OperationFailed (e : E)
| CacheSetFailed.
Arguments OperationFailed {E} e.
Arguments CacheSetFailed {E}.

(** A call of [withCache]: the service afterwards, what the call
    returns or throws, and whether the operation was invoked. *)
Record Call (E : Type) := mkCall {
  after   : t;
  returns : Any + Failure E;
  invoked : bool
}.
Arguments after {E} _.
Arguments returns {E} _.
Arguments invoked {E} _.

(** The response interceptor. *)
Definition intercept (m : HealthMonitor.t) (request : Z * bool) : HealthMonitor.t :=
  HealthMonitor.recordRequestComplete (fst request) (snd request) m.

(** [if (cached)] *)
Definition usable (cached : option Any) : bool :=
  match cached with
  | Some v => truthy v
  | None => false
  end.

(** [withCache(cacheKey, operation)]; [now1] is the clock when the
    cache is read, [now2] the clock when it is written. *)
Definition withCache {E} (cacheKey : string) (operation : Operation E)
           (now1 now2 : Z) (s : t) : Call E :=
  let '(cached, cache1) := Cache.get cacheKey now1 (cache s) in
  if usable cached then
    mkCall E (mk cache1 (HealthMonitor.recordCacheAccess true (healthMonitor s)))
           (inl (default None cached)) false
  else
    let monitor1 := HealthMonitor.recordCacheAccess false (healthMonitor s) in
    let monitor2 := fold_left intercept (completed operation) monitor1 in
    match settles operation with
    | inr e => mkCall E (mk cache1 monitor2) (inr (OperationFailed e)) true
    | inl result =>
        match Cache.set cacheKey result now2 cache1 with
        | Some cache2 => mkCall E (mk cache2 monitor2) (inl result) true
        | None => mkCall E (mk cache1 monitor2) (inr CacheSetFailed) true
        end
    end.

End CommerceService.

(* ===================================================================== *)
(** ** The commerce client of the MCP server: the client token *)
(* ===================================================================== *)

Module SapCommerceClient.
Local Open Scope Z_scope.

Record AuthToken := mkAuthToken {
  access_token : string;
  expires_in   : Z
}.

(** The fields of the client that [getAuthToken] reads and writes. *)
Record t := mk {
  clientId     : option string;
  clientSecret : option string;
  retryConfig  : option Retry.PartialConfig;
  authToken    : option AuthToken
}.

(** [!s] for an optional string. *)
Definition missing (s : option string) : bool :=
  match s with
  | Some v => String.eqb v EmptyString
  | None => true
  end.

Definition bufferTime : Z := 5 * 60 * 1000.

(** [tokenExpiration > new Date().getTime()], where [tokenExpiration]
    is computed from an earlier reading [clock1] of the clock. *)
Definition stillValid (token : AuthToken) (clock1 clock2 : Z) : bool :=
  clock2 <? clock1 + expires_in token * 1000 - bufferTime.

(** Attempt [k] of the retried operation: [clocks k] are its two
    readings of the clock, [post k] is the answer to its token request,
    if it makes one. *)
Definition attempt (c : t) (clocks : nat -> Z * Z)
           (post : nat -> AuthToken + Retry.Error) (k : nat) : AuthToken + Retry.Error :=
  match authToken c with
  | Some token =>
      if stillValid token (fst (clocks k)) (snd (clocks k)) then inl token else post k
  | None => post k
  end.

(** Whether attempt [k] makes a token request. *)
Definition requests (c : t) (clocks : nat -> Z * Z) (k : nat) : bool :=
  match authToken c with
  | Some token => negb (stillValid token (fst (clocks k)) (snd (clocks k)))
  | None => true
  end.

Record Got := mkGot {
  client   : t;
  token    : option AuthToken;
  posts    : nat;
  attempts : nat
}.

(** [getAuthToken()]: the client afterwards, the token or [null], the
    number of token requests and of attempts made. *)
Definition getAuthToken (c : t) (clocks : nat -> Z * Z)
           (post : nat -> AuthToken + Retry.Error) : Got :=
  if missing (clientId c) || missing (clientSecret c) then mkGot c None 0 0
  else
    let run := Retry.withRetry (attempt c clocks post)
                               (default Retry.no_overrides (retryConfig c)) in
    let made := length (List.filter (requests c clocks) (seq 0 (Retry.calls run))) in
    match Retry.outcome run with
    | inl token =>
        mkGot (mk (clientId c) (clientSecret c) (retryConfig c) (Some token))
              (Some token) made (Retry.calls run)
    | inr _ => mkGot c None made (Retry.calls run)
    end.

End SapCommerceClient.

(* ===================================================================== *)
(** * Properties *)
(* ===================================================================== *)

(** ** Health monitor *)

Section HealthProperties.
Import HealthMonitor.

Lemma idle_rates (m : HealthMonitor.t) :
  idle m -> computeErrorRate m = 0%Q /\ computeCacheHitRate m = 1%Q.
Proof.
  intros (Hreq & Hhit & Hmiss).
  unfold computeErrorRate, computeCacheHitRate.
  rewrite Hreq, Hhit, Hmiss. split; reflexivity.
Qed.

(** C10.  A tick over a window with no request and no cache access
    computes the error rate 0 and the cache hit rate 1, and classifies
    the window as healthy: such a window is neither degraded nor
    unhealthy. *)
Theorem idle_window_is_healthy (now : Z) (m : HealthMonitor.t) :
  idle m ->
  computeErrorRate m = 0%Q /\
  computeCacheHitRate m = 1%Q /\
  errorRate (details (hstatus (checkHealth now m))) = Some 0%Q /\
  cacheHitRate (details (hstatus (checkHealth now m))) = Some 1%Q /\
  status (hstatus (checkHealth now m)) = healthy /\
  status (hstatus (checkHealth now m)) <> degraded /\
  status (hstatus (checkHealth now m)) <> unhealthy.
Proof.
  intros Hidle. destruct (idle_rates m Hidle) as [He Hc].
  unfold checkHealth; cbn [hstatus details status errorRate cacheHitRate].
  rewrite He, Hc.
  repeat split; try reflexivity; cbv; discriminate.
Qed.

Lemma idle_window_is_healthy_witness :
  idle (checkHealth 60000 (recordRequestComplete 12 true (create 0))) /\
  status (hstatus (checkHealth 120000
                     (checkHealth 60000 (recordRequestComplete 12 true (create 0)))))
  = healthy.
Proof.
  split.
  - repeat split.
  - apply (idle_window_is_healthy 120000
             (checkHealth 60000 (recordRequestComplete 12 true (create 0)))).
    repeat split.
Defined.

End HealthProperties.

(** ** Retry *)

Section RetryProperties.
Import Retry.
Local Open Scope Z_scope.

Context {T : Type}.

Lemma backoff_length cfg d n : length (backoff cfg d n) = n.
Proof. revert d. induction n; intros; simpl; auto. Qed.

(** From attempt [a] on, with the failures up to [N] still ahead and
    fuel left for attempt [N], the loop ends in the success of attempt
    [N]. *)
Lemma retryLoop_succeeds (cfg : RetryConfig) (op : @Operation T) (N : nat) (v : T) :
  failsThenSucceeds op N v ->
  Z.of_nat N <= maxRetries cfg ->
  forall (k a : nat) (fuel : nat) (d : Z) (w : list Z),
    (a + k = N)%nat -> (k < fuel)%nat ->
    retryLoop cfg op fuel a d w = mkRun (inl v) (w ++ backoff cfg d k) (S N).
Proof.
  intros [Hfail Hok] Hmax.
  induction k as [|k IH]; intros a fuel d w Ha Hfuel.
  - destruct fuel as [|fuel]; [lia|].
    assert (a = N) by lia. subst a.
    simpl. rewrite Hok. rewrite app_nil_r. reflexivity.
  - destruct fuel as [|fuel]; [lia|].
    simpl. destruct (Hfail a) as [e He]; [lia|]. rewrite He.
    destruct (Z.eqb_spec (Z.of_nat a) (maxRetries cfg)) as [Heq|Hne]; [lia|].
    rewrite (IH (S a) fuel); [|lia|lia].
    rewrite <- app_assoc. reflexivity.
Qed.

Lemma backoff_bounded cfg d n :
  d <= maxDelay cfg -> Forall (fun x => x <= maxDelay cfg) (backoff cfg d n).
Proof.
  revert d. induction n as [|n IH]; intros d Hd; simpl; constructor; auto.
  apply IH. lia.
Qed.

Lemma backoff_nondecreasing cfg d n :
  0 <= d <= maxDelay cfg -> 1 <= backoffFactor cfg ->
  nondecreasing (backoff cfg d n).
Proof.
  intros Hd Hf. revert d Hd. induction n as [|n IH]; intros d Hd; simpl; auto.
  destruct n as [|n]; simpl; auto.
  split.
  - apply Z.min_glb; [nia|lia].
  - apply (IH (Z.min (d * backoffFactor cfg) (maxDelay cfg))).
    split; [apply Z.min_glb; nia | apply Z.le_min_r].
Qed.

(** C8, as the code has it.  An operation that fails on its first [N]
    attempts and succeeds on attempt [N+1], with [N] at most the
    configured number of retries, makes [withRetry] return the success
    value after [N] waits; when the policy has
    [0 <= initialDelay <= maxDelay] and [backoffFactor >= 1], the delays
    waited are non-decreasing and none exceeds [maxDelay]. *)
Theorem withRetry_recovers (op : @Operation T) (config : PartialConfig)
        (N : nat) (v : T) :
  failsThenSucceeds op N v ->
  Z.of_nat N <= maxRetries (finalConfig config) ->
  let cfg := finalConfig config in
  let r := withRetry op config in
  outcome r = inl v /\
  calls r = S N /\
  length (delays r) = N /\
  (0 <= initialDelay cfg <= maxDelay cfg -> 1 <= backoffFactor cfg ->
   nondecreasing (delays r) /\ Forall (fun d => d <= maxDelay cfg) (delays r)).
Proof.
  intros Hop Hmax cfg r.
  assert (Hrun : r = mkRun (inl v) (backoff cfg (initialDelay cfg) N) (S N)).
  { unfold r, withRetry. fold cfg.
    rewrite (retryLoop_succeeds cfg op N v Hop Hmax N 0); [reflexivity|lia|].
    unfold cfg. lia. }
  rewrite Hrun; cbn [outcome calls delays].
  repeat split; auto using backoff_length.
  - apply backoff_nondecreasing; assumption.
  - apply backoff_bounded; lia.
Qed.

End RetryProperties.

Lemma flaky_fails {T} status n (v : T) :
  Retry.failsThenSucceeds (Retry.flaky status n v) n v.
Proof.
  split.
  - intros k Hk. exists (Retry.AxiosError (Some status)).
    unfold Retry.flaky. destruct (Nat.ltb_spec k n); [reflexivity|lia].
  - unfold Retry.flaky. rewrite Nat.ltb_irrefl. reflexivity.
Qed.

Lemma withRetry_recovers_witness :
  let r := Retry.withRetry (Retry.flaky 503 2 "ok"%string) Retry.no_overrides in
  Retry.outcome r = inl "ok"%string /\
  Retry.nondecreasing (Retry.delays r) /\
  Forall (fun d => d <= 5000)%Z (Retry.delays r).
Proof.
  destruct (withRetry_recovers (Retry.flaky 503 2 "ok"%string) Retry.no_overrides
              2 "ok"%string (flaky_fails 503 2 "ok"%string))
    as (Hout & _ & _ & Hdelays).
  - vm_compute. discriminate.
  - destruct Hdelays as [Hmono Hcap].
    + vm_compute. split; discriminate.
    + vm_compute. discriminate.
    + exact (conj Hout (conj Hmono Hcap)).
Defined.

(** C8, as stated, fails: with [initialDelay] 10000 above [maxDelay]
    5000, two failures with status 503 and then a success give the
    delays 10000 and 5000, which decrease, and the first of which exceeds
    [maxDelay]. *)
Lemma withRetry_delays_counterexample :
  let config := Retry.mkPartial None (Some 10000%Z) (Some 5000%Z) None None in
  let r := Retry.withRetry (Retry.flaky 503 2 "ok"%string) config in
  (2 <= Retry.maxRetries (Retry.finalConfig config))%Z /\
  Retry.outcome r = inl "ok"%string /\
  Retry.delays r = [10000; 5000]%Z /\
  ~ Retry.nondecreasing (Retry.delays r) /\
  ~ Forall (fun d => (d <= Retry.maxDelay (Retry.finalConfig config))%Z) (Retry.delays r).
Proof.
  cbv zeta. split; [vm_compute; discriminate|].
  split; [reflexivity|]. split; [reflexivity|]. split.
  - vm_compute. intros [H _]. apply H. reflexivity.
  - intros H. apply Forall_inv in H. vm_compute in H. apply H. reflexivity.
Qed.

(** Whatever the first rejection is, the wrapper waits [initialDelay]
    and calls the operation again when the policy allows a retry. *)
Lemma withRetry_retries_any_failure {T} (op : @Retry.Operation T)
      (config : Retry.PartialConfig) (e : Retry.Error) :
  op 0%nat = inr e ->
  (1 <= Retry.maxRetries (Retry.finalConfig config))%Z ->
  (exists rest, Retry.delays (Retry.withRetry op config)
                = Retry.initialDelay (Retry.finalConfig config) :: rest) /\
  (2 <= Retry.calls (Retry.withRetry op config))%nat.
Proof.
  intros Hfail Hmax. unfold Retry.withRetry.
  set (cfg := Retry.finalConfig config) in *.
  destruct (Z.to_nat (Retry.maxRetries cfg + 1)) as [|[|fuel]] eqn:Hfuel; try lia.
  cbn [Retry.retryLoop]. rewrite Hfail.
  destruct (Z.eqb_spec (Z.of_nat 0) (Retry.maxRetries cfg)) as [Heq|_]; [lia|].
  cbn [app].
  assert (Hgen : forall fuel' a d w,
             (exists rest, Retry.delays (Retry.retryLoop cfg op fuel' a d w) = (w ++ rest)%list) /\
             (a <= Retry.calls (Retry.retryLoop cfg op fuel' a d w))%nat).
  { induction fuel' as [|fuel' IH]; intros a d w; cbn [Retry.retryLoop].
    - split; [exists []; rewrite app_nil_r; reflexivity|cbn; lia].
    - destruct (op a); [split; [exists []; rewrite app_nil_r; reflexivity|cbn; lia]|].
      destruct (Z.of_nat a =? Retry.maxRetries cfg)%Z.
      + split; [exists []; rewrite app_nil_r; reflexivity|cbn; lia].
      + destruct (IH (S a) (Z.min (d * Retry.backoffFactor cfg) (Retry.maxDelay cfg))
                     (w ++ [d])%list) as [[rest Hrest] Hcalls].
        split; [|lia]. exists (d :: rest). rewrite Hrest, <- app_assoc. reflexivity. }
  cbn [Retry.retryLoop].
  destruct (op 1%nat); [split; [exists []; reflexivity|cbn; lia]|].
  destruct (Z.of_nat 1 =? Retry.maxRetries cfg)%Z; [split; [exists []; reflexivity|cbn; lia]|].
  match goal with
  | |- context [Retry.retryLoop cfg op fuel 2%nat ?d ?w] =>
      destruct (Hgen fuel 2%nat d w) as [[rest Hrest] Hcalls]
  end.
  split; [|exact Hcalls]. rewrite Hrest. cbn [app]. eauto.
Qed.

(** C4.  The wrapper never looks at the kind of failure: an operation
    that is always rejected with status 404, which is not a retryable
    status, is called three times under the default policy, with waits of
    1000 and 2000 ms in between, and what is thrown in the end is the
    wrapper's own error around the last rejection. *)
Theorem withRetry_retries_non_retryable :
  let op : @Retry.Operation unit := fun _ => inr (Retry.AxiosError (Some 404%Z)) in
  Retry.isRetryableError (Retry.AxiosError (Some 404%Z)) = false /\
  Retry.retryableUnder Retry.DEFAULT_RETRY_CONFIG (Retry.AxiosError (Some 404%Z)) = false /\
  Retry.withRetry op Retry.no_overrides
  = Retry.mkRun (inr (Retry.OperationFailedAfter 3 (Retry.AxiosError (Some 404%Z))))
                [1000; 2000]%Z 3.
Proof. repeat split. Qed.

(** ** Cache *)

Section CacheProperties.
Import Cache.
Local Open Scope Z_scope.

Context {T : Type}.
Implicit Types (m : JsMap T) (e : CacheEntry T) (c : Cache.t T).

Lemma map_get_set_eq key e m : map_get key (map_set key e m) = Some e.
Proof.
  induction m as [|[k e'] m IH]; simpl.
  - rewrite String.eqb_refl. reflexivity.
  - destruct (String.eqb_spec k key) as [->|Hne]; simpl.
    + rewrite String.eqb_refl. reflexivity.
    + destruct (String.eqb_spec k key); [contradiction|exact IH].
Qed.

Lemma map_get_set_ne key k' e m :
  k' <> key -> map_get k' (map_set key e m) = map_get k' m.
Proof.
  intros Hne. induction m as [|[k e'] m IH]; simpl.
  - destruct (String.eqb_spec key k'); [congruence|reflexivity].
  - destruct (String.eqb_spec k key) as [->|Hk]; simpl.
    + destruct (String.eqb_spec key k'); [congruence|reflexivity].
    + destruct (String.eqb_spec k k'); [reflexivity|exact IH].
Qed.

Lemma map_get_delete_eq key m : map_get key (map_delete key m) = None.
Proof.
  induction m as [|[k e] m IH]; simpl; [reflexivity|].
  destruct (String.eqb_spec k key) as [->|Hne]; simpl; [exact IH|].
  destruct (String.eqb_spec k key); [contradiction|exact IH].
Qed.

Lemma map_get_delete_ne key k' m :
  k' <> key -> map_get k' (map_delete key m) = map_get k' m.
Proof.
  intros Hne. induction m as [|[k e] m IH]; simpl; [reflexivity|].
  destruct (String.eqb_spec k key) as [->|Hk]; simpl.
  - destruct (String.eqb_spec key k'); [congruence|exact IH].
  - destruct (String.eqb_spec k k'); [reflexivity|exact IH].
Qed.

Lemma map_get_None_notin key m :
  map_get key m = None -> ~ In key (map fst m).
Proof.
  induction m as [|[k e] m IH]; simpl; [tauto|].
  destruct (String.eqb_spec k key); [discriminate|].
  intros H [Hk|Hin]; [contradiction|exact (IH H Hin)].
Qed.

Lemma map_set_fresh key e m :
  map_get key m = None -> map_set key e m = (m ++ [(key, e)])%list.
Proof.
  induction m as [|[k e'] m IH]; simpl; [reflexivity|].
  destruct (String.eqb_spec k key); [discriminate|].
  intros H. rewrite (IH H). reflexivity.
Qed.

Lemma map_delete_notin key m :
  ~ In key (map fst m) -> map_delete key m = m.
Proof.
  induction m as [|[k e] m IH]; simpl; [reflexivity|].
  intros Hnotin. destruct (String.eqb_spec k key) as [->|Hne]; [tauto|].
  rewrite IH; [reflexivity|tauto].
Qed.

Lemma map_delete_length key e m :
  List.NoDup (map fst m) -> In (key, e) m ->
  S (length (map_delete key m)) = length m.
Proof.
  induction m as [|[k e'] m IH]; simpl; [tauto|].
  intros Hnd Hin. apply NoDup_cons_iff in Hnd as [Hk Hnd].
  destruct (String.eqb_spec k key) as [->|Hne].
  - rewrite map_delete_notin; [reflexivity|exact Hk].
  - destruct Hin as [Heq|Hin]; [congruence|].
    simpl. rewrite (IH Hnd Hin). reflexivity.
Qed.

(** What [reduce] returns is an entry of the array, and none expires
    earlier. *)
Lemma fold_older_spec (rest : JsMap T) (first : string * CacheEntry T) :
  let oldest := fold_left older rest first in
  In oldest (first :: rest) /\
  forall x, In x (first :: rest) -> expiresAt (snd oldest) <= expiresAt (snd x).
Proof.
  revert first. induction rest as [|y rest IH]; intros first; simpl.
  - split; [left; reflexivity|]. intros x [<-|[]]. lia.
  - specialize (IH (older first y)). simpl in IH. destruct IH as [Hin Hmin].
    assert (Hold : (older first y = first \/ older first y = y) /\
                   expiresAt (snd (older first y)) <= expiresAt (snd first) /\
                   expiresAt (snd (older first y)) <= expiresAt (snd y)).
    { unfold older. destruct (Z.ltb_spec (expiresAt (snd y)) (expiresAt (snd first)));
        (split; [tauto|lia]). }
    destruct Hold as (Hcase & Hf & Hy). split.
    + destruct Hin as [Heq|Hin]; [|right; right; exact Hin].
      rewrite <- Heq. destruct Hcase as [->| ->]; [left|right; left]; reflexivity.
    + intros x [<-|[<-|Hx]].
      * etransitivity; [apply Hmin; left; reflexivity|exact Hf].
      * etransitivity; [apply Hmin; left; reflexivity|exact Hy].
      * apply Hmin. right. exact Hx.
Qed.

Lemma set_shape key v now c c' :
  Cache.set key v now c = Some c' ->
  config c' = config c /\
  exists m, cache c' = map_set key (mkEntry v (now + ttl (config c))) m.
Proof.
  unfold Cache.set.
  destruct (maxSize (config c) <=? Z.of_nat (length (cache c))).
  - destruct (oldestEntry (cache c)); [|discriminate].
    intros [= <-]. simpl. eauto.
  - intros [= <-]. simpl. eauto.
Qed.

(** C6, as the code has it.  After [set] stored [v] under [key] at time
    [now] with time-to-live [ttl], a [get] of [key] at time [now + t]
    returns [v] and leaves the cache as it is when [t <= ttl], and
    reports a miss and deletes the entry when [t > ttl]. *)
Theorem get_after_set key v now c c' (t : Z) :
  Cache.set key v now c = Some c' ->
  (t <= ttl (config c) -> Cache.get key (now + t) c' = (Some v, c')) /\
  (ttl (config c) < t ->
   Cache.get key (now + t) c'
   = (None, Cache.mk (map_delete key (cache c')) (config c')) /\
   map_get key (map_delete key (cache c')) = None).
Proof.
  intros Hset. destruct (set_shape _ _ _ _ _ Hset) as [Hcfg [m Hm]].
  unfold Cache.get. rewrite Hm, map_get_set_eq. cbn [expiresAt value].
  split; intros Ht.
  - destruct (Z.ltb_spec (now + ttl (config c)) (now + t)); [lia|reflexivity].
  - destruct (Z.ltb_spec (now + ttl (config c)) (now + t)); [|lia].
    split; [reflexivity|apply map_get_delete_eq].
Qed.

(** C7.  A [set] of a fresh key into a full cache evicts one entry,
    whose expiry no other entry precedes, keeps every other entry as it
    was, and puts the new entry last: the cache afterwards is the old
    one without the evicted key, followed by the new entry. *)
Theorem set_full_evicts_earliest key v now c :
  wf c -> full c -> map_get key (cache c) = None ->
  exists k0 e0 c',
    Cache.set key v now c = Some c' /\
    In (k0, e0) (cache c) /\
    (forall k e, In (k, e) (cache c) -> expiresAt e0 <= expiresAt e) /\
    k0 <> key /\
    map_get k0 (cache c') = None /\
    (forall k, k <> k0 -> k <> key -> map_get k (cache c') = map_get k (cache c)) /\
    map_get key (cache c') = Some (mkEntry v (now + ttl (config c))) /\
    cache c' = (map_delete k0 (cache c) ++ [(key, mkEntry v (now + ttl (config c)))])%list /\
    length (cache c') = length (cache c).
Proof.
  intros Hwf [Hne Hfull] Hfresh.
  unfold Cache.set.
  destruct (Z.leb_spec (maxSize (config c)) (Z.of_nat (length (cache c)))); [|lia].
  destruct (cache c) as [|first rest] eqn:Hc; [congruence|].
  cbn [oldestEntry].
  destruct (fold_older_spec rest first) as [Hin Hmin].
  set (oldest := fold_left older rest first) in *.
  destruct oldest as [k0 e0] eqn:Hold. cbn [fst snd] in *.
  assert (Hk0 : k0 <> key).
  { intros ->. apply (map_get_None_notin _ _ Hfresh).
    apply (in_map fst) in Hin. exact Hin. }
  assert (Hfresh' : map_get key (map_delete k0 (first :: rest)) = None).
  { rewrite map_get_delete_ne by congruence. exact Hfresh. }
  eexists k0, e0, _. split; [reflexivity|]. cbn [cache config].
  split; [exact Hin|].
  split; [intros k e Hke; apply (Hmin (k, e) Hke)|].
  split; [exact Hk0|].
  split; [rewrite map_get_set_ne by congruence; apply map_get_delete_eq|].
  split; [intros k Hk1 Hk2; rewrite map_get_set_ne by congruence;
          apply map_get_delete_ne; congruence|].
  split; [apply map_get_set_eq|].
  split; [apply map_set_fresh; exact Hfresh'|].
  unfold wf in Hwf. rewrite Hc in Hwf.
  pose proof (map_delete_length k0 e0 (first :: rest) Hwf Hin) as Hlen.
  rewrite (map_set_fresh _ _ _ Hfresh'), length_app.
  change (length [(key, mkEntry v (now + ttl (config c)))]) with 1%nat.
  lia.
Qed.

(** [set] and [get] keep the keys distinct, and [set] throws only on an
    empty cache whose capacity is not positive. *)
Lemma map_delete_keys key m k :
  In k (map fst (map_delete key m)) -> In k (map fst m).
Proof.
  induction m as [|[k1 e1] m IH]; simpl; [tauto|].
  destruct (String.eqb_spec k1 key); simpl; tauto.
Qed.

Lemma map_delete_NoDup key m : List.NoDup (map fst m) -> List.NoDup (map fst (map_delete key m)).
Proof.
  induction m as [|[k e] m IH]; simpl; [auto|].
  intros Hnd. apply NoDup_cons_iff in Hnd as [Hk Hnd].
  destruct (String.eqb_spec k key); [auto|].
  simpl. apply NoDup_cons_iff. split; [|auto].
  intros Hin. apply Hk. eapply map_delete_keys. exact Hin.
Qed.

Lemma map_set_keys key e m k :
  In k (map fst (map_set key e m)) -> k = key \/ In k (map fst m).
Proof.
  induction m as [|[k1 e1] m IH]; simpl; [intuition|].
  destruct (String.eqb_spec k1 key); simpl; intuition.
Qed.

Lemma map_set_NoDup key e m : List.NoDup (map fst m) -> List.NoDup (map fst (map_set key e m)).
Proof.
  induction m as [|[k e'] m IH]; simpl.
  - intros _. repeat constructor. simpl. tauto.
  - intros Hnd. pose proof Hnd as Hnd0. apply NoDup_cons_iff in Hnd as [Hk Hnd].
    destruct (String.eqb_spec k key) as [->|Hne]; [exact Hnd0|].
    simpl. apply NoDup_cons_iff. split; [|auto].
    intros Hin. apply map_set_keys in Hin as [->|Hin]; [congruence|contradiction].
Qed.

Lemma set_wf key v now c c' : wf c -> Cache.set key v now c = Some c' -> wf c'.
Proof.
  unfold wf, Cache.set. intros Hwf.
  destruct (maxSize (config c) <=? Z.of_nat (length (cache c))).
  - destruct (oldestEntry (cache c)); [|discriminate].
    intros [= <-]. simpl. apply map_set_NoDup, map_delete_NoDup, Hwf.
  - intros [= <-]. simpl. apply map_set_NoDup, Hwf.
Qed.

Lemma set_succeeds key v now c :
  0 < maxSize (config c) \/ cache c <> [] -> exists c', Cache.set key v now c = Some c'.
Proof.
  intros H. unfold Cache.set.
  destruct (Z.leb_spec (maxSize (config c)) (Z.of_nat (length (cache c)))); [|eauto].
  destruct (cache c) as [|first rest]; simpl in *; [|eauto].
  destruct H; [lia|congruence].
Qed.

End CacheProperties.

(** A cache of capacity two, filled at times 0 and 5. *)
Lemma get_after_set_witness :
  exists c',
    Cache.set "a" 1%Z 0 (Cache.create 1000 (Some 2%Z)) = Some c' /\
    Cache.get "a" 1000 c' = (Some 1%Z, c') /\
    fst (Cache.get "a" 1001 c') = None.
Proof.
  eexists. split; [reflexivity|].
  split.
  - apply (get_after_set "a" 1%Z 0 (Cache.create 1000 (Some 2%Z)) _ 1000 eq_refl).
    vm_compute. discriminate.
  - destruct (get_after_set "a" 1%Z 0 (Cache.create 1000 (Some 2%Z)) _ 1001 eq_refl)
      as [_ Hmiss].
    destruct Hmiss as [Hget _]; [reflexivity|].
    exact (f_equal fst Hget).
Defined.

(** C6, as stated, fails at the boundary: a value stored at time 0 with
    time-to-live 1000 is still returned by a [get] at time 1000. *)
Lemma get_at_ttl_counterexample :
  exists c',
    Cache.set "a" 1%Z 0 (Cache.create 1000 None) = Some c' /\
    fst (Cache.get "a" (0 + 1000) c') = Some 1%Z /\
    fst (Cache.get "a" (0 + 1000) c') <> None /\
    snd (Cache.get "a" (0 + 1000) c') = c'.
Proof.
  eexists. split; [reflexivity|]. vm_compute. repeat split; discriminate.
Qed.

Lemma set_full_evicts_earliest_witness :
  exists c,
    Cache.set "a" 1%Z 0 (Cache.create 1000 (Some 2%Z)) = Some c /\
    exists c1,
      Cache.set "b" 2%Z 5 c = Some c1 /\
      Cache.wf c1 /\ Cache.full c1 /\
      exists c2,
        Cache.set "c" 3%Z 7 c1 = Some c2 /\
        Cache.getKeys c2 = ["b"; "c"]%string.
Proof.
  eexists. split; [reflexivity|].
  eexists. split; [reflexivity|].
  assert (Hwf : Cache.wf (Cache.mk [("a", Cache.mkEntry 1%Z 1000); ("b", Cache.mkEntry 2%Z 1005)]%string
                                   (Cache.mkConfig 1000 2))).
  { unfold Cache.wf. simpl. repeat constructor; simpl; intuition discriminate. }
  assert (Hfull : Cache.full (Cache.mk [("a", Cache.mkEntry 1%Z 1000); ("b", Cache.mkEntry 2%Z 1005)]%string
                                       (Cache.mkConfig 1000 2))).
  { split; [discriminate|vm_compute; discriminate]. }
  split; [exact Hwf|]. split; [exact Hfull|].
  destruct (set_full_evicts_earliest "c" 3%Z 7 _ Hwf Hfull eq_refl)
    as (k0 & e0 & c2 & Hset & _).
  exists c2. split; [exact Hset|].
  vm_compute in Hset. injection Hset as <-. reflexivity.
Defined.

(** ** Fuzzy correction of the delivery mode code *)

Section FixDeliveryModeCode.
Import Js ChatService Props.
Local Open Scope string_scope.

(** *** Prefixes, substrings and the token *)

Lemma append_cons (c : ascii) (s t : string) : String c s ++ t = String c (s ++ t).
Proof. reflexivity. Qed.

Lemma append_empty (t : string) : EmptyString ++ t = t.
Proof. reflexivity. Qed.

Lemma startsWith_spec (s p : string) : startsWith s p = true <-> isPrefixOf p s.
Proof.
  unfold startsWith, isPrefixOf. revert s.
  induction p as [|c p IH]; intros s.
  - split; [intros _; exists s; reflexivity|intros _; destruct s; reflexivity].
  - destruct s as [|d s]; [split; [discriminate|intros [rest [=]]]|].
    cbn [String.prefix].
    destruct (Ascii.ascii_dec c d) as [->|Hne].
    + rewrite IH. split.
      * intros [rest ->]. exists rest. reflexivity.
      * intros [rest Heq]. rewrite append_cons in Heq. injection Heq as ->.
        exists rest. reflexivity.
    + split; [discriminate|]. intros [rest Heq]. rewrite append_cons in Heq.
      injection Heq as <- _. contradiction.
Qed.

Lemma includes_prefix (s p : string) : String.prefix p s = true -> includes s p = true.
Proof. destruct s; cbn [includes]; intros ->; reflexivity. Qed.

Lemma includes_spec (s p : string) : includes s p = true <-> occursIn p s.
Proof.
  unfold occursIn. split.
  - induction s as [|d s IH].
    + cbn [includes]. rewrite orb_false_r. intros H.
      apply (startsWith_spec EmptyString p) in H as [rest ->].
      exists EmptyString, rest. reflexivity.
    + cbn [includes]. intros H. apply orb_true_iff in H as [H|H].
      * apply (startsWith_spec (String d s) p) in H as [rest ->].
        exists EmptyString, rest. reflexivity.
      * destruct (IH H) as (before & after & ->).
        exists (String d before), after. reflexivity.
  - intros (before & after & ->). induction before as [|d before IH].
    + rewrite append_empty. apply includes_prefix.
      apply (startsWith_spec (p ++ after) p). exists after. reflexivity.
    + rewrite append_cons. cbn [includes]. rewrite IH. apply orb_true_r.
Qed.

Lemma beforeFirst_token (token rest : string) :
  (forall before after, token <> before ++ "-" ++ after) ->
  beforeFirst "-" token = token /\ beforeFirst "-" (token ++ "-" ++ rest) = token.
Proof.
  induction token as [|c token IH]; intros Hfree.
  - split; reflexivity.
  - assert (Hc : Ascii.eqb c "-" = false).
    { destruct (Ascii.eqb_spec c "-") as [->|]; [|reflexivity].
      exfalso. apply (Hfree EmptyString token). reflexivity. }
    destruct IH as [IH1 IH2].
    + intros before after Heq. apply (Hfree (String c before) after).
      rewrite Heq. reflexivity.
    + rewrite append_cons. cbn [beforeFirst]. rewrite Hc, IH1, IH2.
      split; reflexivity.
Qed.

Lemma beforeFirst_unique (s token : string) :
  tokenOf s token -> beforeFirst "-" s = token.
Proof.
  intros [Hfree [->|[rest ->]]].
  - apply (beforeFirst_token token EmptyString Hfree).
  - apply (beforeFirst_token token rest Hfree).
Qed.

Lemma beforeFirst_tokenOf (s : string) : tokenOf s (beforeFirst "-" s).
Proof.
  induction s as [|c s [Hfree Hs]].
  - split; [|left; reflexivity].
    intros [|d before] after; discriminate.
  - cbn [beforeFirst]. destruct (Ascii.eqb_spec c "-") as [->|Hne].
    + split; [intros [|d before] after; discriminate|].
      right. exists s. reflexivity.
    + split.
      * intros [|d before] after Heq.
        -- rewrite append_empty in Heq. injection Heq as Hc _. congruence.
        -- rewrite append_cons in Heq. injection Heq as _ Hrest.
           exact (Hfree before after Hrest).
      * destruct Hs as [Hs|[rest Hs]].
        -- left. rewrite <- Hs. reflexivity.
        -- right. exists rest. rewrite append_cons, <- Hs. reflexivity.
Qed.

(** *** The searches *)

Variable toLowerCase : string -> string.

Local Abbreviation fuzzyPred := (ChatService.fuzzyPred toLowerCase).
Local Abbreviation fuzzyCode := (ChatService.fuzzyCode toLowerCase).
Local Abbreviation fixDeliveryModeCode := (ChatService.fixDeliveryModeCode toLowerCase).
Local Abbreviation matches := (Props.matches toLowerCase).
Local Abbreviation differs := (Props.differs toLowerCase).
Local Abbreviation nameless := (Props.nameless toLowerCase).

Lemma prop_code (m : Json) (c : string) :
  codeOf m = Some c -> prop "code" (Some m) = Ok (Some (JStr c)).
Proof.
  unfold codeOf, prop. destruct m; simpl; try discriminate.
  destruct (assoc "code" fields) as [[]|]; try discriminate.
  intros [= ->]. reflexivity.
Qed.

Lemma prop_name (m : Json) (n : string) :
  nameOf m = Some n -> prop "name" (Some m) = Ok (Some (JStr n)).
Proof.
  unfold nameOf, prop. destruct m; simpl; try discriminate.
  destruct (assoc "name" fields) as [[]|]; try discriminate.
  intros [= ->]. reflexivity.
Qed.

Lemma codeOf_truthy (m : Json) (c : string) : codeOf m = Some c -> truthy (Some m) = true.
Proof. unfold codeOf. destruct m; cbn; try discriminate. reflexivity. Qed.

Lemma exactPred_code (req : string) (m : Json) (c : string) :
  codeOf m = Some c -> exactPred (Some (JStr req)) m = Ok (String.eqb c req).
Proof. intros H. unfold exactPred. rewrite (prop_code m c H). reflexivity. Qed.

Lemma not_true_false (b : bool) (P : Prop) : (b = true <-> P) -> ~ P -> b = false.
Proof. intros H Hn. destruct b; [exfalso; apply Hn, H; reflexivity|reflexivity]. Qed.

Lemma fuzzyPred_matches (token : string) (m : Json) :
  matches token m -> fuzzyPred token m = Ok true.
Proof.
  intros (c & Hc & Hm). unfold ChatService.fuzzyPred. rewrite (prop_code m c Hc).
  cbn [bindR anyToLowerCase].
  destruct (startsWith (toLowerCase c) token) eqn:Hs; [reflexivity|].
  destruct Hm as [Hm|(n & Hn & Hi)].
  - apply startsWith_spec in Hm. congruence.
  - rewrite (prop_name m n Hn). cbn [bindR anyToLowerCase].
    apply includes_spec in Hi. rewrite Hi. reflexivity.
Qed.

Lemma fuzzyPred_differs (token : string) (m : Json) :
  differs token m -> fuzzyPred token m = Ok false.
Proof.
  intros (c & n & Hc & Hn & Hs & Hi). unfold ChatService.fuzzyPred.
  rewrite (prop_code m c Hc). cbn [bindR anyToLowerCase].
  rewrite (not_true_false _ _ (startsWith_spec _ _) Hs).
  rewrite (prop_name m n Hn). cbn [bindR anyToLowerCase].
  rewrite (not_true_false _ _ (includes_spec _ _) Hi). reflexivity.
Qed.

(** The fuzzy search reads the name of a mode whose code does not
    match; when the mode has none, that throws. *)
Lemma fuzzyPred_nameless (token : string) (m : Json) :
  nameless token m -> fuzzyPred token m = Throw TypeError.
Proof.
  intros (c & Hc & Hn & Hs). unfold ChatService.fuzzyPred.
  rewrite (prop_code m c Hc). cbn [bindR anyToLowerCase].
  rewrite (not_true_false _ _ (startsWith_spec _ _) Hs).
  unfold codeOf, nameOf in *. destruct m; cbn in Hc; try discriminate.
  cbn [prop optProp bindR] in *.
  destruct (assoc "name" fields) as [[]|]; try reflexivity. discriminate.
Qed.

Lemma findM_first {A} (p : A -> Result bool) (l1 : list A) (x : A) (l2 : list A) :
  Forall (fun y => p y = Ok false) l1 -> p x = Ok true ->
  findM p (l1 ++ x :: l2) = Ok (Some x).
Proof.
  intros Hl1 Hx. induction Hl1 as [|y l1 Hy _ IH]; simpl.
  - rewrite Hx. reflexivity.
  - rewrite Hy. exact IH.
Qed.

Lemma findM_throws {A} (p : A -> Result bool) (l1 : list A) (x : A) (l2 : list A)
      (msg : string) :
  Forall (fun y => p y = Ok false) l1 -> p x = Throw msg ->
  findM p (l1 ++ x :: l2) = Throw msg.
Proof.
  intros Hl1 Hx. induction Hl1 as [|y l1 Hy _ IH]; simpl.
  - rewrite Hx. reflexivity.
  - rewrite Hy. exact IH.
Qed.

Lemma findM_none {A} (p : A -> Result bool) (l : list A) :
  Forall (fun y => p y = Ok false) l -> findM p l = Ok None.
Proof.
  intros Hl. induction Hl as [|y l Hy _ IH]; simpl; [reflexivity|].
  rewrite Hy. exact IH.
Qed.

Lemma findM_exact_found (req : string) (ms : list Json) :
  Forall (fun m => codeOf m <> None) ms ->
  (exists m, In m ms /\ codeOf m = Some req) ->
  exists m, findM (exactPred (Some (JStr req))) ms = Ok (Some m) /\
            truthy (Some m) = true.
Proof.
  intros Hcodes. induction Hcodes as [|m ms Hm _ IH]; intros (m0 & Hin & Hm0).
  - destruct Hin.
  - simpl. destruct (codeOf m) as [c|] eqn:Hc; [|congruence].
    rewrite (exactPred_code req m c Hc).
    destruct (String.eqb_spec c req) as [->|Hne].
    + exists m. split; [reflexivity|exact (codeOf_truthy m req Hc)].
    + apply IH. destruct Hin as [->|Hin]; [congruence|eauto].
Qed.

Lemma findM_exact_none (req : string) (ms : list Json) :
  Forall (fun m => codeOf m <> None) ms ->
  (forall m, In m ms -> codeOf m <> Some req) ->
  findM (exactPred (Some (JStr req))) ms = Ok None.
Proof.
  intros Hcodes Hnone. apply findM_none.
  apply List.Forall_forall. intros m Hin.
  rewrite List.Forall_forall in Hcodes. specialize (Hcodes m Hin).
  destruct (codeOf m) as [c|] eqn:Hc; [|congruence].
  rewrite (exactPred_code req m c Hc).
  destruct (String.eqb_spec c req) as [->|Hne]; [|reflexivity].
  exfalso. exact (Hnone m Hin Hc).
Qed.


End FixDeliveryModeCode.



(** ** The orchestration engine *)

Section EngineProperties.
Import Js ChatService Props.
Local Open Scope string_scope.

Context {World : Type}.
Variable callTool : World -> string -> Args -> World * MCPToolResult.
Variable JSON_parse : string -> option Json.
Variable JSON_stringify : Json -> string.
Variable ToString : Any -> string.
Variable toLowerCase : string -> string.

Local Abbreviation dispatch :=
  (ChatService.dispatch World callTool JSON_parse JSON_stringify ToString toLowerCase).
Local Abbreviation executeOne :=
  (ChatService.executeOne World callTool JSON_parse JSON_stringify ToString toLowerCase).
Local Abbreviation executeMCPTools :=
  (ChatService.executeMCPTools World callTool JSON_parse JSON_stringify ToString toLowerCase).
Local Abbreviation authFailed := (ChatService.authFailed JSON_stringify).
Local Abbreviation reauthResult := (ChatService.reauthResult JSON_stringify).
Local Abbreviation carts := (cartsByConversation World).
Local Abbreviation modes := (deliveryModesByConversation World).
Local Abbreviation orders := (lastOrderCodeByConversation World).

Implicit Types (st : State World) (tc : ToolCall) (conv : string) (tok : Any).

(** *** One tool execution *)

Lemma prop_hasInput tc (key : string) :
  hasInput tc -> prop key (input tc) = Ok (optProp key (input tc)).
Proof.
  intros [Hundef Hnull]. unfold prop.
  destruct (input tc) as [[]|]; congruence.
Qed.

Lemma executeOne_id tc conv tok st :
  tool_use_id (snd (executeOne tc conv tok st)) = id tc.
Proof.
  unfold ChatService.executeOne.
  destruct (dispatch tc conv tok st) as [st' [result|msg]]; [|reflexivity].
  destruct (authFailed result); reflexivity.
Qed.

Lemma executeMCPTools_cons tc rest conv tok st :
  executeMCPTools (tc :: rest) conv tok st
  = (fst (executeMCPTools rest conv tok (fst (executeOne tc conv tok st))),
     snd (executeOne tc conv tok st)
     :: snd (executeMCPTools rest conv tok (fst (executeOne tc conv tok st)))).
Proof.
  cbn [ChatService.executeMCPTools].
  destruct (executeOne tc conv tok st) as [st1 r]. cbn [fst snd].
  destruct (executeMCPTools rest conv tok st1) as [st2 rs]. reflexivity.
Qed.

Lemma executeMCPTools_ids calls conv tok st :
  map tool_use_id (snd (executeMCPTools calls conv tok st)) = map id calls.
Proof.
  revert st. induction calls as [|tc rest IH]; intros st; [reflexivity|].
  rewrite executeMCPTools_cons. cbn [snd map].
  rewrite executeOne_id, IH. reflexivity.
Qed.

(** When the result of a tool is error-flagged and mentions 401 or
    Unauthorized, the element pushed for the call is the fixed
    re-authentication payload. *)
Lemma executeOne_authFailed tc conv tok st st' result :
  dispatch tc conv tok st = (st', Ok result) ->
  authFailed result = true ->
  executeOne tc conv tok st = (st', reauthResult tc).
Proof.
  intros Hd Ha. unfold ChatService.executeOne. rewrite Hd, Ha. reflexivity.
Qed.

Context {Prompt : Type}.

Local Abbreviation toolPhase :=
  (ChatService.toolPhase World callTool JSON_parse JSON_stringify ToString toLowerCase Prompt).
Local Abbreviation requestedPhase :=
  (ChatService.requestedPhase World callTool JSON_parse JSON_stringify ToString toLowerCase Prompt).
Local Abbreviation autoPlaceOrder :=
  (ChatService.autoPlaceOrder World callTool JSON_parse JSON_stringify ToString toLowerCase Prompt).
Local Abbreviation autoDeliveryModes :=
  (ChatService.autoDeliveryModes World callTool JSON_parse JSON_stringify ToString toLowerCase Prompt).
Local Abbreviation resultBlock := (ChatService.resultBlock JSON_stringify).

Implicit Types (req : ChatRequest Prompt).

(** *** The reply of a turn *)

Section Reply.

Context {Provider : Type}.
Variable providerName : string.
Variable sendMessage : Provider -> Prompt -> Provider * AiResponse.
Variable sendToolResults :
Provider -> Prompt -> list ContentBlock -> list ToolResultBlock ->
Provider * AiResponse.

Local Abbreviation handleChatMessage :=
(ChatService.handleChatMessage World callTool JSON_parse JSON_stringify ToString toLowerCase
   Provider Prompt providerName sendMessage sendToolResults).

Implicit Types (pv : Provider).

(** C5, as the code has it.  A tool result that is error-flagged and
  mentions 401 or Unauthorized is replaced, for that call only, by
  the fixed payload (error [Authentication failed], message [Your
  session has expired. Please log in again to continue.],
  [requiresReauth: true]); the remaining calls of the turn are still
  executed, and the turn stays on the normal reply path: the results
  are sent to the completion provider and the message returned is the
  provider's answer to them (or the placeholder when that is empty). *)
Theorem auth_failure_is_fed_back req st pv pv1 ai first rest :
sendMessage pv (prompt Prompt req) = (pv1, ai) ->
toolCalls ai = Some (first :: rest) ->
(forall tc conv tok st0 st1 result,
    dispatch tc conv tok st0 = (st1, Ok result) ->
    authFailed result = true ->
    executeOne tc conv tok st0 = (st1, reauthResult tc) /\
    r_content (reauthResult tc) = Some (JStr (JSON_stringify reauthPayload)) /\
    optProp "message" (Some reauthPayload) = Some (JStr sessionExpired) /\
    optProp "requiresReauth" (Some reauthPayload) = Some (JBool true) /\
    forall more,
      snd (executeMCPTools (tc :: more) conv tok st0)
      = reauthResult tc :: snd (executeMCPTools more conv tok st1)) /\
exists st' ph pv2 ai2,
  toolPhase req (first :: rest) st = (st', ph) /\
  sendToolResults pv1 (prompt Prompt req)
                  (assistantContent ai (allCalls ph))
                  (map resultBlock (toolResults ph)) = (pv2, ai2) /\
  handleChatMessage req st pv
  = (st', pv2,
     mkChatResponse (conversationId Prompt req) (replyText ai2)
                    (length (products ph)) (toolsUsed ph)
                    (tokensUsed ai2) providerName).
Proof.
intros Hsend Hcalls. split.
- intros tc conv tok st0 st1 result Hd Ha.
  pose proof (executeOne_authFailed tc conv tok st0 st1 result Hd Ha) as Hone.
  repeat split; [exact Hone|].
  intros more. rewrite executeMCPTools_cons, Hone. reflexivity.
- destruct (toolPhase req (first :: rest) st) as [st' ph] eqn:Hph.
  destruct (sendToolResults pv1 (prompt Prompt req)
              (assistantContent ai (allCalls ph))
              (map resultBlock (toolResults ph))) as [pv2 ai2] eqn:Hsecond.
  exists st', ph, pv2, ai2.
  split; [reflexivity|]. split; [exact Hsecond|].
  unfold ChatService.handleChatMessage.
  rewrite Hsend, Hcalls, Hph, Hsecond. reflexivity.
Qed.

End Reply.

(** *** Auto-chaining *)

Lemma dispatch_setDeliveryAddress tc conv tok st :
  name tc = sda -> hasInput tc ->
  exists st' result, dispatch tc conv tok st = (st', Ok result).
Proof.
  intros Hname Hinput. unfold ChatService.dispatch.
  replace (classify (name tc)) with SetDeliveryAddress by (rewrite Hname; reflexivity).
  unfold bind, storedCart, gets, field, lift, ret, mcpCallTool.
  destruct (negb (truthy (carts st !! conv))); [eauto|].
  rewrite !(prop_hasInput tc _ Hinput).
  destruct (callTool _ _ _) as [w result]. eauto.
Qed.

Lemma executeOne_setDeliveryAddress tc conv tok st :
  name tc = sda -> hasInput tc ->
  r_error (snd (executeOne tc conv tok st)) = None.
Proof.
  intros Hname Hinput.
  destruct (dispatch_setDeliveryAddress tc conv tok st Hname Hinput)
    as (st' & result & Hd).
  unfold ChatService.executeOne. rewrite Hd.
  destruct (authFailed result); reflexivity.
Qed.

Lemma executeMCPTools_lined calls conv tok st :
  Forall2 lined calls (snd (executeMCPTools calls conv tok st)).
Proof.
  revert st. induction calls as [|tc rest IH]; intros st.
  - constructor.
  - rewrite executeMCPTools_cons. cbn [snd]. constructor; [|apply IH].
    split; [apply executeOne_id|]. intros Hn Hi.
    apply executeOne_setDeliveryAddress; assumption.
Qed.

Lemma same_id_same_call (calls : list ToolCall) (a b : ToolCall) :
  List.NoDup (map id calls) -> In a calls -> In b calls -> id a = id b -> a = b.
Proof.
  induction calls as [|c calls IH]; simpl; [tauto|].
  intros Hnd Ha Hb Hid. apply NoDup_cons_iff in Hnd as [Hc Hnd].
  destruct Ha as [->|Ha], Hb as [->|Hb]; auto.
  - exfalso. apply Hc. rewrite Hid. apply in_map, Hb.
  - exfalso. apply Hc. rewrite <- Hid. apply in_map, Ha.
Qed.

Lemma lined_in calls results (r : ToolResult) :
  Forall2 lined calls results -> In r results ->
  exists tc, In tc calls /\ lined tc r.
Proof.
  induction 1 as [|tc r0 calls results Hl _ IH]; simpl; [tauto|].
  intros [<-|Hin]; [eauto|].
  destruct (IH Hin) as (tc' & Hin' & Hl'). eauto.
Qed.

Lemma lined_result calls results tc :
  Forall2 lined calls results -> In tc calls ->
  exists r, In r results /\ lined tc r.
Proof.
  induction 1 as [|tc0 r0 calls results Hl _ IH]; simpl; [tauto|].
  intros [<-|Hin]; [eauto|].
  destruct (IH Hin) as (r & Hin' & Hl'). eauto.
Qed.

Lemma find_app_found {A} (p : A -> bool) (l l' : list A) (x : A) :
  In x l -> p x = true ->
  exists y, List.find p (l ++ l') = Some y /\ In y l /\ p y = true.
Proof.
  induction l as [|a l IH]; simpl; [tauto|].
  intros Hin Hp. destruct (p a) eqn:Hpa; [eauto|].
  destruct Hin as [->|Hin]; [congruence|].
  destruct (IH Hin Hp) as (y & Hf & Hy & Hpy). eauto.
Qed.

Lemma find_app_skip {A} (p : A -> bool) (l l' : list A) :
  Forall (fun x => p x = false) l -> List.find p (l ++ l') = List.find p l'.
Proof.
  induction 1 as [|x l Hx _ IH]; [reflexivity|].
  cbn [app List.find]. rewrite Hx. exact IH.
Qed.

(** Among calls with distinct ids, the first result that belongs to a
    set-delivery-address call is that of the first such call; it has no
    error when that call has an input. *)
Lemma resultOf_setDeliveryAddress before tc rest extra results extras :
  List.NoDup (map id (before ++ tc :: rest)) ->
  Forall2 lined (before ++ tc :: rest) results ->
  Forall (fun c => name c <> sda) before ->
  name tc = sda -> hasInput tc ->
  Forall (fun c => name c <> sda) extra ->
  presentWithoutError
    (resultOf sda ((before ++ tc :: rest) ++ extra) (results ++ extras)) = true.
Proof.
  intros Hnd Hlined Hbefore Hname Hinput Hextra.
  apply Forall2_app_inv_l in Hlined as (rb & rest' & Hrb & Hrest & ->).
  inversion Hrest as [|tc' r calls' rr [Hid Herr] Hrr]; subst.
  unfold resultOf. rewrite <- (app_assoc rb). rewrite (find_app_skip _ rb).
  - cbn [app List.find].
    match goal with
    | |- context [existsb ?f ?l] => assert (Hp : existsb f l = true)
    end.
    { apply existsb_exists. exists tc.
      split; [apply in_or_app; left; apply in_or_app; right; left; reflexivity|].
      rewrite Hid, Hname, !String.eqb_refl. reflexivity. }
    rewrite Hp. cbn [presentWithoutError]. rewrite Herr; auto.
  - apply List.Forall_forall. intros r0 Hr0.
    destruct (existsb _ _) eqn:Hp; [exfalso|reflexivity].
    apply existsb_exists in Hp as (c & Hc & Hmatch).
    apply andb_true_iff in Hmatch as [Hidc Hnamec].
    apply String.eqb_eq in Hidc, Hnamec.
    rewrite List.Forall_forall in Hbefore, Hextra.
    apply in_app_or in Hc as [Hc|Hc]; [|exact (Hextra c Hc Hnamec)].
    destruct (lined_in before rb r0 Hrb Hr0) as (b & Hb & Hidb & _).
    assert (b = c).
    { apply (same_id_same_call (before ++ tc :: rest));
        [exact Hnd|apply in_or_app; left; exact Hb|exact Hc|congruence]. }
    subst c. exact (Hbefore b Hb Hnamec).
Qed.

Lemma includesName_in (nm : string) (calls : list ToolCall) (more : list string) :
  (exists tc, In tc calls /\ name tc = nm) ->
  includesName nm (map name calls ++ more) = true.
Proof.
  intros (tc & Hin & Hname). unfold includesName. apply existsb_exists.
  exists nm. split; [|apply String.eqb_refl].
  apply in_or_app. left. rewrite <- Hname. apply in_map, Hin.
Qed.

Lemma executeMCPTools_one tc conv tok st :
  executeMCPTools [tc] conv tok st
  = (fst (executeOne tc conv tok st), [snd (executeOne tc conv tok st)]).
Proof. rewrite executeMCPTools_cons. reflexivity. Qed.

(** The automatic get-delivery-modes call, step by step. *)
Lemma executeOne_getDeliveryModes callId conv tok st w result :
  callTool (mcp World st) "get-delivery-modes" (storedCartArgs st conv tok) = (w, result) ->
  executeOne (mkCall callId "get-delivery-modes") conv tok st
  = (mkState World (carts st)
       (if isError result then modes st
        else storeDeliveryModesLoop JSON_parse ToString conv [content result] (modes st))
       (orders st) w
       (trace World st ++ [("get-delivery-modes", storedCartArgs st conv tok)]),
     if authFailed result then reauthResult (mkCall callId "get-delivery-modes")
     else mkToolResult callId (content result) (Some []) None).
Proof.
  intros Hcall. unfold ChatService.executeOne, ChatService.dispatch.
  change (classify (name (mkCall callId "get-delivery-modes"))) with GetDeliveryModes.
  unfold bind, storedCart, gets, mcpCallTool, ret, storeDeliveryModes, modify, withModes.
  unfold storedCartArgs in Hcall. rewrite Hcall.
  destruct (isError result); cbn [negb]; destruct (authFailed result); reflexivity.
Qed.

(** The automatic place-order call makes one call through the client,
    with the stored cart id. *)
Lemma executeOne_autoPlaceOrder callId conv tok st :
  trace World (fst (executeOne (mkCall callId "place-order") conv tok st))
  = (trace World st ++ [("place-order", storedCartArgs st conv tok)])%list.
Proof.
  unfold ChatService.executeOne, ChatService.dispatch.
  change (classify (name (mkCall callId "place-order"))) with PlaceOrder.
  unfold bind, field, lift, storedCart, gets, mcpCallTool, ret, modify, withCarts.
  cbn [input mkCall prop optProp assoc jor truthy].
  fold (storedCartArgs st conv tok).
  destruct (callTool _ _ _) as [w result].
  destruct (truthy (carts st !! conv)); destruct (authFailed result); reflexivity.
Qed.

Lemma storeDeliveryModes_listed conv (resultContent : Any) (l : list Json)
      (known : gmap string (list Json)) :
  listedModes JSON_parse ToString resultContent = Some l ->
  storeDeliveryModesLoop JSON_parse ToString conv [resultContent] known !! conv = Some l.
Proof.
  unfold listedModes, storeDeliveryModesLoop, storeDeliveryModesOf.
  destruct (truthy resultContent); [|discriminate].
  destruct (parseIfString _ _ _) as [data|]; [|discriminate].
  destruct (prop "deliveryModes" data) as [[[]|]|]; try discriminate.
  intros [= ->]. destruct (existsb isNull l); apply lookup_insert_eq.
Qed.

(** What [autoPlaceOrder] does: nothing, or one more call through the
    client, place-order with the stored cart id. *)
Lemma autoPlaceOrder_cases req ph st :
  let conv := conversationId Prompt req in
  let tok := userAccessToken Prompt req in
  let out := autoPlaceOrder req ph st in
  (out = (st, ph) \/
   (includesName "set-payment-details" (toolsUsed ph) = true /\
    trace World (fst out)
    = (trace World st ++ [("place-order", storedCartArgs st conv tok)])%list)) /\
  exists extra extras more,
    allCalls (snd out) = (allCalls ph ++ extra)%list /\
    toolResults (snd out) = (toolResults ph ++ extras)%list /\
    toolsUsed (snd out) = (toolsUsed ph ++ more)%list /\
    Forall (fun tc => name tc <> sda) extra.
Proof.
  intros conv tok out. unfold out, ChatService.autoPlaceOrder.
  destruct (includesName "set-payment-details" (toolsUsed ph)) eqn:Hincl;
    cbn [andb].
  2:{ split; [left; reflexivity|]. exists [], [], []. cbn [snd].
      rewrite !app_nil_r. auto. }
  destruct (presentWithoutError _).
  2:{ split; [left; reflexivity|]. exists [], [], []. cbn [snd].
      rewrite !app_nil_r. auto. }
  rewrite executeMCPTools_one. cbn [fst snd]. split.
  - right. split; [reflexivity|]. apply executeOne_autoPlaceOrder.
  - eexists [_], _, _. cbn [allCalls toolResults toolsUsed].
    repeat split. repeat constructor. discriminate.
Qed.


(** *** Cart lifecycle *)

(** A place-order execution, step by step. *)
Lemma dispatch_placeOrder tc conv tok st w result :
  name tc = "place-order" -> hasInput tc ->
  callTool (mcp World st) "place-order" (placeOrderArgs (resolvedCart st conv tc) tok)
  = (w, result) ->
  dispatch tc conv tok st
  = (mkState World
       (if truthy (resolvedCart st conv tc) then delete conv (carts st) else carts st)
       (modes st) (orders st) w
       (trace World st ++ [("place-order", placeOrderArgs (resolvedCart st conv tc) tok)]),
     Ok result).
Proof.
  intros Hname Hinput Hcall. unfold ChatService.dispatch.
  replace (classify (name tc)) with PlaceOrder by (rewrite Hname; reflexivity).
  unfold bind, field, lift, storedCart, gets, mcpCallTool, ret, modify, withCarts.
  rewrite (prop_hasInput tc _ Hinput).
  unfold placeOrderArgs, resolvedCart in *. rewrite Hcall.
  destruct (truthy (jor _ _)); reflexivity.
Qed.

Lemma executeOne_state tc conv tok st st' (r : Result MCPToolResult) :
  dispatch tc conv tok st = (st', r) -> fst (executeOne tc conv tok st) = st'.
Proof.
  intros Hd. unfold ChatService.executeOne. rewrite Hd.
  destruct r as [result|msg]; [|reflexivity].
  destruct (authFailed result); reflexivity.
Qed.

Lemma executeOne_error tc conv tok st st' (msg : string) :
  dispatch tc conv tok st = (st', Throw msg) ->
  r_error (snd (executeOne tc conv tok st)) = Some msg.
Proof. intros Hd. unfold ChatService.executeOne. rewrite Hd. reflexivity. Qed.

Lemma executeOne_no_error tc conv tok st st' (result : MCPToolResult) :
  dispatch tc conv tok st = (st', Ok result) ->
  r_error (snd (executeOne tc conv tok st)) = None.
Proof.
  intros Hd. unfold ChatService.executeOne. rewrite Hd.
  destruct (authFailed result); reflexivity.
Qed.

(** An add-to-cart execution that finds no cart id, neither in its
    input nor stored: create-cart is called first; what follows
    depends on whether a cart id can be read from its result. *)
Lemma dispatch_addToCart_fresh tc conv tok st w cartResult :
  name tc = "add-to-cart" -> hasInput tc -> noOwnCart tc ->
  carts st !! conv = None ->
  callTool (mcp World st) "create-cart" [token tok] = (w, cartResult) ->
  let created := createdCartId JSON_parse ToString cartResult in
  let tr := (trace World st ++ [("create-cart", [token tok])])%list in
  match created with
  | Ok (Some cid) =>
      if truthy (Some cid) then
        forall w2 result,
          callTool w "add-to-cart" (addToCartArgs tc (Some cid) tok) = (w2, result) ->
          dispatch tc conv tok st
          = (mkState World (<[conv := cid]> (carts st)) (modes st) (orders st) w2
                     (tr ++ [("add-to-cart", addToCartArgs tc (Some cid) tok)]),
             Ok result)
      else
        dispatch tc conv tok st
        = (mkState World (carts st) (modes st) (orders st) w tr, Throw extractFailed)
  | Ok None =>
      dispatch tc conv tok st
      = (mkState World (carts st) (modes st) (orders st) w tr, Throw extractFailed)
  | Throw msg =>
      dispatch tc conv tok st
      = (mkState World (carts st) (modes st) (orders st) w tr, Throw msg)
  end.
Proof.
  intros Hname Hinput Hown Hstored Hcall created tr.
  unfold ChatService.dispatch.
  replace (classify (name tc)) with AddToCart by (rewrite Hname; reflexivity).
  unfold bind, field, lift, storedCart, gets, mcpCallTool, modify, withCarts, ret, throw.
  rewrite !(prop_hasInput tc _ Hinput), Hstored.
  replace (jor (optProp "cartId" (input tc)) None) with (@None Json)
    by (unfold jor; unfold noOwnCart in Hown; rewrite Hown; reflexivity).
  change (negb (truthy None)) with true. cbv beta iota.
  rewrite Hcall. fold created. fold tr. unfold addToCartArgs.
  destruct created as [[cid|]|msg]; [|reflexivity|reflexivity].
  destruct (truthy (Some cid)); [|reflexivity].
  intros w2 result Hadd.
  cbn [mcp cartsByConversation deliveryModesByConversation
       lastOrderCodeByConversation trace].
  rewrite Hadd. reflexivity.
Qed.

Lemma placeOrder_clears tc conv tok st :
  name tc = "place-order" -> hasInput tc ->
  truthy (resolvedCart st conv tc) = true ->
  carts (fst (executeOne tc conv tok st)) = delete conv (carts st) /\
  trace World (fst (executeOne tc conv tok st))
  = (trace World st ++ [("place-order", placeOrderArgs (resolvedCart st conv tc) tok)])%list /\
  r_error (snd (executeOne tc conv tok st)) = None.
Proof.
  intros Hname Hinput Hcart.
  destruct (callTool (mcp World st) "place-order"
              (placeOrderArgs (resolvedCart st conv tc) tok)) as [w result] eqn:Hcall.
  pose proof (dispatch_placeOrder tc conv tok st w result Hname Hinput Hcall) as Hd.
  rewrite (executeOne_state _ _ _ _ _ _ Hd), (executeOne_no_error _ _ _ _ _ _ Hd).
  cbn [cartsByConversation trace]. rewrite Hcart. auto.
Qed.

Lemma resolvedCart_stored tc conv st cid :
  carts st !! conv = Some cid -> truthy (Some cid) = true ->
  truthy (resolvedCart st conv tc) = true.
Proof.
  intros Hst Hcid. unfold resolvedCart, jor. rewrite Hst.
  destruct (truthy (optProp "cartId" (input tc))) eqn:Hown; assumption.
Qed.

Lemma addToCart_fresh atc conv tok st w cartResult :
  name atc = "add-to-cart" -> hasInput atc -> noOwnCart atc ->
  carts st !! conv = None ->
  callTool (mcp World st) "create-cart" [token tok] = (w, cartResult) ->
  let st' := fst (executeOne atc conv tok st) in
  (exists more,
      trace World st' = (trace World st ++ ("create-cart", [token tok]) :: more)%list) /\
  (forall new,
      createdCartId JSON_parse ToString cartResult = Ok (Some new) ->
      truthy (Some new) = true ->
      carts st' !! conv = Some new /\
      trace World st'
      = (trace World st ++ [ ("create-cart", [token tok]);
                             ("add-to-cart", addToCartArgs atc (Some new) tok) ])%list) /\
  ((forall new, createdCartId JSON_parse ToString cartResult = Ok (Some new) ->
                truthy (Some new) = false) ->
   carts st' !! conv = None /\
   r_error (snd (executeOne atc conv tok st)) <> None).
Proof.
  intros Hname Hinput Hown Hstored Hcall st'.
  pose proof (dispatch_addToCart_fresh atc conv tok st w cartResult
                Hname Hinput Hown Hstored Hcall) as Hd.
  cbv zeta in Hd. unfold st'.
  destruct (createdCartId JSON_parse ToString cartResult) as [[new|]|msg] eqn:Hcreated.
  - destruct (truthy (Some new)) eqn:Hnew.
    + destruct (callTool w "add-to-cart" (addToCartArgs atc (Some new) tok))
        as [w2 result] eqn:Hadd.
      specialize (Hd w2 result eq_refl).
      rewrite (executeOne_state _ _ _ _ _ _ Hd). cbn [trace cartsByConversation].
      split; [|split].
      * rewrite <- app_assoc. eauto.
      * intros new' [= <-] _. split; [apply lookup_insert_eq|].
        rewrite <- app_assoc. reflexivity.
      * intros Hnone. specialize (Hnone new eq_refl). congruence.
    + rewrite (executeOne_state _ _ _ _ _ _ Hd), (executeOne_error _ _ _ _ _ _ Hd).
      cbn [trace cartsByConversation]. split; [eauto|]. split.
      * intros new' [= <-] Ht. congruence.
      * intros _. split; [assumption|discriminate].
  - rewrite (executeOne_state _ _ _ _ _ _ Hd), (executeOne_error _ _ _ _ _ _ Hd).
    cbn [trace cartsByConversation]. split; [eauto|]. split.
    + intros new' [=].
    + intros _. split; [assumption|discriminate].
  - rewrite (executeOne_state _ _ _ _ _ _ Hd), (executeOne_error _ _ _ _ _ _ Hd).
    cbn [trace cartsByConversation]. split; [eauto|]. split.
    + intros new' [=].
    + intros _. split; [assumption|discriminate].
Qed.

Lemma fst_executeOne tc conv tok st :
  fst (executeOne tc conv tok st) = fst (dispatch tc conv tok st).
Proof.
  unfold ChatService.executeOne.
  destruct (dispatch tc conv tok st) as [st' [result|msg]]; [|reflexivity].
  destruct (authFailed result); reflexivity.
Qed.

(** An add-to-cart execution whose input carries a cart id: one call
    through the client, with that id; the cart map is not written. *)
Lemma addToCart_own atc conv tok st :
  name atc = "add-to-cart" ->
  truthy (optProp "cartId" (input atc)) = true ->
  trace World (fst (executeOne atc conv tok st))
  = (trace World st
       ++ [("add-to-cart", addToCartArgs atc (optProp "cartId" (input atc)) tok)])%list /\
  carts (fst (executeOne atc conv tok st)) = carts st.
Proof.
  intros Hname Hown. rewrite fst_executeOne. unfold ChatService.dispatch.
  replace (classify (name atc)) with AddToCart by (rewrite Hname; reflexivity).
  unfold bind, field, lift, storedCart, gets, mcpCallTool, ret, prop, jor, addToCartArgs.
  revert Hown. destruct (input atc) as [[]|]; cbn [optProp truthy]; try discriminate.
  intros Hown. cbn [fst snd]. rewrite !Hown. cbn [negb fst snd].
  destruct (callTool _ _ _) as [w result]. cbn [fst trace cartsByConversation mcp].
  split; reflexivity.
Qed.

(** One case of the switch after the other: the cart that a call
    through the client names is the stored one, when the tool call
    brings none. *)
Ltac split_cases Hown :=
  repeat (cbn [fst snd trace mcp cartsByConversation negb andb optProp truthy map];
          rewrite ?Hown;
          match goal with
          | |- context [callTool ?w ?n ?a] =>
              let w' := fresh "w" in
              let r := fresh "result" in
              destruct (callTool w n a) as [w' r]
          | |- context [truthy ?x] => destruct (truthy x) eqn:?
          | |- context [isError ?x] => destruct (isError x)
          | |- context [cartDataOf ?x] => destruct (cartDataOf x) as [?|?]
          | |- context [newCartIdOf ?x] => destruct (newCartIdOf x) as [?|] eqn:?
          | |- context [createdCartId ?p ?t ?x] =>
              destruct (createdCartId p t x) as [[?|]|?]
          | |- context [fixDeliveryModeCode ?l ?m ?c ?r] =>
              destruct (fixDeliveryModeCode l m c r) as [?|?]
          | |- context [match assoc ?k ?f with _ => _ end] =>
              destruct (assoc k f) as [[]|]
          | |- context [match ?x with _ => _ end] => is_var x; destruct x
          | |- context [if ?b then _ else _] => destruct b eqn:?
          end).

Lemma dispatch_cartArg tc conv tok st :
  noOwnCart tc ->
  let st' := fst (dispatch tc conv tok st) in
  exists made,
    trace World st' = (trace World st ++ made)%list /\
    Forall (fun call =>
              forall a, cartArg (snd call) = Some a ->
                        a = AVal (match classify (name tc) with
                                  | AddToCart => carts st' !! conv
                                  | _ => carts st !! conv
                                  end)) made.
Proof.
  intros Hown st'. unfold st', ChatService.dispatch. unfold noOwnCart in Hown.
  destruct (classify (name tc)).
  all: unfold bind, field, lift, storedCart, gets, mcpCallTool, ret, throw,
         storeDeliveryModes, modify, withCarts, withModes, pick, prop, jor, token.
  all: revert Hown; destruct (input tc) as [[]|]; intros Hown;
    cbn [optProp truthy] in Hown.
  all: split_cases Hown.
  all: cbn [fst snd trace mcp cartsByConversation negb andb optProp truthy map].
  all: match goal with
       | |- exists made, ?t = (?t ++ made)%list /\ _ =>
           exists []; rewrite app_nil_r; split; [reflexivity|constructor]
       | |- exists made, (?t ++ [?c])%list = (?t ++ made)%list /\ _ =>
           exists [c]; split; [reflexivity|]
       | |- exists made, ((?t ++ [?c]) ++ [?d])%list = (?t ++ made)%list /\ _ =>
           exists [c; d]; split; [rewrite <- app_assoc; reflexivity|]
       end.
  all: repeat constructor;
    cbn [cartArg snd app map String.eqb Ascii.eqb Bool.eqb];
    let H := fresh "Hcart" in
    intros ? H; try discriminate H; injection H as <-;
    rewrite ?lookup_insert_eq; reflexivity.
Qed.


(** C9, as the code has it.  A place-order execution that resolves a
    cart id deletes the conversation's stored cart id, whatever the
    result of the tool, error-flagged or not.  Afterwards the
    conversation's state yields no cart id: a retried place-order
    passes the cart id of its own arguments, if it has one, and no
    cart id otherwise, and an add-to-cart call without a cart id of its
    own has a new cart created. *)
Theorem place_order_clears_cart_even_on_error po conv tok st w result :
  name po = "place-order" -> hasInput po ->
  truthy (resolvedCart st conv po) = true ->
  callTool (mcp World st) "place-order" (placeOrderArgs (resolvedCart st conv po) tok)
  = (w, result) ->
  let st1 := fst (executeOne po conv tok st) in
  st1 = mkState World (delete conv (carts st)) (modes st) (orders st) w
          (trace World st ++ [("place-order", placeOrderArgs (resolvedCart st conv po) tok)]) /\
  carts st1 !! conv = None /\
  forall st2,
    carts st2 !! conv = None ->
    (forall retry,
        name retry = "place-order" -> hasInput retry ->
        resolvedCart st2 conv retry = jor (optProp "cartId" (input retry)) None /\
        (noOwnCart retry -> resolvedCart st2 conv retry = None) /\
        trace World (fst (executeOne retry conv tok st2))
        = (trace World st2
             ++ [("place-order", placeOrderArgs (resolvedCart st2 conv retry) tok)])%list) /\
    (forall atc w2 cartResult,
        name atc = "add-to-cart" -> hasInput atc -> noOwnCart atc ->
        callTool (mcp World st2) "create-cart" [token tok] = (w2, cartResult) ->
        exists more,
          trace World (fst (executeOne atc conv tok st2))
          = (trace World st2 ++ ("create-cart", [token tok]) :: more)%list).
Proof.
  intros Hname Hinput Hcart Hcall st1.
  pose proof (dispatch_placeOrder po conv tok st w result Hname Hinput Hcall) as Hd.
  assert (Hst1 : st1 = mkState World (delete conv (carts st)) (modes st) (orders st) w
                         (trace World st
                            ++ [("place-order", placeOrderArgs (resolvedCart st conv po) tok)])).
  { unfold st1. rewrite (executeOne_state _ _ _ _ _ _ Hd), Hcart. reflexivity. }
  split; [exact Hst1|]. split.
  { rewrite Hst1. cbn [cartsByConversation]. apply lookup_delete_eq. }
  intros st2 Hnone. split.
  - intros retry Hretry Hin.
    assert (Hres : resolvedCart st2 conv retry = jor (optProp "cartId" (input retry)) None).
    { unfold resolvedCart. rewrite Hnone. reflexivity. }
    split; [exact Hres|]. split.
    + intros Hown. rewrite Hres. unfold jor. unfold noOwnCart in Hown.
      rewrite Hown. reflexivity.
    + destruct (callTool (mcp World st2) "place-order"
                  (placeOrderArgs (resolvedCart st2 conv retry) tok))
        as [w2 result2] eqn:Hcall2.
      rewrite (executeOne_state _ _ _ _ _ _
                 (dispatch_placeOrder retry conv tok st2 w2 result2 Hretry Hin Hcall2)).
      reflexivity.
  - intros atc w2 cartResult Hatc Hin Hown Hcreate.
    destruct (addToCart_fresh atc conv tok st2 w2 cartResult Hatc Hin Hown Hnone Hcreate)
      as (Hfirst & _). exact Hfirst.
Qed.

(** *** Stored cart ids are truthy *)

Local Abbreviation keeps := (Props.keeps (World:=World)).

Lemma keeps_ret {A} (a : A) : keeps (ret World a).
Proof. intros st H. exact H. Qed.

Lemma keeps_throw {A} (msg : string) : keeps (@throw World A msg).
Proof. intros st H. exact H. Qed.

Lemma keeps_lift {A} (r : Result A) : keeps (lift World r).
Proof. intros st H. exact H. Qed.

Lemma keeps_gets {A} (f : State World -> A) : keeps (gets World f).
Proof. intros st H. exact H. Qed.

Lemma keeps_mcpCallTool nm args : keeps (mcpCallTool World callTool nm args).
Proof.
  intros st H. unfold mcpCallTool. destruct (callTool _ _ _). exact H.
Qed.

Lemma keeps_storeDeliveryModes conv contents :
  keeps (storeDeliveryModes World JSON_parse ToString conv contents).
Proof. intros st H. exact H. Qed.

Lemma keeps_delete conv : keeps (modify World (withCarts World (delete conv))).
Proof.
  intros st H c cid Hlook. cbn in Hlook.
  apply lookup_delete_Some in Hlook as [_ Hlook]. exact (H c cid Hlook).
Qed.

Lemma keeps_insert conv cid :
  truthy (Some cid) = true -> keeps (modify World (withCarts World (insert conv cid))).
Proof.
  intros Hcid st H c cid' Hlook. cbn in Hlook.
  apply lookup_insert_Some in Hlook as [[_ <-]|[_ Hlook]]; [exact Hcid|exact (H c cid' Hlook)].
Qed.

Lemma keeps_bind {A B} (c : M World A) (k : A -> M World B) :
  keeps c -> (forall a, keeps (k a)) -> keeps (bind World c k).
Proof.
  intros Hc Hk st H. unfold bind. specialize (Hc st H).
  destruct (c st) as [st' [a|msg]]; cbn [fst] in *; [apply Hk, Hc|exact Hc].
Qed.

Ltac keeps_step :=
  first
    [ apply keeps_ret | apply keeps_throw | apply keeps_lift | apply keeps_gets
    | apply keeps_mcpCallTool | apply keeps_storeDeliveryModes | apply keeps_delete
    | apply keeps_insert; assumption
    | apply keeps_bind; [|intros ?]
    | match goal with
      | |- keeps (if ?b then _ else _) => destruct b eqn:?
      | |- keeps (match ?x with _ => _ end) => destruct x eqn:?
      end ].

Lemma dispatch_keeps tc conv tok : keeps (dispatch tc conv tok).
Proof.
  unfold ChatService.dispatch, field, storedCart.
  destruct (classify (name tc)); repeat keeps_step.
Qed.

(** Every tool execution, and so every run of tool calls, leaves only
    truthy cart ids in the map. *)
Lemma executeOne_cartsTruthy tc conv tok st :
  cartsTruthy (carts st) -> cartsTruthy (carts (fst (executeOne tc conv tok st))).
Proof.
  intros H. pose proof (dispatch_keeps tc conv tok st H) as Hd.
  unfold ChatService.executeOne.
  destruct (dispatch tc conv tok st) as [st' [result|msg]]; cbn [fst] in *; [|exact Hd].
  destruct (authFailed result); exact Hd.
Qed.

Lemma executeMCPTools_cartsTruthy calls conv tok st :
  cartsTruthy (carts st) -> cartsTruthy (carts (fst (executeMCPTools calls conv tok st))).
Proof.
  revert st. induction calls as [|tc rest IH]; intros st H; [exact H|].
  rewrite executeMCPTools_cons. cbn [fst].
  apply IH, executeOne_cartsTruthy, H.
Qed.

End EngineProperties.

(** ** The engine on a simulated backend *)

Section Simulated.
Import Js ChatService Props.
Local Open Scope string_scope.



Lemma auth_failure_is_fed_back_witness :
  snd (Demo.chat Demo.expired [Demo.historyCall; Demo.searchCall]
                 "Please sign in again so that I can look up your orders."
                 (initialState Demo.World 0%Z))
  = mkChatResponse "c1" "Please sign in again so that I can look up your orders."
                   0 ["get-order-history"; "search-products"] 50 "claude".
Proof.
  destruct (auth_failure_is_fed_back Demo.expired Demo.parse Demo.stringify Demo.toString Demo.toLowerCase
              "claude"
              (fst (Demo.scripted [Demo.historyCall; Demo.searchCall]
                      "Please sign in again so that I can look up your orders."))
              (snd (Demo.scripted [Demo.historyCall; Demo.searchCall]
                      "Please sign in again so that I can look up your orders."))
              (Demo.request "c1") (initialState Demo.World 0%Z) tt tt
              (mkAiResponse EmptyString (Some [Demo.historyCall; Demo.searchCall]) 100)
              Demo.historyCall [Demo.searchCall] eq_refl eq_refl)
    as [_ (st' & ph & pv2 & ai2 & Hph & Hsecond & Hturn)].
  unfold Demo.chat. rewrite Hturn. cbn [snd].
  vm_compute in Hph. injection Hph as <- <-.
  vm_compute in Hsecond. injection Hsecond as <- <-.
  reflexivity.
Defined.

(** C5, as stated, fails: with a backend that answers every call with
    an error-flagged 401, the first tool result of the turn is taken
    for an authentication failure, but the second call is still made,
    and the message returned is the answer of the completion provider,
    not the fixed session-expired text; the response has no
    re-authentication flag. *)
Lemma auth_failure_no_short_circuit_counterexample :
  let calls := [Demo.historyCall; Demo.searchCall] in
  let executed :=
    executeMCPTools Demo.World Demo.expired Demo.parse Demo.stringify Demo.toString Demo.toLowerCase
                    calls "c1" Demo.tok (initialState Demo.World 0%Z) in
  let out := Demo.chat Demo.expired calls "Here are some cameras you may like."
                       (initialState Demo.World 0%Z) in
  authFailed Demo.stringify
             (snd (Demo.expired 0%Z "get-order-history"
                     [("pageSize", AVal None); ("currentPage", AVal None);
                      token Demo.tok])) = true /\
  map r_content (snd executed)
  = [ Some (JStr (Demo.stringify reauthPayload));
      Some (JStr (Demo.stringify reauthPayload)) ] /\
  calledTools (fst (fst out)) = ["get-order-history"; "search-products"] /\
  message (snd out) = "Here are some cameras you may like." /\
  message (snd out) <> sessionExpired.
Proof.
  cbv zeta. split; [vm_compute; reflexivity|].
  split; [vm_compute; reflexivity|].
  split; [vm_compute; reflexivity|].
  split; [vm_compute; reflexivity|].
  vm_compute. discriminate.
Qed.



Lemma place_order_clears_cart_even_on_error_witness :
  isError (snd (Demo.declining 1%Z "place-order"
                  (placeOrderArgs (Some (JStr "00001")) Demo.tok))) = true /\
  cartsByConversation _ (Demo.shopping Demo.declining) !! "c1" = Some (JStr "00001") /\
  cartsByConversation _ (Demo.ordered Demo.declining) !! "c1" = None /\
  List.last (trace _ (fst (Demo.run Demo.declining Demo.placeOrderCall
                                    (Demo.ordered Demo.declining))))
            (EmptyString, [])
  = ("place-order", placeOrderArgs None Demo.tok).
Proof.
  split; [reflexivity|]. split; [vm_compute; reflexivity|].
  destruct (place_order_clears_cart_even_on_error Demo.declining Demo.parse
              Demo.stringify Demo.toString Demo.toLowerCase Demo.placeOrderCall "c1" Demo.tok
              (Demo.shopping Demo.declining) 1%Z
              (Demo.failed "Error placing order: payment was declined"))
    as (_ & Hcleared & Hlater).
  - reflexivity.
  - split; discriminate.
  - vm_compute. reflexivity.
  - vm_compute. reflexivity.
  - split; [exact Hcleared|].
    destruct (Hlater (Demo.ordered Demo.declining) Hcleared) as [Hretry _].
    destruct (Hretry Demo.placeOrderCall) as (_ & Hnone & Htrace).
    + reflexivity.
    + split; discriminate.
    + unfold Demo.run. rewrite Htrace, Hnone by reflexivity.
      rewrite last_last. reflexivity.
Defined.

(** C9, as stated, fails in its last part: after a place-order whose
    result is error-flagged, and which deleted the stored cart id
    00001, a retried place-order that carries that id in its input is
    made with it. *)
Lemma place_order_retry_reuses_given_cart_counterexample :
  let st := fst (Demo.run Demo.declining Demo.placeOrderCallWithCart
                          (Demo.ordered Demo.declining)) in
  cartsByConversation _ (Demo.shopping Demo.declining) !! "c1" = Some (JStr "00001") /\
  cartsByConversation _ (Demo.ordered Demo.declining) !! "c1" = None /\
  calledTools st = ["create-cart"; "add-to-cart"; "place-order"; "place-order"] /\
  List.last (trace _ st) (EmptyString, [])
  = ("place-order", placeOrderArgs (Some (JStr "00001")) Demo.tok).
Proof.
  cbv zeta. repeat split; vm_compute; reflexivity.
Qed.

End Simulated.


(* ===================================================================== *)
(** * Further properties of the helpers *)
(* ===================================================================== *)

(** ** Retry: every run of the loop *)

Section RetryRuns.
Import Retry.
Local Open Scope Z_scope.

Context {T : Type}.

(** With fuel for the attempts up to [maxRetries], the loop stops at its
    first success or at attempt [maxRetries], whichever comes first. *)
Lemma retryLoop_run (cfg : RetryConfig) (op : @Operation T) :
  forall (fuel a : nat) (d : Z) (w : list Z),
    Z.of_nat a + Z.of_nat fuel = maxRetries cfg + 1 -> (0 < fuel)%nat ->
    let r := retryLoop cfg op fuel a d w in
    exists n : nat,
      (n < fuel)%nat /\
      (forall k, (k < n)%nat -> exists e, op (a + k)%nat = inr e) /\
      delays r = (w ++ backoff cfg d n)%list /\
      calls r = S (a + n) /\
      ((exists v, op (a + n)%nat = inl v /\ outcome r = inl v) \/
       (exists e, op (a + n)%nat = inr e /\ Z.of_nat (a + n) = maxRetries cfg /\
                  outcome r = inr (OperationFailedAfter (maxRetries cfg + 1) e))).
Proof.
  induction fuel as [|fuel IH]; intros a d w Hsum Hpos; [lia|].
  cbn [retryLoop]. cbv zeta.
  destruct (op a) as [v|e] eqn:Hop.
  - exists 0%nat. rewrite Nat.add_0_r, app_nil_r. cbn.
    repeat split; try lia; eauto.
  - destruct (Z.eqb_spec (Z.of_nat a) (maxRetries cfg)) as [Heq|Hne].
    + exists 0%nat. rewrite Nat.add_0_r, app_nil_r. cbn.
      repeat split; try lia.
      right. exists e. rewrite Heq. auto.
    + destruct (IH (S a) (Z.min (d * backoffFactor cfg) (maxDelay cfg))
                   (w ++ [d])%list) as (n & Hn & Hfail & Hdel & Hcalls & Hout);
        [lia|lia|].
      exists (S n). split; [lia|].
      split.
      { intros [|k] Hk; [rewrite Nat.add_0_r; eauto|].
        replace (a + S k)%nat with (S a + k)%nat by lia. apply Hfail. lia. }
      split; [rewrite Hdel, <- app_assoc; reflexivity|].
      split; [rewrite Hcalls; lia|].
      replace (a + S n)%nat with (S a + n)%nat by lia. exact Hout.
Qed.

(** X1.  An operation that fails on every attempt the policy allows is
    called [maxRetries + 1] times; the wrapper waits the whole backoff
    schedule, once between two attempts and not after the last, and
    throws its own error, which counts the attempts and carries the
    rejection of the last one. *)
Theorem withRetry_exhausts (op : @Operation T) (config : PartialConfig) :
  let cfg := finalConfig config in
  0 <= maxRetries cfg ->
  (forall k, (k <= Z.to_nat (maxRetries cfg))%nat -> exists e, op k = inr e) ->
  exists e,
    op (Z.to_nat (maxRetries cfg)) = inr e /\
    withRetry op config
    = mkRun (inr (OperationFailedAfter (maxRetries cfg + 1) e))
            (backoff cfg (initialDelay cfg) (Z.to_nat (maxRetries cfg)))
            (S (Z.to_nat (maxRetries cfg))).
Proof.
  intros cfg Hmax Hall. unfold withRetry. fold cfg.
  destruct (retryLoop_run cfg op (Z.to_nat (maxRetries cfg + 1)) 0
              (initialDelay cfg) []) as (n & Hn & _ & Hdel & Hcalls & Hout);
    [lia|lia|].
  cbn [Nat.add app] in *.
  destruct Hout as [(v & Hv & _)|(e & He & Hlast & Hout)].
  - destruct (Hall n) as [e He]; [lia|]. congruence.
  - assert (n = Z.to_nat (maxRetries cfg)) by lia. subst n.
    exists e. split; [exact He|].
    destruct (retryLoop cfg op _ 0 _ _) as [o ds cs]. cbn in *. congruence.
Qed.

(** X2.  Whatever the operation does, under a policy with
    [maxRetries >= 0] the wrapper calls it at least once and at most
    [maxRetries + 1] times and waits exactly once between two calls; the
    delays are the backoff schedule, so they depend on the policy and on
    the number of failures only, and each one after the first is at most
    [maxDelay]; the error after the loop is never thrown.  Under a
    policy whose [maxRetries] is negative the loop body is never
    entered: the operation is not called at all, nothing is waited, and
    the wrapper throws the error that follows the loop. *)
Theorem withRetry_bounds (op : @Operation T) (config : PartialConfig) :
  let cfg := finalConfig config in
  let r := withRetry op config in
  (0 <= maxRetries cfg ->
   calls r = S (length (delays r)) /\
   Z.of_nat (calls r) <= maxRetries cfg + 1 /\
   delays r = backoff cfg (initialDelay cfg) (length (delays r)) /\
   Forall (fun d => d <= maxDelay cfg) (tl (delays r)) /\
   outcome r <> inr UnexpectedRetryFailure) /\
  (maxRetries cfg < 0 -> r = mkRun (inr UnexpectedRetryFailure) [] 0).
Proof.
  intros cfg r. split.
  - intros Hmax. unfold r, withRetry. fold cfg.
    destruct (retryLoop_run cfg op (Z.to_nat (maxRetries cfg + 1)) 0
                (initialDelay cfg) []) as (n & Hn & _ & Hdel & Hcalls & Hout);
      [lia|lia|].
    cbn [Nat.add app] in *.
    rewrite Hdel, Hcalls, backoff_length.
    repeat split; try lia.
    + destruct n as [|n]; cbn [backoff tl]; [constructor|].
      apply backoff_bounded. apply Z.le_min_r.
    + destruct Hout as [(v & _ & ->)|(e & _ & _ & ->)]; discriminate.
  - intros Hneg. unfold r, withRetry. fold cfg.
    replace (Z.to_nat (maxRetries cfg + 1)) with 0%nat by lia.
    reflexivity.
Qed.

End RetryRuns.

Lemma withRetry_exhausts_witness :
  exists e,
    Retry.withRetry (T := unit) (fun _ => inr (Retry.AxiosError (Some 503%Z)))
      (Retry.mkPartial (Some 2%Z) (Some 2000%Z) (Some 10000%Z) (Some 2%Z) None)
    = Retry.mkRun (inr (Retry.OperationFailedAfter 3 e)) [2000; 4000]%Z 3.
Proof.
  destruct (withRetry_exhausts (T := unit)
              (fun _ => inr (Retry.AxiosError (Some 503%Z)))
              (Retry.mkPartial (Some 2%Z) (Some 2000%Z) (Some 10000%Z) (Some 2%Z) None))
    as (e & _ & Hrun).
  - vm_compute. discriminate.
  - intros k _. eexists. reflexivity.
  - exists e. exact Hrun.
Defined.

(** ** Cache: capacity, overwriting, lookups *)

Section CacheRuns.
Import Cache.
Local Open Scope Z_scope.

Context {T : Type}.
Implicit Types (m : JsMap T) (e : CacheEntry T) (c : Cache.t T).

Lemma map_set_length_le key e m :
  (length (map_set key e m) <= S (length m))%nat.
Proof.
  induction m as [|[k e'] m IH]; simpl; [lia|].
  destruct (String.eqb k key); simpl; lia.
Qed.

Lemma map_set_length_existing key e e' m :
  map_get key m = Some e' -> length (map_set key e m) = length m.
Proof.
  induction m as [|[k e1] m IH]; simpl; [discriminate|].
  destruct (String.eqb k key); simpl; [reflexivity|].
  intros H. rewrite (IH H). reflexivity.
Qed.

Lemma map_delete_length_le key m :
  (length (map_delete key m) <= length m)%nat.
Proof.
  induction m as [|[k e'] m IH]; simpl; [lia|].
  destruct (String.eqb k key); simpl; lia.
Qed.

Lemma map_get_In key e m : map_get key m = Some e -> In (key, e) m.
Proof.
  induction m as [|[k e'] m IH]; simpl; [discriminate|].
  destruct (String.eqb_spec k key) as [->|Hne].
  - intros [= ->]. left. reflexivity.
  - intros H. right. auto.
Qed.

Lemma step_bounded c (op : Runs.CacheOp T) :
  Runs.bounded c -> exists c', Runs.step c op = Some c' /\ Runs.bounded c' /\ config c' = config c.
Proof.
  intros (Hwf & Hpos & Hlen). destruct op as [key v now|key now|]; cbn [Runs.step].
  - destruct (set_succeeds key v now c) as [c' Hset]; [left; exact Hpos|].
    exists c'. split; [exact Hset|].
    split; [split; [exact (set_wf _ _ _ _ _ Hwf Hset)|]|].
    + revert Hset. unfold Cache.set.
      destruct (Z.leb_spec (maxSize (config c)) (Z.of_nat (length (cache c)))) as [Hfull|Hroom].
      * destruct (cache c) as [|first rest] eqn:Hc; [discriminate|].
        cbn [oldestEntry].
        destruct (fold_older_spec rest first) as [Hin _].
        destruct (fold_left older rest first) as [k0 e0]. cbn [fst].
        intros [= <-]. cbn [cache config]. split; [exact Hpos|].
        unfold wf in Hwf. rewrite Hc in Hwf.
        pose proof (map_delete_length k0 e0 (first :: rest) Hwf Hin) as Hdel.
        pose proof (map_set_length_le key (mkEntry v (now + ttl (config c)))
                      (map_delete k0 (first :: rest))).
        change (Z.of_nat (length (map_set key (mkEntry v (now + ttl (config c)))
                                    (map_delete k0 (first :: rest))))
                <= maxSize (config c)).
        lia.
      * intros [= <-]. cbn [cache config]. split; [exact Hpos|].
        pose proof (map_set_length_le key (mkEntry v (now + ttl (config c))) (cache c)).
        lia.
    + revert Hset. unfold Cache.set.
      destruct (maxSize (config c) <=? Z.of_nat (length (cache c)));
        [destruct (oldestEntry (cache c)); [|discriminate]|];
        intros [= <-]; reflexivity.
  - eexists. split; [reflexivity|]. unfold Cache.get.
    destruct (map_get key (cache c)) as [e|]; [|cbn; repeat split; assumption].
    destruct (expiresAt e <? now); [|cbn; repeat split; assumption].
    cbn [snd cache config]. repeat split; try assumption.
    + apply map_delete_NoDup, Hwf.
    + cbn. pose proof (map_delete_length_le key (cache c)). lia.
  - eexists. split; [reflexivity|]. unfold clear, Runs.bounded, wf. cbn.
    repeat split; [constructor|lia|lia].
Qed.

Lemma run_bounded (ops : list (Runs.CacheOp T)) :
  forall c, Runs.bounded c ->
            exists c', Runs.run ops c = Some c' /\ Runs.bounded c' /\ config c' = config c.
Proof.
  induction ops as [|op ops IH]; intros c Hc; cbn [Runs.run]; [eauto|].
  destruct (step_bounded c op Hc) as (c1 & -> & Hc1 & Hcfg).
  destruct (IH c1 Hc1) as (c' & Hrun & Hc' & Hcfg').
  exists c'. split; [exact Hrun|]. split; [exact Hc'|congruence].
Qed.

(** X3.  A cache made with no capacity or with a capacity that is not
    negative never throws and never holds more entries than its
    capacity, whatever is set, looked up and cleared, in whatever
    order; its keys stay distinct and its configuration is the one it
    was made with.  A cache made with a negative capacity cannot be
    written: it is empty and yet counts as full, so [set] reduces an
    empty array of entries and throws. *)
Theorem cache_never_exceeds_capacity (ttl0 : Z) (maxSize0 : option Z)
        (ops : list (Runs.CacheOp T)) :
  ((forall n, maxSize0 = Some n -> 0 <= n) ->
   exists c,
     Runs.run ops (create ttl0 maxSize0) = Some c /\
     size c <= maxSize (config c) /\
     wf c /\
     config c = config (create (T := T) ttl0 maxSize0)) /\
  (forall n key (v : T) now,
      maxSize0 = Some n -> n < 0 ->
      Cache.set key v now (create ttl0 maxSize0) = None).
Proof.
  split.
  - intros Hcap.
    destruct (run_bounded ops (create ttl0 maxSize0)) as (c & Hrun & (Hwf & _ & Hlen) & Hcfg).
    + unfold Runs.bounded, wf, create. cbn. split; [constructor|].
      destruct maxSize0 as [n|]; [|lia].
      specialize (Hcap n eq_refl).
      destruct (Z.eqb_spec n 0); lia.
    + exists c. unfold size. auto.
  - intros n key v now -> Hn. unfold Cache.set, create. cbn [config cache maxSize length].
    destruct (Z.eqb_spec n 0); [lia|].
    destruct (Z.leb_spec n (Z.of_nat 0)); [reflexivity|lia].
Qed.

(** X4.  Setting a key that the cache already holds still evicts when the
    cache is full: the entry that expires first is deleted before the
    key is written, so when that entry is another key the cache ends up
    one entry smaller, although no key was added. *)
Theorem set_existing_key_evicts_when_full key v now c e :
  wf c -> full c -> map_get key (cache c) = Some e ->
  exists k0 e0 c',
    Cache.set key v now c = Some c' /\
    In (k0, e0) (cache c) /\
    (forall k e', In (k, e') (cache c) -> expiresAt e0 <= expiresAt e') /\
    map_get key (cache c') = Some (mkEntry v (now + ttl (config c))) /\
    (k0 <> key ->
     map_get k0 (cache c') = None /\ S (length (cache c')) = length (cache c)) /\
    (k0 = key -> length (cache c') = length (cache c)).
Proof.
  intros Hwf [Hne Hfull] Hkey.
  unfold Cache.set.
  destruct (Z.leb_spec (maxSize (config c)) (Z.of_nat (length (cache c)))); [|lia].
  destruct (cache c) as [|first rest] eqn:Hc; [congruence|].
  cbn [oldestEntry].
  destruct (fold_older_spec rest first) as [Hin Hmin].
  destruct (fold_left older rest first) as [k0 e0]. cbn [fst snd] in *.
  unfold wf in Hwf. rewrite Hc in Hwf.
  pose proof (map_delete_length k0 e0 (first :: rest) Hwf Hin) as Hdel.
  eexists k0, e0, _. split; [reflexivity|]. cbn [cache config].
  split; [exact Hin|].
  split; [intros k e' Hke; apply (Hmin (k, e') Hke)|].
  split; [apply map_get_set_eq|].
  split.
  - intros Hk0. split.
    + rewrite map_get_set_ne by congruence. apply map_get_delete_eq.
    + change (S (length (map_set key (mkEntry v (now + ttl (config c)))
                           (map_delete k0 (first :: rest))))
              = length (first :: rest)).
      rewrite (map_set_length_existing key _ e); [exact Hdel|].
      rewrite map_get_delete_ne by congruence. exact Hkey.
  - intros ->.
    change (length (map_set key (mkEntry v (now + ttl (config c)))
                      (map_delete key (first :: rest)))
            = length (first :: rest)).
    rewrite map_set_fresh by apply map_get_delete_eq.
    rewrite length_app. change (length [(key, mkEntry v (now + ttl (config c)))]) with 1%nat.
    lia.
Qed.

(** X5.  A lookup touches its own key only: the configuration and every
    other key are as before.  What it does under its own key depends on
    the entry alone: with no entry it reports a miss and changes
    nothing; with an entry whose expiry time is before the time of the
    lookup it reports a miss and deletes the entry; with any other
    entry it returns the stored value, whatever that is, and changes
    nothing. *)
Theorem get_touches_own_key_only key now c :
  let r := Cache.get key now c in
  config (snd r) = config c /\
  (forall k, k <> key -> map_get k (cache (snd r)) = map_get k (cache c)) /\
  (map_get key (cache c) = None -> r = (None, c)) /\
  (forall e, map_get key (cache c) = Some e -> expiresAt e < now ->
             fst r = None /\ map_get key (cache (snd r)) = None) /\
  (forall e, map_get key (cache c) = Some e -> now <= expiresAt e ->
             r = (Some (value e), c)).
Proof.
  unfold Cache.get.
  destruct (map_get key (cache c)) as [e|] eqn:Hget; cbn zeta.
  - destruct (Z.ltb_spec (expiresAt e) now) as [Hexp|Hlive]; cbn [fst snd cache config].
    + split; [reflexivity|]. split; [|split; [|split]].
      * intros k Hk. apply map_get_delete_ne. congruence.
      * discriminate.
      * intros e' _ _. split; [reflexivity|apply map_get_delete_eq].
      * intros e' [= <-] Hlive. lia.
    + split; [reflexivity|]. split; [reflexivity|]. split; [discriminate|]. split.
      * intros e' [= <-] Hexp. lia.
      * intros e' [= <-] _. reflexivity.
  - cbn [fst snd]. split; [reflexivity|]. split; [reflexivity|].
    split; [reflexivity|]. split; discriminate.
Qed.

End CacheRuns.

Lemma set_existing_key_evicts_when_full_witness :
  let c := Cache.mk [("a", Cache.mkEntry 1%Z 10%Z); ("b", Cache.mkEntry 2%Z 20%Z)]
                    (Cache.mkConfig 10%Z 2%Z) in
  exists k0 e0 c',
    Cache.set "b" 3%Z 15%Z c = Some c' /\
    In (k0, e0) (Cache.cache c) /\
    Cache.map_get "b" (Cache.cache c') = Some (Cache.mkEntry 3%Z 25%Z).
Proof.
  intros c.
  destruct (set_existing_key_evicts_when_full "b" 3%Z 15%Z c (Cache.mkEntry 2%Z 20%Z))
    as (k0 & e0 & c' & Hset & Hin & _ & Hget & _).
  - unfold Cache.wf. cbn. repeat constructor; cbn; intuition discriminate.
  - split; [discriminate|]. cbn. lia.
  - reflexivity.
  - exists k0, e0, c'. auto.
Defined.

(** ** Health monitor: windows between ticks *)

Section HealthWindows.
Import HealthMonitor Runs.
Local Open Scope Z_scope.

Lemma count_cons p e es :
  count p (e :: es) = (if p e then 1 else 0) + count p es.
Proof.
  unfold count. cbn [List.filter]. destruct (p e); cbn [length]; lia.
Qed.

Lemma count_nonneg p es : 0 <= count p es.
Proof. unfold count. lia. Qed.

Lemma count_failures_le es : count isFailure es <= count isRequest es.
Proof.
  induction es as [|[l [|]|h] es IH]; rewrite ?count_cons; cbn; try lia.
  unfold count. cbn. lia.
Qed.

(** The counters after a run of events are those before plus the number
    of events of each kind. *)
Lemma recordAll_counters es : forall m,
  requestCount (recordAll es m) = requestCount m + count isRequest es /\
  errorCount (recordAll es m) = errorCount m + count isFailure es /\
  cacheHits (recordAll es m) = cacheHits m + count isHit es /\
  cacheMisses (recordAll es m) = cacheMisses m + count isMiss es.
Proof.
  induction es as [|e es IH]; intros m.
  - unfold count. cbn. lia.
  - change (recordAll (e :: es) m) with (recordAll es (record m e)).
    destruct (IH (record m e)) as (-> & -> & -> & ->).
    rewrite !count_cons.
    destruct e as [l [|]|[|]]; cbn; lia.
Qed.

Lemma recordAll_rates es m :
  freshWindow m ->
  computeErrorRate (recordAll es m) = errorRateOf es /\
  computeCacheHitRate (recordAll es m) = hitRateOf es.
Proof.
  intros (He & Hr & Hh & Hm).
  unfold computeErrorRate, computeCacheHitRate, errorRateOf, hitRateOf.
  destruct (recordAll_counters es m) as (-> & -> & -> & ->).
  rewrite He, Hr, Hh, Hm, !Z.add_0_l. split; reflexivity.
Qed.

Lemma Qle_bool_ratio (a : Z) (b : positive) (x y : Z) :
  0 < y ->
  (Qle_bool (a # b) (inject_Z x / inject_Z y) = true <-> a * y <= Zpos b * x).
Proof.
  intros Hy. rewrite Qle_bool_iff.
  destruct y as [|p|p]; try lia.
  unfold Qle, Qdiv, Qmult, Qinv, inject_Z. cbn.
  rewrite Z.mul_1_r. nia.
Qed.

Lemma Qgeb_ratio (a : Z) (b : positive) (x y : Z) :
  0 < y -> Qgeb (inject_Z x / inject_Z y) (a # b) = (a * y <=? Zpos b * x).
Proof.
  intros Hy. unfold Qgeb. apply Bool.eq_iff_eq_true.
  rewrite (Qle_bool_ratio a b x y Hy), Z.leb_le. reflexivity.
Qed.

Lemma Qltb_ratio (a : Z) (b : positive) (x y : Z) :
  0 < y -> Qltb (inject_Z x / inject_Z y) (a # b) = (Zpos b * x <? a * y).
Proof.
  intros Hy. unfold Qltb. fold (Qgeb (inject_Z x / inject_Z y) (a # b)).
  rewrite (Qgeb_ratio a b x y Hy), Z.ltb_antisym. reflexivity.
Qed.

(** X6.  What a tick reports is decided by the events recorded since the
    tick before it, and by nothing earlier.  In terms of the number of
    requests [R], of failed requests [F], of cache hits [H] and of cache
    accesses [A] of that window: the status is unhealthy exactly when
    requests were made and at least one in ten failed, or the cache was
    accessed and fewer than three in ten accesses hit; it is healthy
    exactly when fewer than one request in twenty failed and at least
    half of the cache accesses hit, a window without requests or without
    cache accesses passing the respective test; and the tick leaves
    all counters at zero. *)
Theorem tick_reports_last_window (now0 now : Z) (es : list Event) (m : HealthMonitor.t) :
  let m1 := checkHealth now (recordAll es (checkHealth now0 m)) in
  let R := count isRequest es in
  let F := count isFailure es in
  let H := count isHit es in
  let A := count isHit es + count isMiss es in
  (status (getStatus m1) = unhealthy
   <-> (0 < R /\ R <= 10 * F) \/ (0 < A /\ 10 * H < 3 * A)) /\
  (status (getStatus m1) = healthy
   <-> (R = 0 \/ 20 * F < R) /\ (A = 0 \/ A <= 2 * H)) /\
  freshWindow m1 /\
  lastCheck (getStatus m1) = now.
Proof.
  intros m1 R F H A.
  assert (Hfresh : freshWindow (checkHealth now0 m)) by (repeat split).
  destruct (recordAll_rates es _ Hfresh) as [He Hh].
  assert (Hst : status (getStatus m1) = determineStatus (errorRateOf es) (hitRateOf es)).
  { unfold m1, getStatus. unfold checkHealth at 1. cbn [hstatus status].
    rewrite He, Hh. reflexivity. }
  rewrite Hst. clear Hst He Hh Hfresh.
  split; [|split; [|split; [repeat split|reflexivity]]];
    unfold determineStatus, errorRateOf, hitRateOf;
    change (count isHit es + count isMiss es) with A; fold R F H;
    fold (Qgeb (inject_Z F / inject_Z R) (1 # 10));
    destruct (Z.ltb_spec 0 R) as [HR|HR]; destruct (Z.ltb_spec 0 A) as [HA|HA];
    rewrite ?Qgeb_ratio, ?Qltb_ratio by assumption;
    change (Qgeb 0 (1 # 10)) with false; change (Qgeb 0 (5 # 100)) with false;
    change (Qltb 1 (3 # 10)) with false; change (Qltb 1 (5 # 10)) with false;
    pose proof (count_nonneg isRequest es : 0 <= R) as HR0;
    assert (HA0 : 0 <= A)
      by (pose proof (count_nonneg isHit es); pose proof (count_nonneg isMiss es);
          unfold A; lia);
    clearbody R F H A;
    repeat match goal with
           | |- context [Z.leb ?a ?b] => destruct (Z.leb_spec a b)
           | |- context [Z.ltb ?a ?b] => destruct (Z.ltb_spec a b)
           end;
    cbn [orb]; split; intros Hyp; try reflexivity; try discriminate; lia.
Qed.

Lemma recordAll_app es1 es2 m :
  recordAll (es1 ++ es2) m = recordAll es2 (recordAll es1 m).
Proof. unfold recordAll. apply fold_left_app. Qed.

(** X7.  Between two ticks the monitor answers with what the last tick
    computed: whatever is recorded, the status, the time of the check
    and the two rates it reports do not move.  The latency alone follows
    the traffic: it is that of the last completed request, and a tick
    carries it over into the next window. *)
Theorem status_is_stale_between_ticks (now : Z) (es : list Event) (m : HealthMonitor.t) :
  let s0 := getStatus m in
  let s := getStatus (recordAll es m) in
  status s = status s0 /\
  lastCheck s = lastCheck s0 /\
  errorRate (details s) = errorRate (details s0) /\
  cacheHitRate (details s) = cacheHitRate (details s0) /\
  apiLatency (details s) = lastLatency es (apiLatency (details s0)) /\
  apiLatency (details (getStatus (checkHealth now (recordAll es m))))
  = lastLatency es (apiLatency (details s0)).
Proof.
  cbv zeta. unfold getStatus.
  assert (H : status (hstatus (recordAll es m)) = status (hstatus m) /\
              lastCheck (hstatus (recordAll es m)) = lastCheck (hstatus m) /\
              errorRate (details (hstatus (recordAll es m))) = errorRate (details (hstatus m)) /\
              cacheHitRate (details (hstatus (recordAll es m)))
              = cacheHitRate (details (hstatus m)) /\
              apiLatency (details (hstatus (recordAll es m)))
              = lastLatency es (apiLatency (details (hstatus m)))).
  { revert m. induction es as [|e es IH]; intros m; [repeat split|].
    change (recordAll (e :: es) m) with (recordAll es (record m e)).
    destruct (IH (record m e)) as (-> & -> & -> & -> & ->).
    destruct e as [l b|h]; cbn; repeat split. }
  destruct H as (H1 & H2 & H3 & H4 & H5).
  repeat split; assumption.
Qed.

End HealthWindows.


(* ===================================================================== *)
(** * Further properties of the engine *)
(* ===================================================================== *)

Section EngineFootprint.
Import Js ChatService Props Footprint.
Local Open Scope string_scope.

Context {World : Type}.
Variable callTool : World -> string -> Args -> World * MCPToolResult.
Variable JSON_parse : string -> option Json.
Variable JSON_stringify : Json -> string.
Variable ToString : Any -> string.
Variable toLowerCase : string -> string.

Local Abbreviation dispatch :=
  (ChatService.dispatch World callTool JSON_parse JSON_stringify ToString toLowerCase).
Local Abbreviation executeOne :=
  (ChatService.executeOne World callTool JSON_parse JSON_stringify ToString toLowerCase).
Local Abbreviation executeMCPTools :=
  (ChatService.executeMCPTools World callTool JSON_parse JSON_stringify ToString toLowerCase).
Local Abbreviation authFailed := (ChatService.authFailed JSON_stringify).
Local Abbreviation carts := (cartsByConversation World).
Local Abbreviation modes := (deliveryModesByConversation World).
Local Abbreviation orders := (lastOrderCodeByConversation World).

Implicit Types (st : State World) (tc : ToolCall) (conv : string) (tok : Any).

(** *** What a tool execution may write *)

Lemma footprint_refl conv wc wm st : footprint conv wc wm st st.
Proof. unfold footprint. auto. Qed.

Lemma footprint_trans conv wc wm st1 st2 st3 :
  footprint conv wc wm st1 st2 -> footprint conv wc wm st2 st3 ->
  footprint conv wc wm st1 st3.
Proof.
  intros (Ho & Hc & Hwc & Hm & Hwm) (Ho' & Hc' & Hwc' & Hm' & Hwm').
  unfold footprint. repeat split.
  - congruence.
  - intros c Hne. rewrite Hc', Hc; auto.
  - intros H. rewrite Hwc', Hwc; auto.
  - intros c Hne. rewrite Hm', Hm; auto.
  - intros H. rewrite Hwm', Hwm; auto.
Qed.

Lemma footprint_weaken conv wc wm st st' :
  footprint conv wc wm st st' -> footprint conv true true st st'.
Proof.
  intros (Ho & Hc & _ & Hm & _). unfold footprint.
  repeat split; auto; discriminate.
Qed.

Lemma within_ret {A} conv wc wm (a : A) : within conv wc wm (ret World a).
Proof. intros st. apply footprint_refl. Qed.

Lemma within_throw {A} conv wc wm (msg : string) : within conv wc wm (@throw World A msg).
Proof. intros st. apply footprint_refl. Qed.

Lemma within_lift {A} conv wc wm (r : Result A) : within conv wc wm (lift World r).
Proof. intros st. apply footprint_refl. Qed.

Lemma within_gets {A} conv wc wm (f : State World -> A) : within conv wc wm (gets World f).
Proof. intros st. apply footprint_refl. Qed.

Lemma within_mcpCallTool conv wc wm nm args :
  within conv wc wm (mcpCallTool World callTool nm args).
Proof.
  intros st. unfold mcpCallTool. destruct (callTool _ _ _).
  unfold footprint. cbn. auto.
Qed.

Lemma within_delete conv wm :
  within conv true wm (modify World (withCarts World (delete conv))).
Proof.
  intros st. unfold footprint. cbn. repeat split; auto; try discriminate.
  intros c Hne. apply lookup_delete_ne. congruence.
Qed.

Lemma within_insert conv wm cid :
  within conv true wm (modify World (withCarts World (insert conv cid))).
Proof.
  intros st. unfold footprint. cbn. repeat split; auto; try discriminate.
  intros c Hne. apply lookup_insert_ne. congruence.
Qed.

Lemma storeDeliveryModesLoop_elsewhere conv contents :
  forall (known : gmap string (list Json)) c,
    c <> conv ->
    storeDeliveryModesLoop JSON_parse ToString conv contents known !! c = known !! c.
Proof.
  induction contents as [|x contents IH]; intros known c Hne; [reflexivity|].
  cbn [storeDeliveryModesLoop]. unfold storeDeliveryModesOf.
  destruct (truthy x); [|apply IH, Hne].
  destruct (parseIfString _ _ _) as [data|]; [|reflexivity].
  destruct (prop "deliveryModes" data) as [[[]|]|]; try reflexivity; try (apply IH, Hne).
  destruct (existsb isNull items).
  - apply lookup_insert_ne. congruence.
  - rewrite IH by exact Hne. apply lookup_insert_ne. congruence.
Qed.

Lemma within_storeDeliveryModes conv wc contents :
  within conv wc true (storeDeliveryModes World JSON_parse ToString conv contents).
Proof.
  intros st. unfold footprint. cbn. repeat split; auto; try discriminate.
  intros c Hne. apply storeDeliveryModesLoop_elsewhere, Hne.
Qed.

Lemma within_bind {A B} conv wc wm (c : M World A) (k : A -> M World B) :
  within conv wc wm c -> (forall a, within conv wc wm (k a)) ->
  within conv wc wm (bind World c k).
Proof.
  intros Hc Hk st. unfold bind. specialize (Hc st).
  destruct (c st) as [st' [a|msg]] eqn:Hcst; cbn [fst] in *; [|exact Hc].
  eapply footprint_trans; [exact Hc|apply Hk].
Qed.

Ltac within_step :=
  first
    [ apply within_ret | apply within_throw | apply within_lift | apply within_gets
    | apply within_mcpCallTool | apply within_storeDeliveryModes
    | apply within_delete | apply within_insert
    | apply within_bind; [|intros ?]
    | match goal with
      | |- within _ _ _ (if ?b then _ else _) => destruct b eqn:?
      | |- within _ _ _ (match ?x with _ => _ end) => destruct x eqn:?
      end ].

Lemma dispatch_within tc conv tok :
  within conv (writesCarts (classify (name tc))) (writesModes (classify (name tc)))
         (dispatch tc conv tok).
Proof.
  unfold ChatService.dispatch, field, storedCart.
  destruct (classify (name tc)); cbn [writesCarts writesModes]; repeat within_step.
Qed.

Lemma executeOne_within tc conv tok st :
  footprint conv (writesCarts (classify (name tc))) (writesModes (classify (name tc)))
            st (fst (executeOne tc conv tok st)).
Proof.
  pose proof (dispatch_within tc conv tok st) as Hd.
  unfold ChatService.executeOne.
  destruct (dispatch tc conv tok st) as [st' [result|msg]]; cbn [fst] in *; [|exact Hd].
  destruct (authFailed result); exact Hd.
Qed.

Lemma executeMCPTools_within calls conv tok st :
  footprint conv true true st (fst (executeMCPTools calls conv tok st)).
Proof.
  revert st. induction calls as [|tc rest IH]; intros st; [apply footprint_refl|].
  rewrite executeMCPTools_cons. cbn [fst].
  eapply footprint_trans; [|apply IH].
  eapply footprint_weaken, executeOne_within.
Qed.

(** X8.  Of the three maps of the service, a tool execution never
    writes the order map; it writes the cart map only when the tool is
    place-order, create-cart or add-to-cart, and the delivery-mode map
    only when the tool is get-delivery-modes; and what it writes is the
    entry of its own conversation: the carts and the delivery modes of
    every other conversation are as before. *)
Theorem executeOne_writes tc conv tok st :
  let st' := fst (executeOne tc conv tok st) in
  let kind := classify (name tc) in
  orders st' = orders st /\
  (writesCarts kind = false -> carts st' = carts st) /\
  (writesModes kind = false -> modes st' = modes st) /\
  (forall other, other <> conv ->
                 carts st' !! other = carts st !! other /\
                 modes st' !! other = modes st !! other).
Proof.
  destruct (executeOne_within tc conv tok st) as (Ho & Hc & Hwc & Hm & Hwm).
  cbv zeta. repeat split; auto.
Qed.

Context {Prompt : Type}.

Local Abbreviation toolPhase :=
  (ChatService.toolPhase World callTool JSON_parse JSON_stringify ToString toLowerCase Prompt).
Local Abbreviation requestedPhase :=
  (ChatService.requestedPhase World callTool JSON_parse JSON_stringify ToString toLowerCase Prompt).
Local Abbreviation autoPlaceOrder :=
  (ChatService.autoPlaceOrder World callTool JSON_parse JSON_stringify ToString toLowerCase Prompt).
Local Abbreviation autoDeliveryModes :=
  (ChatService.autoDeliveryModes World callTool JSON_parse JSON_stringify ToString toLowerCase Prompt).

Implicit Types (req : ChatRequest Prompt).

Lemma requestedPhase_eq req calls st :
  requestedPhase req calls st
  = (fst (executeMCPTools calls (conversationId Prompt req) (userAccessToken Prompt req) st),
     mkToolPhase calls
       (snd (executeMCPTools calls (conversationId Prompt req) (userAccessToken Prompt req) st))
       (map name calls)
       (collectProducts
          (snd (executeMCPTools calls (conversationId Prompt req)
                                (userAccessToken Prompt req) st)))).
Proof.
  unfold ChatService.requestedPhase.
  destruct (executeMCPTools calls _ _ st) as [st1 results]. reflexivity.
Qed.

Lemma autoPlaceOrder_eq req ph st :
  autoPlaceOrder req ph st
  = if includesName "set-payment-details" (toolsUsed ph)
       && presentWithoutError
            (resultOf "set-payment-details" (allCalls ph) (toolResults ph))
    then
      let call := mkCall (placeOrderId Prompt req) "place-order" in
      let out := executeOne call (conversationId Prompt req) (userAccessToken Prompt req) st in
      (fst out, mkToolPhase (allCalls ph ++ [call]) (toolResults ph ++ [snd out])
                            (toolsUsed ph ++ ["place-order"]) (products ph))
    else (st, ph).
Proof.
  unfold ChatService.autoPlaceOrder.
  destruct (_ && _); [|reflexivity].
  rewrite executeMCPTools_one. reflexivity.
Qed.

Lemma autoDeliveryModes_eq req ph st :
  autoDeliveryModes req ph st
  = if includesName "set-delivery-address" (toolsUsed ph)
       && presentWithoutError
            (resultOf "set-delivery-address" (allCalls ph) (toolResults ph))
    then
      let call := mkCall (deliveryModesId Prompt req) "get-delivery-modes" in
      let out := executeOne call (conversationId Prompt req) (userAccessToken Prompt req) st in
      (fst (storeDeliveryModes World JSON_parse ToString (conversationId Prompt req)
              [r_content (snd out)] (fst out)),
       mkToolPhase (allCalls ph ++ [call]) (toolResults ph ++ [snd out])
                   (toolsUsed ph ++ ["get-delivery-modes"]) (products ph))
    else (st, ph).
Proof.
  unfold ChatService.autoDeliveryModes.
  destruct (_ && _); [|reflexivity].
  rewrite executeMCPTools_one. cbn [fst snd map].
  destruct (storeDeliveryModes _ _ _ _ _ _) as [st2 u]. reflexivity.
Qed.

Lemma toolPhase_eq req calls st :
  toolPhase req calls st
  = autoDeliveryModes req
      (snd (autoPlaceOrder req (snd (requestedPhase req calls st))
                           (fst (requestedPhase req calls st))))
      (fst (autoPlaceOrder req (snd (requestedPhase req calls st))
                           (fst (requestedPhase req calls st)))).
Proof.
  unfold ChatService.toolPhase.
  destruct (requestedPhase req calls st) as [st1 ph1]. cbn [fst snd].
  destruct (autoPlaceOrder req ph1 st1) as [st2 ph2]. reflexivity.
Qed.

Lemma autoPlaceOrder_within req ph st :
  footprint (conversationId Prompt req) true true st (fst (autoPlaceOrder req ph st)).
Proof.
  rewrite autoPlaceOrder_eq. destruct (_ && _); [|apply footprint_refl].
  cbn [fst]. eapply footprint_weaken, executeOne_within.
Qed.

Lemma autoDeliveryModes_within req ph st :
  footprint (conversationId Prompt req) true true st (fst (autoDeliveryModes req ph st)).
Proof.
  rewrite autoDeliveryModes_eq. destruct (_ && _); [|apply footprint_refl].
  cbn [fst]. eapply footprint_trans.
  - eapply footprint_weaken, executeOne_within.
  - apply within_storeDeliveryModes.
Qed.

(** X9.  The tool part of a turn, with the calls the provider asked
    for and those the service adds, is confined to the conversation of
    the request: it leaves the cart and the delivery modes of every
    other conversation, and the whole order map, as they were. *)
Theorem toolPhase_confined req calls st (other : string) :
  other <> conversationId Prompt req ->
  let st' := fst (toolPhase req calls st) in
  carts st' !! other = carts st !! other /\
  modes st' !! other = modes st !! other /\
  orders st' = orders st.
Proof.
  intros Hne.
  assert (H : footprint (conversationId Prompt req) true true st (fst (toolPhase req calls st))).
  { rewrite toolPhase_eq.
    eapply footprint_trans; [|apply autoDeliveryModes_within].
    eapply footprint_trans; [|apply autoPlaceOrder_within].
    rewrite requestedPhase_eq. cbn [fst]. apply executeMCPTools_within. }
  destruct H as (Ho & Hc & _ & Hm & _). cbv zeta. auto.
Qed.

End EngineFootprint.


Section EngineResults.
Import Js ChatService Props Footprint.
Local Open Scope string_scope.

Context {World : Type}.
Variable callTool : World -> string -> Args -> World * MCPToolResult.
Variable JSON_parse : string -> option Json.
Variable JSON_stringify : Json -> string.
Variable ToString : Any -> string.
Variable toLowerCase : string -> string.

Local Abbreviation dispatch :=
  (ChatService.dispatch World callTool JSON_parse JSON_stringify ToString toLowerCase).
Local Abbreviation executeOne :=
  (ChatService.executeOne World callTool JSON_parse JSON_stringify ToString toLowerCase).
Local Abbreviation executeMCPTools :=
  (ChatService.executeMCPTools World callTool JSON_parse JSON_stringify ToString toLowerCase).
Local Abbreviation authFailed := (ChatService.authFailed JSON_stringify).
Local Abbreviation parseProducts := (ChatService.parseProducts JSON_parse ToString).
Local Abbreviation resultBlock := (ChatService.resultBlock JSON_stringify).
Local Abbreviation carts := (cartsByConversation World).
Local Abbreviation modes := (deliveryModesByConversation World).
Local Abbreviation orders := (lastOrderCodeByConversation World).

Implicit Types (st : State World) (tc : ToolCall) (conv : string) (tok : Any).

Context {Prompt : Type}.

Local Abbreviation toolPhase :=
  (ChatService.toolPhase World callTool JSON_parse JSON_stringify ToString toLowerCase Prompt).
Local Abbreviation requestedPhase :=
  (ChatService.requestedPhase World callTool JSON_parse JSON_stringify ToString toLowerCase Prompt).
Local Abbreviation autoPlaceOrder :=
  (ChatService.autoPlaceOrder World callTool JSON_parse JSON_stringify ToString toLowerCase Prompt).
Local Abbreviation autoDeliveryModes :=
  (ChatService.autoDeliveryModes World callTool JSON_parse JSON_stringify ToString toLowerCase Prompt).

Implicit Types (req : ChatRequest Prompt).

(** *** Calls and results of a turn *)

(** X10.  What the tool part of a turn hands to the second provider
    call lines up: there is one result per call, in the order of the
    calls and under their ids, and the names reported as used are the
    names of the calls.  The calls are those the provider asked for,
    followed by those the service adds, which are at most a place-order
    and then a get-delivery-modes; the products are those of the calls
    the provider asked for. *)
Theorem toolPhase_lines_up req calls st :
  let ph := snd (toolPhase req calls st) in
  let placeOrder := mkCall (placeOrderId Prompt req) "place-order" in
  let getModes := mkCall (deliveryModesId Prompt req) "get-delivery-modes" in
  map tool_use_id (toolResults ph) = map id (allCalls ph) /\
  toolsUsed ph = map name (allCalls ph) /\
  (exists added, allCalls ph = (calls ++ added)%list /\
                 (added = [] \/ added = [placeOrder] \/ added = [getModes] \/
                  added = [placeOrder; getModes])) /\
  products ph
  = collectProducts
      (snd (executeMCPTools calls (conversationId Prompt req)
                            (userAccessToken Prompt req) st)).
Proof.
  cbv zeta. rewrite (toolPhase_eq callTool JSON_parse JSON_stringify ToString toLowerCase).
  rewrite (requestedPhase_eq callTool JSON_parse JSON_stringify ToString toLowerCase).
  cbn [fst snd].
  set (conv := conversationId Prompt req). set (tok := userAccessToken Prompt req).
  set (out1 := executeMCPTools calls conv tok st).
  rewrite (autoPlaceOrder_eq callTool JSON_parse JSON_stringify ToString toLowerCase).
  cbn [allCalls toolResults toolsUsed products].
  destruct (includesName "set-payment-details" (map name calls)
            && presentWithoutError (resultOf "set-payment-details" calls (snd out1)));
    cbv zeta; cbn [fst snd];
    rewrite (autoDeliveryModes_eq callTool JSON_parse JSON_stringify ToString toLowerCase);
    cbn [allCalls toolResults toolsUsed products];
    match goal with
    | |- context [if ?b then _ else _] => destruct b
    end;
    cbv zeta; cbn [fst snd allCalls toolResults toolsUsed products];
    fold conv tok;
    rewrite ?map_app; cbn [map];
    rewrite ?(executeOne_id callTool JSON_parse JSON_stringify ToString toLowerCase);
    unfold out1;
    rewrite (executeMCPTools_ids callTool JSON_parse JSON_stringify ToString toLowerCase);
    (split; [reflexivity|]); (split; [reflexivity|]); (split; [|reflexivity]).
  - eexists. rewrite <- app_assoc. split; [reflexivity|]. auto.
  - eexists. split; [reflexivity|]. auto.
  - eexists. split; [reflexivity|]. auto.
  - exists []. rewrite app_nil_r. auto.
Qed.

(** The products of a turn are those of the calls that the provider
    asked for. *)
Lemma toolPhase_products req calls st :
  products (snd (toolPhase req calls st))
  = collectProducts
      (snd (executeMCPTools calls (conversationId Prompt req)
                            (userAccessToken Prompt req) st)).
Proof.
  rewrite (toolPhase_eq callTool JSON_parse JSON_stringify ToString toLowerCase).
  rewrite (requestedPhase_eq callTool JSON_parse JSON_stringify ToString toLowerCase).
  cbn [fst snd].
  rewrite (autoPlaceOrder_eq callTool JSON_parse JSON_stringify ToString toLowerCase).
  cbn [allCalls toolResults toolsUsed products].
  destruct (_ && _); cbv zeta; cbn [fst snd];
    rewrite (autoDeliveryModes_eq callTool JSON_parse JSON_stringify ToString toLowerCase);
    destruct (_ && _); reflexivity.
Qed.

Lemma pushProducts_length (items : list Json) :
  (length (pushProducts items) <= length items)%nat.
Proof.
  induction items as [|p items IH]; [reflexivity|].
  destruct p; cbn [pushProducts length]; lia.
Qed.

Lemma charactersWithin_le (s : string) (units : nat) :
  (charactersWithin units s <= units)%nat.
Proof.
  revert units. induction s as [|c s IH]; intros units; cbn [charactersWithin]; [lia|].
  destruct (unitsOf c) as [|u]; [apply IH|].
  destruct units as [|remaining]; [lia|].
  specialize (IH (remaining - u)%nat). lia.
Qed.

Lemma parseProducts_length (mcpResponse : Any) :
  (length (parseProducts mcpResponse) <= 5)%nat.
Proof.
  unfold ChatService.parseProducts.
  destruct (parseIfString _ _ _) as [data|]; [|cbn; lia].
  destruct (prop "products" data) as [found|]; [|cbn; lia].
  destruct (jor found (Some (JArr []))) as [[]|]; try (cbn; lia).
  - rewrite repeat_length. apply charactersWithin_le.
  - etransitivity; [apply pushProducts_length|]. rewrite length_firstn. lia.
Qed.

Lemma executeOne_products tc conv tok st :
  (length (match r_products (snd (executeOne tc conv tok st)) with
           | Some ps => ps
           | None => []
           end)
   <= if isSearch (name tc) then 5 else 0)%nat.
Proof.
  unfold ChatService.executeOne.
  destruct (dispatch tc conv tok st) as [st' [result|msg]]; cbn [snd r_products].
  - destruct (authFailed result); cbn [snd r_products].
    + destruct (isSearch (name tc)); cbn; lia.
    + destruct (isSearch (name tc)); cbn [andb]; [|cbn; lia].
      destruct (negb (isError result)); [apply parseProducts_length|cbn; lia].
  - destruct (isSearch (name tc)); cbn; lia.
Qed.

(** X11.  Products come from product searches only, and at most five
    from each: the number of products found in a turn is at most five
    times the number of search-products and search-products-advanced
    calls the provider asked for, whatever the backend returns. *)
Theorem products_at_most_five_per_search req calls st :
  (length (products (snd (toolPhase req calls st))) <= 5 * searches calls)%nat.
Proof.
  rewrite toolPhase_products.
  generalize (conversationId Prompt req) (userAccessToken Prompt req).
  intros conv tok. revert st.
  induction calls as [|tc rest IH]; intros st; [cbn; lia|].
  rewrite (executeMCPTools_cons callTool JSON_parse JSON_stringify ToString toLowerCase).
  cbn [snd collectProducts flat_map]. rewrite length_app.
  pose proof (executeOne_products tc conv tok st) as Hone.
  specialize (IH (fst (executeOne tc conv tok st))).
  unfold collectProducts in IH. unfold searches in *. cbn [List.filter].
  destruct (isSearch (name tc)); cbn [length]; lia.
Qed.

(** X12.  Every run of tool executions leaves only truthy cart ids in
    the cart map: an id that reads as false is never stored, so that a
    cart id that reads as false always means that the conversation has
    no cart.  The same holds for the whole tool part of a turn. *)
Theorem toolPhase_cartsTruthy req calls st :
  cartsTruthy (carts st) ->
  cartsTruthy (carts (fst (toolPhase req calls st))) /\
  forall conv, truthy (carts (fst (toolPhase req calls st)) !! conv) = false ->
               carts (fst (toolPhase req calls st)) !! conv = None.
Proof.
  intros H.
  assert (Hall : cartsTruthy (carts (fst (toolPhase req calls st)))).
  { rewrite (toolPhase_eq callTool JSON_parse JSON_stringify ToString toLowerCase).
    rewrite (autoDeliveryModes_eq callTool JSON_parse JSON_stringify ToString toLowerCase).
    assert (H2 : cartsTruthy
                   (carts (fst (autoPlaceOrder req (snd (requestedPhase req calls st))
                                               (fst (requestedPhase req calls st)))))).
    { rewrite (autoPlaceOrder_eq callTool JSON_parse JSON_stringify ToString toLowerCase).
      assert (H1 : cartsTruthy (carts (fst (requestedPhase req calls st)))).
      { rewrite (requestedPhase_eq callTool JSON_parse JSON_stringify ToString toLowerCase).
        cbn [fst]. apply executeMCPTools_cartsTruthy, H. }
      destruct (_ && _); [|exact H1].
      cbv zeta. cbn [fst]. apply executeOne_cartsTruthy, H1. }
    destruct (_ && _); [|exact H2].
    cbv zeta. cbn [fst]. unfold storeDeliveryModes, modify, withModes. cbn [fst carts].
    apply executeOne_cartsTruthy, H2. }
  split; [exact Hall|].
  intros conv Hfalse.
  destruct (carts (fst (toolPhase req calls st)) !! conv) as [cid|] eqn:Hlook; [|reflexivity].
  rewrite (Hall conv cid Hlook) in Hfalse. discriminate.
Qed.

(** *** Tools that are not called *)

Lemma classify_unknown_not_search (nm : string) :
  classify nm = UnknownTool -> isSearch nm = false.
Proof.
  intros H. unfold isSearch.
  destruct (String.eqb_spec nm "search-products") as [->|_]; [discriminate|].
  destruct (String.eqb_spec nm "search-products-advanced") as [->|_]; [discriminate|].
  reflexivity.
Qed.

(** X13.  A call to a tool that is not one of the twenty-one of the
    switch makes no call through the client and changes nothing; its
    result carries neither content nor error nor products, so that the
    provider is handed a result block without content: that the tool is
    unknown is not reported. *)
Theorem unknown_tool_is_silent tc conv tok st :
  classify (name tc) = UnknownTool ->
  executeOne tc conv tok st = (st, mkToolResult (id tc) None (Some []) None) /\
  resultBlock (snd (executeOne tc conv tok st)) = mkToolResultBlock (id tc) None.
Proof.
  intros Hk.
  assert (H : executeOne tc conv tok st = (st, mkToolResult (id tc) None (Some []) None)).
  { unfold ChatService.executeOne, ChatService.dispatch. rewrite Hk.
    unfold ret. cbn [ChatService.authFailed isError andb content].
    rewrite (classify_unknown_not_search _ Hk). reflexivity. }
  rewrite H. split; reflexivity.
Qed.

End EngineResults.


Section EngineCalls.
Import Js ChatService Props Footprint.
Local Open Scope string_scope.

Context {World : Type}.
Variable callTool : World -> string -> Args -> World * MCPToolResult.
Variable JSON_parse : string -> option Json.
Variable JSON_stringify : Json -> string.
Variable ToString : Any -> string.
Variable toLowerCase : string -> string.

Local Abbreviation dispatch :=
  (ChatService.dispatch World callTool JSON_parse JSON_stringify ToString toLowerCase).
Local Abbreviation executeOne :=
  (ChatService.executeOne World callTool JSON_parse JSON_stringify ToString toLowerCase).
Local Abbreviation executeMCPTools :=
  (ChatService.executeMCPTools World callTool JSON_parse JSON_stringify ToString toLowerCase).
Local Abbreviation authFailed := (ChatService.authFailed JSON_stringify).
Local Abbreviation carts := (cartsByConversation World).
Local Abbreviation modes := (deliveryModesByConversation World).
Local Abbreviation orders := (lastOrderCodeByConversation World).

Implicit Types (st : State World) (tc : ToolCall) (conv : string) (tok : Any).

(** *** The calls made through the client *)

Lemma lookupKind_In (nm : string) (table : list (string * ToolKind)) :
  lookupKind nm table = UnknownTool \/ In (nm, lookupKind nm table) table.
Proof.
  induction table as [|[k kind] table IH]; [left; reflexivity|].
  cbn [lookupKind]. destruct (String.eqb_spec k nm) as [->|Hne].
  - right. left. reflexivity.
  - destruct IH as [IH|IH]; [left; exact IH|right; right; exact IH].
Qed.

Lemma emits_ret {A} allowed (a : A) : emits allowed (ret World a).
Proof. intros st. exists []. rewrite app_nil_r. split; [reflexivity|constructor]. Qed.

Lemma emits_throw {A} allowed (msg : string) : emits allowed (@throw World A msg).
Proof. intros st. exists []. rewrite app_nil_r. split; [reflexivity|constructor]. Qed.

Lemma emits_lift {A} allowed (r : Result A) : emits allowed (lift World r).
Proof. intros st. exists []. rewrite app_nil_r. split; [reflexivity|constructor]. Qed.

Lemma emits_gets {A} allowed (f : State World -> A) : emits allowed (gets World f).
Proof. intros st. exists []. rewrite app_nil_r. split; [reflexivity|constructor]. Qed.

Lemma emits_modify allowed (f : gmap string Json -> gmap string Json) :
  emits allowed (modify World (withCarts World f)).
Proof. intros st. exists []. rewrite app_nil_r. split; [reflexivity|constructor]. Qed.

Lemma emits_storeDeliveryModes allowed conv contents :
  emits allowed (storeDeliveryModes World JSON_parse ToString conv contents).
Proof. intros st. exists []. rewrite app_nil_r. split; [reflexivity|constructor]. Qed.

Lemma emits_mcpCallTool (allowed : string -> Prop) nm args :
  allowed nm -> emits allowed (mcpCallTool World callTool nm args).
Proof.
  intros Hnm st. exists [(nm, args)]. unfold mcpCallTool.
  destruct (callTool _ _ _). cbn. split; [reflexivity|repeat constructor; exact Hnm].
Qed.

Lemma emits_bind {A B} allowed (c : M World A) (k : A -> M World B) :
  emits allowed c -> (forall a, emits allowed (k a)) -> emits allowed (bind World c k).
Proof.
  intros Hc Hk st. unfold bind. destruct (Hc st) as (e1 & He1 & Hall1).
  destruct (c st) as [st' [a|msg]]; cbn [fst] in *; [|eauto].
  destruct (Hk a st') as (e2 & He2 & Hall2).
  exists (e1 ++ e2)%list. rewrite He2, He1, app_assoc.
  split; [reflexivity|apply Forall_app; auto].
Qed.

Ltac emits_step :=
  first
    [ apply emits_ret | apply emits_throw | apply emits_lift | apply emits_gets
    | apply emits_modify | apply emits_storeDeliveryModes
    | apply emits_mcpCallTool; first [left; reflexivity | right; split; reflexivity]
    | apply emits_bind; [|intros ?]
    | match goal with
      | |- emits _ (if ?b then _ else _) => destruct b eqn:?
      | |- emits _ (match ?x with _ => _ end) => destruct x eqn:?
      end ].

Lemma dispatch_emits tc conv tok : emits (reachable (name tc)) (dispatch tc conv tok).
Proof.
  unfold ChatService.dispatch, field, storedCart.
  destruct (lookupKind_In (name tc) toolNames) as [Hk|Hk]; fold (classify (name tc)) in Hk.
  - rewrite Hk. apply emits_ret.
  - destruct (classify (name tc)); cbn [In toolNames] in Hk;
      repeat match goal with
             | H : _ \/ _ |- _ => destruct H as [H|H]; try discriminate H
             | H : False |- _ => destruct H
             end;
      injection Hk as Hn; rewrite <- Hn; repeat emits_step.
Qed.

(** X14.  A tool call is forwarded to the MCP tool of its own name: the
    calls that an execution makes through the client are added at the
    end of those made before, and each of them is to the tool that the
    call names, but for the create-cart call that an add-to-cart call
    may make first. *)
Theorem tool_forwarded_under_own_name tc conv tok st :
  exists made,
    trace World (fst (executeOne tc conv tok st)) = (trace World st ++ made)%list /\
    Forall (fun call => reachable (name tc) (fst call)) made.
Proof.
  pose proof (dispatch_emits tc conv tok st) as Hd.
  unfold ChatService.executeOne.
  destruct (dispatch tc conv tok st) as [st' [result|msg]]; cbn [fst] in *; [|exact Hd].
  destruct (authFailed result); exact Hd.
Qed.

End EngineCalls.


Section EngineEdges.
Import Js ChatService Props Footprint.
Local Open Scope string_scope.

Context {World : Type}.
Variable callTool : World -> string -> Args -> World * MCPToolResult.
Variable JSON_parse : string -> option Json.
Variable JSON_stringify : Json -> string.
Variable ToString : Any -> string.
Variable toLowerCase : string -> string.

Local Abbreviation dispatch :=
  (ChatService.dispatch World callTool JSON_parse JSON_stringify ToString toLowerCase).
Local Abbreviation executeOne :=
  (ChatService.executeOne World callTool JSON_parse JSON_stringify ToString toLowerCase).
Local Abbreviation executeMCPTools :=
  (ChatService.executeMCPTools World callTool JSON_parse JSON_stringify ToString toLowerCase).
Local Abbreviation authFailed := (ChatService.authFailed JSON_stringify).
Local Abbreviation carts := (cartsByConversation World).
Local Abbreviation modes := (deliveryModesByConversation World).
Local Abbreviation orders := (lastOrderCodeByConversation World).

Implicit Types (st : State World) (tc : ToolCall) (conv : string) (tok : Any).

Context {Prompt : Type}.

Local Abbreviation toolPhase :=
  (ChatService.toolPhase World callTool JSON_parse JSON_stringify ToString toLowerCase Prompt).

Implicit Types (req : ChatRequest Prompt).

(** *** Calls without a cart *)

Lemma executeOne_address_no_cart tc conv tok st :
  name tc = sda -> carts st !! conv = None ->
  exists r, executeOne tc conv tok st = (st, r) /\
            tool_use_id r = id tc /\ r_error r = None.
Proof.
  intros Hname Hnone.
  unfold ChatService.executeOne, ChatService.dispatch.
  replace (classify (name tc)) with SetDeliveryAddress by (rewrite Hname; reflexivity).
  unfold bind, storedCart, gets, ret. rewrite Hnone. cbn [truthy negb].
  destruct (authFailed _); eexists; (split; [reflexivity|]); split; reflexivity.
Qed.

(** X15.  A set-delivery-address call in a conversation without a cart
    is not forwarded: it makes no call through the client.  Its result
    is the refusal that no cart exists, which is not an error of the
    execution, so the service goes on to ask for the delivery modes all
    the same, with an undefined cart id. *)
Theorem address_without_cart_still_asks_for_modes req tc st :
  name tc = sda ->
  carts st !! conversationId Prompt req = None ->
  let conv := conversationId Prompt req in
  let tok := userAccessToken Prompt req in
  fst (executeOne tc conv tok st) = st /\
  r_error (snd (executeOne tc conv tok st)) = None /\
  trace World (fst (toolPhase req [tc] st))
  = (trace World st ++ [("get-delivery-modes", [("cartId", AVal None); token tok])])%list /\
  toolsUsed (snd (toolPhase req [tc] st)) = [sda; "get-delivery-modes"].
Proof.
  intros Hname Hnone conv tok.
  destruct (executeOne_address_no_cart tc conv tok st Hname Hnone) as (r & Hone & Hid & Herr).
  rewrite Hone. cbn [fst snd]. split; [reflexivity|]. split; [exact Herr|].
  rewrite (toolPhase_eq callTool JSON_parse JSON_stringify ToString toLowerCase).
  rewrite (requestedPhase_eq callTool JSON_parse JSON_stringify ToString toLowerCase).
  fold conv tok.
  rewrite (executeMCPTools_one callTool JSON_parse JSON_stringify ToString toLowerCase), Hone.
  cbn [fst snd map].
  rewrite (autoPlaceOrder_eq callTool JSON_parse JSON_stringify ToString toLowerCase).
  cbn [toolsUsed allCalls toolResults]. rewrite Hname.
  change (includesName "set-payment-details" [sda]) with false. cbn [andb fst snd].
  rewrite (autoDeliveryModes_eq callTool JSON_parse JSON_stringify ToString toLowerCase).
  cbn [toolsUsed allCalls toolResults].
  change (includesName "set-delivery-address" [sda]) with true.
  assert (Hres : resultOf "set-delivery-address" [tc] [r] = Some r).
  { unfold resultOf. cbn [List.find existsb].
    rewrite Hid, Hname, !String.eqb_refl. reflexivity. }
  rewrite Hres. cbn [presentWithoutError andb]. rewrite Herr. cbv zeta. fold conv tok.
  destruct (callTool (mcp World st) "get-delivery-modes" (storedCartArgs st conv tok))
    as [w result] eqn:Hcall.
  rewrite (executeOne_getDeliveryModes callTool JSON_parse JSON_stringify ToString toLowerCase
             _ conv tok st w result Hcall).
  cbn [fst snd toolsUsed]. unfold storeDeliveryModes, modify, withModes. cbn [fst trace].
  unfold storedCartArgs. fold conv in Hnone. rewrite Hnone.
  split; reflexivity.
Qed.

(** *** Payment and the order that follows *)

Lemma pick_hasInput tc (k : string) (keys : list string) :
  hasInput tc ->
  pick (k :: keys) (input tc)
  = Ok (map (fun key => (key, AVal (optProp key (input tc)))) (k :: keys)).
Proof.
  intros [Hundef Hnull]. unfold pick.
  destruct (input tc) as [[]|]; congruence.
Qed.

Lemma executeOne_payment tc conv tok st :
  name tc = "set-payment-details" -> hasInput tc ->
  optProp "billingAddress" (input tc) <> None ->
  optProp "billingAddress" (input tc) <> Some JNull ->
  exists w args r,
    executeOne tc conv tok st
    = (mkState World (carts st) (modes st) (orders st) w
                     (trace World st ++ [("set-payment-details", args)]), r) /\
    tool_use_id r = id tc /\ r_error r = None.
Proof.
  intros Hname Hinput Hb1 Hb2.
  unfold ChatService.executeOne, ChatService.dispatch.
  replace (classify (name tc)) with SetPaymentDetails by (rewrite Hname; reflexivity).
  unfold bind, field, lift, storedCart, gets, mcpCallTool.
  rewrite !(prop_hasInput tc _ Hinput), !(pick_hasInput tc _ _ Hinput).
  assert (Hreg : prop "regionIsocode" (optProp "billingAddress" (input tc))
                 = Ok (optProp "regionIsocode" (optProp "billingAddress" (input tc)))).
  { unfold prop. destruct (optProp "billingAddress" (input tc)) as [[]|]; congruence. }
  rewrite Hreg.
  destruct (callTool _ _ _) as [w result].
  destruct (authFailed result); eexists w, _, _;
    (split; [reflexivity|]); split; reflexivity.
Qed.

(** X16.  After a set-payment-details call the service places the order
    whatever the backend answered: only an exception of the execution
    would hold it back, and an answer flagged as an error, or taken for
    an expired token, is none.  For a call with an input and a billing
    address, on any backend: the calls through the client are
    set-payment-details and then place-order, and a cart the
    conversation had is forgotten. *)
Theorem order_is_placed_whatever_payment_answers req tc st :
  name tc = "set-payment-details" -> hasInput tc ->
  optProp "billingAddress" (input tc) <> None ->
  optProp "billingAddress" (input tc) <> Some JNull ->
  let conv := conversationId Prompt req in
  let out := toolPhase req [tc] st in
  calledTools (fst out) = (calledTools st ++ ["set-payment-details"; "place-order"])%list /\
  toolsUsed (snd out) = ["set-payment-details"; "place-order"] /\
  (truthy (carts st !! conv) = true -> carts (fst out) !! conv = None).
Proof.
  intros Hname Hinput Hb1 Hb2 conv out. unfold out. clear out.
  set (tok := userAccessToken Prompt req).
  destruct (executeOne_payment tc conv tok st Hname Hinput Hb1 Hb2)
    as (w & args & r & Hone & Hid & Herr).
  rewrite (toolPhase_eq callTool JSON_parse JSON_stringify ToString toLowerCase).
  rewrite (requestedPhase_eq callTool JSON_parse JSON_stringify ToString toLowerCase).
  fold conv tok.
  rewrite (executeMCPTools_one callTool JSON_parse JSON_stringify ToString toLowerCase), Hone.
  cbn [fst snd map].
  rewrite (autoPlaceOrder_eq callTool JSON_parse JSON_stringify ToString toLowerCase).
  cbn [toolsUsed allCalls toolResults]. rewrite Hname.
  change (includesName "set-payment-details" ["set-payment-details"]) with true.
  assert (Hres : resultOf "set-payment-details" [tc] [r] = Some r).
  { unfold resultOf. cbn [List.find existsb].
    rewrite Hid, Hname, !String.eqb_refl. reflexivity. }
  rewrite Hres. cbn [presentWithoutError andb]. rewrite Herr. cbv zeta. fold conv tok.
  cbn [fst snd].
  rewrite (autoDeliveryModes_eq callTool JSON_parse JSON_stringify ToString toLowerCase).
  cbn [toolsUsed allCalls toolResults app].
  change (includesName "set-delivery-address" ["set-payment-details"; "place-order"])
    with false.
  cbn [andb fst snd].
  set (st1 := mkState World (carts st) (modes st) (orders st) w
                      (trace World st ++ [("set-payment-details", args)])).
  split; [|split; [reflexivity|]].
  - unfold calledTools.
    rewrite (executeOne_autoPlaceOrder callTool JSON_parse JSON_stringify ToString toLowerCase).
    unfold st1. cbn [trace]. rewrite !map_app, <- app_assoc. reflexivity.
  - intros Htruthy.
    unfold ChatService.executeOne, ChatService.dispatch.
    change (classify (name (mkCall (placeOrderId Prompt req) "place-order"))) with PlaceOrder.
    unfold bind, field, lift, storedCart, gets, mcpCallTool, ret, modify, withCarts.
    cbn [input mkCall prop optProp assoc jor truthy].
    change (cartsByConversation World st1) with (carts st).
    destruct (callTool _ _ _) as [w2 result2].
    rewrite Htruthy.
    destruct (authFailed result2); cbn [fst cartsByConversation]; apply lookup_delete_eq.
Qed.

(** *** The cached delivery modes *)

Lemma storeDeliveryModesLoop_single conv (resultContent : Any)
      (known : gmap string (list Json)) :
  storeDeliveryModesLoop JSON_parse ToString conv [resultContent] known !! conv
  = match listedModes JSON_parse ToString resultContent with
    | Some l => Some l
    | None => known !! conv
    end.
Proof.
  unfold listedModes, storeDeliveryModesLoop, storeDeliveryModesOf.
  destruct (truthy resultContent); [|reflexivity].
  destruct (parseIfString _ _ _) as [data|]; [|reflexivity].
  destruct (prop "deliveryModes" data) as [[[]|]|]; try reflexivity.
  destruct (existsb isNull items); apply lookup_insert_eq.
Qed.

(** X17.  A get-delivery-modes call that the provider asked for
    replaces the cached list of the conversation only by a list that a
    result not flagged as an error holds: after an error-flagged result,
    and after a result that holds no list, the list cached before is
    still there and goes on being used for correcting codes. *)
Theorem requested_modes_keep_stale_list tc conv tok st w result :
  name tc = "get-delivery-modes" ->
  callTool (mcp World st) "get-delivery-modes" (storedCartArgs st conv tok) = (w, result) ->
  modes (fst (executeOne tc conv tok st)) !! conv
  = if isError result then modes st !! conv
    else match listedModes JSON_parse ToString (content result) with
         | Some l => Some l
         | None => modes st !! conv
         end.
Proof.
  intros Hname Hcall.
  unfold ChatService.executeOne, ChatService.dispatch.
  replace (classify (name tc)) with GetDeliveryModes by (rewrite Hname; reflexivity).
  unfold bind, storedCart, gets, mcpCallTool, ret, storeDeliveryModes, modify, withModes.
  unfold storedCartArgs in Hcall. rewrite Hcall.
  destruct (isError result); cbn [negb].
  - destruct (authFailed _); reflexivity.
  - destruct (authFailed _); cbn [fst deliveryModesByConversation];
      apply storeDeliveryModesLoop_single.
Qed.

End EngineEdges.

Section FixedCodes.
Import Js ChatService Props.
Local Open Scope string_scope.

Lemma findM_some {A} (p : A -> Result bool) (l : list A) (x : A) :
  findM p l = Ok (Some x) -> In x l /\ p x = Ok true.
Proof.
  induction l as [|y l IH]; cbn [findM]; [discriminate|].
  destruct (p y) as [[|]|] eqn:Hy; try discriminate.
  - intros [= <-]. split; [left; reflexivity|exact Hy].
  - intros H. destruct (IH H). split; [right; assumption|assumption].
Qed.

Lemma prop_Ok (key : string) (v c : Any) : prop key v = Ok c -> c = optProp key v.
Proof.
  unfold prop. destruct v as [[]|]; try discriminate; intros [= <-]; reflexivity.
Qed.

Lemma strictEq_eq (a b : Any) : strictEq a b = true -> a = b.
Proof.
  destruct a as [[]|], b as [[]|]; cbn [strictEq]; try discriminate; try reflexivity.
  - intros H. apply Bool.eqb_prop in H. congruence.
  - intros H. apply Z.eqb_eq in H. congruence.
  - intros H. apply String.eqb_eq in H. congruence.
Qed.

Variable toLowerCase : string -> string.

Lemma fuzzyCode_cached (first : Json) (rest : list Json) (requestedCode corrected : Any) :
  fuzzyCode toLowerCase first (first :: rest) requestedCode = Ok corrected ->
  exists m, In m (first :: rest) /\ optProp "code" (Some m) = corrected.
Proof.
  unfold fuzzyCode.
  destruct (anyToLowerCase toLowerCase requestedCode) as [lower|]; cbn [bindR]; [|discriminate].
  destruct (findM (fuzzyPred toLowerCase _) (first :: rest)) as [[m|]|] eqn:Hfuzzy;
    cbn [bindR]; try discriminate.
  - intros Hc. apply findM_some in Hfuzzy as [Hin _].
    exists m. split; [exact Hin|]. symmetry. apply prop_Ok, Hc.
  - intros Hc. exists first. split; [left; reflexivity|].
    symmetry. apply prop_Ok, Hc.
Qed.

(** X18.  When the conversation has a cached list of delivery modes that
    is not empty, the code that set-delivery-mode is called with is the
    code of one of the cached modes, whatever code was requested: the
    requested one if a cached mode has it, else the code of the mode
    found by the token, else that of the first cached mode. *)
Theorem fixDeliveryModeCode_sends_cached_code
        (known : gmap string (list Json)) (conv : string) (ms : list Json)
        (requestedCode corrected : Any) :
  known !! conv = Some ms -> ms <> [] ->
  fixDeliveryModeCode toLowerCase known conv requestedCode = Ok corrected ->
  exists m, In m ms /\ optProp "code" (Some m) = corrected.
Proof.
  intros Hlook Hne. unfold fixDeliveryModeCode. rewrite Hlook.
  destruct ms as [|first rest]; [congruence|].
  destruct (findM (exactPred requestedCode) (first :: rest)) as [[m|]|] eqn:Hexact;
    cbn [bindR]; try discriminate.
  - destruct (truthy (Some m)); [|apply fuzzyCode_cached].
    intros [= <-]. apply findM_some in Hexact as [Hin Hp].
    exists m. split; [exact Hin|].
    unfold exactPred in Hp.
    destruct (prop "code" (Some m)) as [c|] eqn:Hc; cbn [bindR] in Hp; [|discriminate].
    injection Hp as Hp. apply strictEq_eq in Hp. apply prop_Ok in Hc. congruence.
  - apply fuzzyCode_cached.
Qed.

End FixedCodes.


(* ===================================================================== *)
(** * Properties of the guardrails *)
(* ===================================================================== *)

Section GuardrailProperties.
Import Guardrails.
Local Open Scope Z_scope.

Implicit Types (config : GuardrailConfig) (userId : option string).

(** From an entry with count [c] on, while the window lasts, the
    [k]-th request is allowed when [c + k] is below the limit. *)
Lemma rateLimited_in_window config userId (times : list Z) :
  forall (store : gmap string RateLimit) (c r : Z),
    store !! userKeyOf userId = Some (mkRateLimit c r) ->
    Forall (fun t => t <= r) times ->
    snd (rateLimited config userId times store)
    = map (fun k => c + Z.of_nat k <? maxMessagesPerMinute config)
          (seq 0 (length times)) /\
    fst (rateLimited config userId times store) !! userKeyOf userId
    = Some (mkRateLimit
              (Z.max c (Z.min (c + Z.of_nat (length times)) (maxMessagesPerMinute config)))
              r).
Proof.
  induction times as [|t times IH]; intros store c r Hlook Hall.
  - cbn. split; [reflexivity|]. rewrite Hlook. do 2 f_equal. lia.
  - apply List.Forall_cons_iff in Hall as [Ht Hall].
    cbn [rateLimited]. unfold checkRateLimit. rewrite Hlook. cbn [resetTime count].
    destruct (Z.ltb_spec r t) as [|_]; [lia|].
    destruct (Z.leb_spec (maxMessagesPerMinute config) c) as [Hfull|Hroom].
    + destruct (IH store c r Hlook Hall) as [Hflags Hstore].
      destruct (rateLimited config userId times store) as [store2 flags].
      cbn [fst snd passes] in *. split.
      * cbn [length seq map]. rewrite <- seq_shift, map_map, Hflags.
        f_equal; [destruct (Z.ltb_spec (c + Z.of_nat 0) (maxMessagesPerMinute config)); [lia|reflexivity]|].
        apply map_ext. intros k.
        destruct (Z.ltb_spec (c + Z.of_nat k) (maxMessagesPerMinute config));
          destruct (Z.ltb_spec (c + Z.of_nat (S k)) (maxMessagesPerMinute config));
          try reflexivity; lia.
      * rewrite Hstore. do 2 f_equal. cbn [length]. lia.
    + destruct (IH (<[userKeyOf userId := mkRateLimit (c + 1) r]> store) (c + 1) r)
        as [Hflags Hstore]; [apply lookup_insert_eq|exact Hall|].
      destruct (rateLimited config userId times _) as [store2 flags].
      cbn [fst snd passes] in *. split.
      * cbn [length seq map]. rewrite <- seq_shift, map_map, Hflags.
        f_equal; [destruct (Z.ltb_spec (c + Z.of_nat 0) (maxMessagesPerMinute config)); [reflexivity|lia]|].
        apply map_ext. intros k. f_equal. lia.
      * rewrite Hstore. do 2 f_equal. cbn [length]. lia.
Qed.

(** X19.  The rate limit counts in fixed windows.  The first request of
    a user opens a window of one minute and is always allowed, whatever
    the limit; of the requests that follow within the window, the [k]-th
    is allowed exactly when [k + 1] is below the limit, so that a
    window admits the limit's number of requests (and one if the limit
    is smaller).  Rejected requests are not counted, and none of the
    requests moves the end of the window. *)
Theorem rate_limit_counts_in_fixed_windows config userId (t0 : Z) (times : list Z)
        (store : gmap string RateLimit) :
  store !! userKeyOf userId = None ->
  Forall (fun t => t <= t0 + 60000) times ->
  let out := rateLimited config userId (t0 :: times) store in
  let n := Z.of_nat (length times) in
  snd out
  = true :: map (fun k => Z.of_nat k + 1 <? maxMessagesPerMinute config)
                (seq 0 (length times)) /\
  fst out !! userKeyOf userId
  = Some (mkRateLimit (Z.max 1 (Z.min (n + 1) (maxMessagesPerMinute config)))
                      (t0 + 60000)).
Proof.
  intros Hnone Hall. cbv zeta.
  cbn [rateLimited]. unfold checkRateLimit. rewrite Hnone.
  destruct (rateLimited_in_window config userId times
              (<[userKeyOf userId := mkRateLimit 1 (t0 + 60000)]> store) 1 (t0 + 60000))
    as [Hflags Hstore]; [apply lookup_insert_eq|exact Hall|].
  destruct (rateLimited config userId times _) as [store2 flags].
  cbn [fst snd passes] in *. split.
  - rewrite Hflags. f_equal. apply map_ext. intros k. f_equal. lia.
  - rewrite Hstore. do 2 f_equal. lia.
Qed.

(** X20.  A rate-limit check reads and writes the entry of one key
    only, and a rejected request writes nothing.  The key is the user
    id; requests without a user id, with an empty one, and of a user
    called anonymous share one entry.  A request that comes after the
    end of the window is allowed whatever the count was, and opens a new
    window that ends a minute after it. *)
Theorem rate_limit_is_per_user_key config (now : Z) userId
        (store : gmap string RateLimit) :
  let out := checkRateLimit config now userId store in
  (forall key, key <> userKeyOf userId -> fst out !! key = store !! key) /\
  (snd out <> None -> fst out = store) /\
  (forall limit, store !! userKeyOf userId = Some limit -> resetTime limit < now ->
                 snd out = None /\
                 fst out !! userKeyOf userId = Some (mkRateLimit 1 (now + 60000))) /\
  checkRateLimit config now None store
  = checkRateLimit config now (Some EmptyString) store /\
  checkRateLimit config now None store
  = checkRateLimit config now (Some "anonymous"%string) store.
Proof.
  cbv zeta. unfold checkRateLimit.
  split; [|split; [|split; [|split; reflexivity]]].
  - intros key Hne.
    destruct (store !! userKeyOf userId) as [limit|]; cbn [fst].
    + destruct (resetTime limit <? now); cbn [fst];
        [apply lookup_insert_ne; congruence|].
      destruct (maxMessagesPerMinute config <=? count limit); cbn [fst];
        [reflexivity|apply lookup_insert_ne; congruence].
    + apply lookup_insert_ne. congruence.
  - destruct (store !! userKeyOf userId) as [limit|]; cbn [fst snd]; [|congruence].
    destruct (resetTime limit <? now); cbn [fst snd]; [congruence|].
    destruct (maxMessagesPerMinute config <=? count limit); cbn [fst snd]; congruence.
  - intros limit Hlook Hlate. rewrite Hlook.
    destruct (Z.ltb_spec (resetTime limit) now); [|lia].
    cbn [fst snd]. split; [reflexivity|apply lookup_insert_eq].
Qed.

Lemma checkConversationLimit_grows config userId (cid : option string)
      (store : gmap string (gset string)) :
  default ∅ (store !! userKeyOf userId)
  ⊆ default ∅ (fst (checkConversationLimit config userId cid store) !! userKeyOf userId).
Proof.
  unfold checkConversationLimit.
  destruct (store !! userKeyOf userId) as [known|] eqn:Hlook; cbn [default].
  - rewrite Hlook. cbn [default]. destruct (givenId cid) as [c|].
    + cbn [fst]. rewrite lookup_insert_eq. cbn [default]. set_solver.
    + destruct (_ <=? _); cbn [fst]; rewrite Hlook; reflexivity.
  - set_solver.
Qed.

Lemma conversationsChecked_grows config userId (ids : list (option string)) :
  forall store : gmap string (gset string),
    default ∅ (store !! userKeyOf userId)
    ⊆ default ∅ (conversationsChecked config userId ids store !! userKeyOf userId).
Proof.
  induction ids as [|cid ids IH]; intros store; [reflexivity|].
  cbn [conversationsChecked]. etransitivity; [|apply IH].
  apply checkConversationLimit_grows.
Qed.

(** X21.  The conversation limit is looked at only for a request
    without a conversation id.  A request that carries an id is always
    allowed and its id is recorded, so that the recorded ids of a user
    are not bounded by the limit; no check ever removes an id.  Hence
    once the recorded ids of a user have reached the limit, every later
    request of that user without an id is rejected, whatever was checked
    in between. *)
Theorem conversation_ids_are_never_forgotten config userId
        (ids : list (option string)) (store : gmap string (gset string)) :
  let key := userKeyOf userId in
  let later := conversationsChecked config userId ids store in
  default ∅ (store !! key) ⊆ default ∅ (later !! key) /\
  (forall cid, cid <> EmptyString ->
               snd (checkConversationLimit config userId (Some cid) store) = None /\
               cid ∈ default ∅ (fst (checkConversationLimit config userId (Some cid) store)
                                 !! key)) /\
  (maxConversationsPerUser config <= Z.of_nat (size (default ∅ (store !! key))) ->
   snd (checkConversationLimit config userId None later)
   = Some (MaximumConversationsReached (maxConversationsPerUser config))).
Proof.
  cbv zeta. split; [apply conversationsChecked_grows|]. split.
  - intros cid Hcid. unfold checkConversationLimit, givenId.
    destruct (String.eqb_spec cid EmptyString) as [|_]; [contradiction|].
    cbn [fst snd]. split; [reflexivity|].
    rewrite lookup_insert_eq. cbn [default]. set_solver.
  - intros Hfull.
    pose proof (conversationsChecked_grows config userId ids store) as Hsub.
    apply subseteq_size in Hsub.
    set (later := conversationsChecked config userId ids store) in *.
    unfold checkConversationLimit. cbn [givenId].
    assert (Hsame : default ∅ (match later !! userKeyOf userId with
                               | Some _ => later
                               | None => <[userKeyOf userId := ∅]> later
                               end !! userKeyOf userId)
                    = default ∅ (later !! userKeyOf userId)).
    { destruct (later !! userKeyOf userId) as [known|] eqn:Hl.
      - rewrite Hl. reflexivity.
      - rewrite lookup_insert_eq. reflexivity. }
    rewrite Hsame.
    destruct (Z.leb_spec (maxConversationsPerUser config)
                (Z.of_nat (size (default ∅ (later !! userKeyOf userId)))));
      [reflexivity|lia].
Qed.

Section Middleware.

Variable matchesBlocked : string -> bool.
Variable detectPromptInjection : string -> bool.
Variable matchesGreeting : string -> bool.
Variable matchesQuestion : string -> bool.
Variable matchesOffTopic : string -> bool.
Variable toLowerCase : string -> string.

Local Abbreviation validateMessageContent :=
  (Guardrails.validateMessageContent matchesBlocked detectPromptInjection).
Local Abbreviation validateTopic :=
  (Guardrails.validateTopic matchesGreeting matchesQuestion matchesOffTopic toLowerCase).
Local Abbreviation guardrailMiddleware :=
  (Guardrails.guardrailMiddleware matchesBlocked detectPromptInjection matchesGreeting
                                  matchesQuestion matchesOffTopic toLowerCase).

(** X22.  The checks of the middleware run in a fixed order, and the
    later ones see the writes of the earlier ones.  A request whose
    content is refused leaves both stores as they were.  For requests
    whose content is accepted, what the stores hold afterwards does not
    depend on the message: a request that is refused as off-topic has
    used up its place in the rate window and has had its conversation
    id recorded, exactly as if it had been let through.  A refusal is
    answered with status 400 when it is about the message and with 429
    when it is about a limit. *)
Theorem guardrail_checks_order config (now : Z) (m1 m2 : string) userId
        (conversationId : option string) (stores : Stores) :
  let out1 := guardrailMiddleware config now (mkBody m1 userId conversationId) stores in
  let out2 := guardrailMiddleware config now (mkBody m2 userId conversationId) stores in
  (validateMessageContent config m1 <> None -> fst out1 = stores) /\
  (validateMessageContent config m1 = None ->
   validateMessageContent config m2 = None ->
   fst out1 = fst out2) /\
  (forall status error reason,
      snd out1 = Blocked status error reason ->
      match reason with
      | RateLimitExceeded _ | MaximumConversationsReached _ => status = 429
      | _ => status = 400
      end).
Proof.
  cbv zeta. unfold Guardrails.guardrailMiddleware. cbn [message Guardrails.userId Guardrails.conversationId].
  split; [|split].
  - destruct (validateMessageContent config m1); [reflexivity|congruence].
  - intros -> ->.
    destruct (checkRateLimit config now userId (rateLimitStore stores)) as [rates [r|]];
      [reflexivity|].
    destruct (checkConversationLimit config userId conversationId (conversationStore stores))
      as [conversations [r|]]; [reflexivity|].
    destruct (validateTopic m1), (validateTopic m2); reflexivity.
  - intros status error reason.
    destruct (validateMessageContent config m1) as [r|] eqn:Hcontent.
    + cbn [snd]. intros [= <- <- <-].
      unfold Guardrails.validateMessageContent in Hcontent.
      destruct (_ <? _); [injection Hcontent as <-; reflexivity|].
      destruct (matchesBlocked m1); [injection Hcontent as <-; reflexivity|].
      destruct (detectPromptInjection m1); [injection Hcontent as <-; reflexivity|].
      discriminate.
    + pose proof (eq_refl (checkRateLimit config now userId (rateLimitStore stores))) as Hrate.
      unfold checkRateLimit at 2 in Hrate.
      destruct (checkRateLimit config now userId (rateLimitStore stores)) as [rates [r|]].
      * cbn [snd]. intros [= <- <- <-].
        destruct (rateLimitStore stores !! userKeyOf userId) as [limit|]; [|discriminate].
        destruct (_ <? _); [discriminate|].
        destruct (_ <=? _); [|discriminate].
        injection Hrate as _ ->. reflexivity.
      * pose proof (eq_refl (checkConversationLimit config userId conversationId
                                                    (conversationStore stores))) as Hconv.
        unfold checkConversationLimit at 2 in Hconv.
        destruct (checkConversationLimit config userId conversationId
                                         (conversationStore stores))
          as [conversations [r|]].
        -- cbn [snd]. intros [= <- <- <-].
           destruct (givenId conversationId); [discriminate|].
           destruct (_ <=? _); [|discriminate].
           injection Hconv as _ ->. reflexivity.
        -- unfold Guardrails.validateTopic.
           destruct (_ || _); [discriminate|].
           destruct (matchesOffTopic m1); [|discriminate].
           cbn [snd]. intros [= <- <- <-]. reflexivity.
Qed.

End Middleware.

End GuardrailProperties.


(* ===================================================================== *)
(** * Properties of the conversation manager *)
(* ===================================================================== *)

Section ConversationProperties.
Import Js ConversationManager.

Context {Content : Type}.
Implicit Types (m : ChatMessage Content) (c : Conversation Content)
         (cs : Conversations Content).

Lemma conv_get_set_eq key c cs : map_get key (map_set key c cs) = Some c.
Proof.
  induction cs as [|[k c'] cs IH]; simpl.
  - rewrite String.eqb_refl. reflexivity.
  - destruct (String.eqb_spec k key) as [->|Hne]; simpl.
    + rewrite String.eqb_refl. reflexivity.
    + destruct (String.eqb_spec k key); [contradiction|exact IH].
Qed.

Lemma conv_get_set_ne key other c cs :
  other <> key -> map_get other (map_set key c cs) = map_get other cs.
Proof.
  intros Hne. induction cs as [|[k c'] cs IH]; simpl.
  - destruct (String.eqb_spec key other); [congruence|reflexivity].
  - destruct (String.eqb_spec k key) as [->|Hk]; simpl.
    + destruct (String.eqb_spec key other); [congruence|reflexivity].
    + destruct (String.eqb_spec k other); [reflexivity|exact IH].
Qed.

Lemma conv_get_None_notin key cs :
  map_get key cs = None -> ~ In key (map fst cs).
Proof.
  induction cs as [|[k c] cs IH]; simpl; [tauto|].
  destruct (String.eqb_spec k key) as [->|Hne]; [discriminate|].
  intros H [Heq|Hin]; [congruence|exact (IH H Hin)].
Qed.

Lemma conv_set_fresh key c cs :
  map_get key cs = None -> map_set key c cs = (cs ++ [(key, c)])%list.
Proof.
  induction cs as [|[k c'] cs IH]; simpl; [reflexivity|].
  destruct (String.eqb_spec k key) as [->|Hne]; [discriminate|].
  intros H. rewrite (IH H). reflexivity.
Qed.

Lemma conv_delete_notin key cs :
  ~ In key (map fst cs) -> map_delete key cs = cs.
Proof.
  induction cs as [|[k c] cs IH]; simpl; [reflexivity|].
  intros H. destruct (String.eqb_spec k key) as [->|Hne]; [tauto|].
  rewrite IH; [reflexivity|tauto].
Qed.

Lemma conv_delete_length key c cs :
  List.NoDup (map fst cs) -> In (key, c) cs ->
  S (length (map_delete key cs)) = length cs.
Proof.
  induction cs as [|[k c'] cs IH]; simpl; [tauto|].
  intros Hnd Hin. apply NoDup_cons_iff in Hnd as [Hk Hnd].
  destruct (String.eqb_spec k key) as [->|Hne].
  - rewrite conv_delete_notin; [reflexivity|exact Hk].
  - destruct Hin as [Heq|Hin]; [congruence|].
    simpl. rewrite (IH Hnd Hin). reflexivity.
Qed.

Lemma conv_delete_keys key cs k :
  In k (map fst (map_delete key cs)) -> In k (map fst cs).
Proof.
  induction cs as [|[k1 c1] cs IH]; simpl; [tauto|].
  destruct (String.eqb_spec k1 key); simpl; tauto.
Qed.

Lemma conv_delete_NoDup key cs :
  List.NoDup (map fst cs) -> List.NoDup (map fst (map_delete key cs)).
Proof.
  induction cs as [|[k c] cs IH]; simpl; [auto|].
  intros Hnd. apply NoDup_cons_iff in Hnd as [Hk Hnd].
  destruct (String.eqb_spec k key); [auto|].
  simpl. apply NoDup_cons_iff. split; [|auto].
  intros Hin. apply Hk. eapply conv_delete_keys. exact Hin.
Qed.

Lemma conv_delete_app key cs cs' :
  map_delete key (cs ++ cs') = (map_delete key cs ++ map_delete key cs')%list.
Proof.
  induction cs as [|[k c] cs IH]; simpl; [reflexivity|].
  destruct (String.eqb k key); simpl; rewrite IH; reflexivity.
Qed.

(** *** Pruning *)

(** X23.  A conversation of more than fifty messages is pruned to the
    messages tagged as system messages followed by the most recent ones.
    With fewer than fifty tagged messages the result has exactly fifty;
    a tagged message that is among the recent ones is then in it twice.
    With fifty tagged messages or more, the number of recent ones to
    keep is not positive, the slice does not cut from the end, and the
    result is longer than what was pruned, by fifty messages. *)
Theorem prune_length (all : list (ChatMessage Content)) :
  (50 < length all)%nat ->
  let tagged := List.filter isSystemMessage all in
  ((length tagged < 50)%nat ->
   prune all = (tagged ++ skipn (length all - (50 - length tagged)) all)%list /\
   length (prune all) = 50%nat) /\
  ((50 <= length tagged)%nat ->
   prune all = (tagged ++ skipn (length tagged - 50) all)%list /\
   length (prune all) = (length all + 50)%nat).
Proof.
  intros Hlong tagged.
  pose proof (filter_length_le isSystemMessage all) as Hle. fold tagged in Hle.
  unfold prune, MAX_MESSAGES, sliceFrom. fold tagged.
  destruct (Z.ltb_spec 50 (Z.of_nat (length all))) as [_|]; [|lia].
  split; intros Hs.
  - destruct (Z.ltb_spec (- (50 - Z.of_nat (length tagged))) 0) as [_|]; [|lia].
    replace (Z.to_nat (Z.max (Z.of_nat (length all) + - (50 - Z.of_nat (length tagged))) 0))
      with (length all - (50 - length tagged))%nat by lia.
    split; [reflexivity|]. rewrite length_app, length_skipn. lia.
  - destruct (Z.ltb_spec (- (50 - Z.of_nat (length tagged))) 0) as [|_]; [lia|].
    replace (Z.to_nat (Z.min (- (50 - Z.of_nat (length tagged))) (Z.of_nat (length all))))
      with (length tagged - 50)%nat by lia.
    split; [reflexivity|]. rewrite length_app, length_skipn. lia.
Qed.

Lemma filter_none {A} (p : A -> bool) (l : list A) :
  Forall (fun x => p x = false) l -> List.filter p l = [].
Proof.
  induction 1 as [|x l Hx _ IH]; [reflexivity|]. cbn. rewrite Hx. exact IH.
Qed.

Lemma prune_untagged (all : list (ChatMessage Content)) :
  Forall (fun x => isSystemMessage x = false) all ->
  prune all = skipn (length all - 50) all.
Proof.
  intros Hnone. unfold prune, MAX_MESSAGES, sliceFrom.
  rewrite (filter_none _ _ Hnone). cbn [length app].
  destruct (Z.ltb_spec 50 (Z.of_nat (length all))) as [Hlong|Hshort].
  - change (- (50 - Z.of_nat 0) <? 0)%Z with true. cbv iota.
    f_equal. lia.
  - replace (length all - 50)%nat with 0%nat by lia. reflexivity.
Qed.

(** X24.  In a conversation none of whose messages is tagged as a
    system message, adding a message keeps the most recent fifty, in
    their order and with the new message last; a conversation that had
    at most fifty messages has at most fifty afterwards.  The time of
    the last update is set, and no other conversation is touched. *)
Theorem addMessage_keeps_the_last_fifty (conversationId : string) m (now : Z) cs c :
  map_get conversationId cs = Some c ->
  Forall (fun x => isSystemMessage x = false) (messages c ++ [m]) ->
  exists cs' c',
    addMessage conversationId m now cs = Ok cs' /\
    map_get conversationId cs' = Some c' /\
    messages c' = skipn (length (messages c) + 1 - 50) (messages c ++ [m]) /\
    getMessages conversationId cs' = messages c' /\
    List.last (messages c') m = m /\
    ((length (messages c) <= 50)%nat -> (length (messages c') <= 50)%nat) /\
    updatedAt c' = now /\
    (forall other, other <> conversationId -> map_get other cs' = map_get other cs).
Proof.
  intros Hget Hnone. unfold addMessage. rewrite Hget.
  eexists _, _. split; [reflexivity|].
  split; [apply conv_get_set_eq|]. cbn [messages updatedAt].
  assert (Hprune : prune (messages c ++ [m])
                   = skipn (length (messages c) + 1 - 50) (messages c ++ [m])).
  { rewrite (prune_untagged _ Hnone), length_app. reflexivity. }
  rewrite Hprune.
  split; [reflexivity|].
  split; [unfold getMessages; rewrite conv_get_set_eq; reflexivity|].
  split.
  { destruct (Nat.le_gt_cases (length (messages c) + 1 - 50) (length (messages c)))
      as [Hle|Hgt]; [|lia].
    rewrite skipn_app.
    replace (length (messages c) + 1 - 50 - length (messages c))%nat with 0%nat by lia.
    cbn [skipn]. apply last_last. }
  split; [intros Hshort; rewrite length_skipn, length_app; cbn [length]; lia|].
  split; [reflexivity|].
  intros other Hne. apply conv_get_set_ne, Hne.
Qed.

(** *** Creating a conversation *)

Lemma sortByUpdated_head (first : string * Conversation Content) (rest : Conversations Content) :
  exists tail, sortByUpdated (first :: rest) = firstOldest first rest :: tail.
Proof.
  revert first. induction rest as [|y rest IH]; intros first.
  - exists []. reflexivity.
  - destruct (IH y) as [tail Htail].
    change (sortByUpdated (first :: y :: rest))
      with (insertByUpdated first (sortByUpdated (y :: rest))).
    rewrite Htail. cbn [insertByUpdated firstOldest].
    destruct (updatedAt (snd (firstOldest y rest)) <? updatedAt (snd first))%Z; eauto.
Qed.

Lemma firstOldest_spec (first : string * Conversation Content) (rest : Conversations Content) :
  In (firstOldest first rest) (first :: rest) /\
  forall e, In e (first :: rest) ->
            (updatedAt (snd (firstOldest first rest)) <= updatedAt (snd e))%Z.
Proof.
  revert first. induction rest as [|y rest IH]; intros first.
  - cbn. split; [auto|]. intros e [<-|[]]. lia.
  - destruct (IH y) as [Hin Hmin]. cbn [firstOldest].
    destruct (Z.ltb_spec (updatedAt (snd (firstOldest y rest))) (updatedAt (snd first))).
    + split; [right; exact Hin|].
      intros e [<-|He]; [lia|apply Hmin, He].
    + split; [left; reflexivity|].
      intros e [<-|He]; [lia|]. specialize (Hmin e He). lia.
Qed.

Lemma firstOldest_newest_last (first newest : string * Conversation Content)
      (rest : Conversations Content) :
  (forall e, In e (first :: rest) -> (updatedAt (snd e) <= updatedAt (snd newest))%Z) ->
  firstOldest first (rest ++ [newest]) = firstOldest first rest.
Proof.
  revert first. induction rest as [|y rest IH]; intros first Hall.
  - cbn. destruct (Z.ltb_spec (updatedAt (snd newest)) (updatedAt (snd first))); [|reflexivity].
    specialize (Hall first (or_introl eq_refl)). lia.
  - cbn [app firstOldest]. rewrite IH; [reflexivity|].
    intros e He. apply Hall. right. exact He.
Qed.

(** X25.  Creating a conversation stores it, empty, and keeps the
    manager within a thousand conversations: below the capacity nothing
    is removed; at the capacity exactly one conversation is removed,
    one that was updated earliest, and never the new one, provided no
    stored conversation was updated later than the new one is
    created. *)
Theorem createConversation_evicts_least_recently_updated
        (newId : string) (forUser : option string) (created updated : Z) cs :
  wf cs -> map_get newId cs = None -> (length cs <= 1000)%nat ->
  (forall e, In e cs -> (updatedAt (snd e) <= updated)%Z) ->
  let out := createConversation newId forUser created updated cs in
  let new := snd out in
  messages new = [] /\
  map_get newId (fst out) = Some new /\
  (length (fst out) <= 1000)%nat /\
  ((length cs < 1000)%nat -> fst out = (cs ++ [(newId, new)])%list) /\
  ((length cs = 1000)%nat ->
   exists old, In old cs /\
               (forall e, In e cs -> (updatedAt (snd old) <= updatedAt (snd e))%Z) /\
               fst out = (map_delete (fst old) cs ++ [(newId, new)])%list).
Proof.
  intros Hwf Hfresh Hlen Hold. cbv zeta.
  unfold createConversation. cbn [fst snd messages].
  set (new := mkConversation newId forUser [] created updated).
  rewrite (conv_set_fresh _ _ _ Hfresh).
  unfold cleanupOldConversations, MAX_CONVERSATIONS. rewrite length_app. cbn [length].
  split; [reflexivity|].
  destruct (Z.leb_spec (Z.of_nat (length cs + 1)) 1000) as [Hroom|Hfull].
  - split; [|split; [rewrite length_app; cbn [length]; lia|]].
    + rewrite <- (conv_set_fresh _ new _ Hfresh). apply conv_get_set_eq.
    + split; [reflexivity|]. intros Heq. lia.
  - assert (Hcount : length cs = 1000%nat) by lia.
    destruct cs as [|first rest]; [discriminate|].
    replace (Z.to_nat (Z.of_nat (length (first :: rest) + 1) - 1000)) with 1%nat by lia.
    change ((first :: rest) ++ [(newId, new)])%list
      with (first :: (rest ++ [(newId, new)]))%list.
    destruct (sortByUpdated_head first (rest ++ [(newId, new)])) as [tail ->].
    cbn [firstn fold_left]. rewrite firstn_O. cbn [fold_left fst].
    rewrite (firstOldest_newest_last first (newId, new) rest) by exact Hold.
    destruct (firstOldest_spec first rest) as [Hin Hmin].
    set (old := firstOldest first rest) in *.
    assert (Hne : fst old <> newId).
    { intros Heq. apply (conv_get_None_notin _ _ Hfresh).
      rewrite <- Heq. apply in_map, Hin. }
    change (first :: (rest ++ [(newId, new)]))%list
      with ((first :: rest) ++ [(newId, new)])%list.
    rewrite conv_delete_app.
    assert (Hlast : map_delete (fst old) [(newId, new)] = [(newId, new)]).
    { cbn. destruct (String.eqb_spec newId (fst old)); [congruence|reflexivity]. }
    rewrite Hlast.
    assert (Hdel : S (length (map_delete (fst old) (first :: rest))) = length (first :: rest)).
    { destruct old as [k c]. apply (conv_delete_length k c); [exact Hwf|exact Hin]. }
    split; [|split; [rewrite length_app; cbn [length] in *; lia|]].
    + assert (Hnone : map_get newId (map_delete (fst old) (first :: rest)) = None).
      { destruct (map_get newId (map_delete (fst old) (first :: rest))) as [c|] eqn:Hg;
          [|reflexivity].
        exfalso. apply (conv_get_None_notin _ _ Hfresh).
        apply (conv_delete_keys (fst old)).
        clear - Hg. induction (map_delete (fst old) (first :: rest)) as [|[k c'] l IH];
          [discriminate|].
        cbn in Hg |- *. destruct (String.eqb_spec k newId); [left; assumption|right; auto]. }
      rewrite <- (conv_set_fresh _ new _ Hnone). apply conv_get_set_eq.
    + split; [intros Hlt; lia|].
      intros _. exists old. split; [exact Hin|]. split; [exact Hmin|reflexivity].
Qed.

End ConversationProperties.


(* ===================================================================== *)
(** * Properties of the cached calls and of the client token *)
(* ===================================================================== *)

Section CachedCalls.
Import Js CommerceService.
Local Open Scope Z_scope.

Context {E : Type}.
Implicit Types (s : CommerceService.t) (op : Operation E).

Lemma get_bounded (key : string) (now : Z) (c : Cache.t Any) :
  Runs.bounded c -> Runs.bounded (snd (Cache.get key now c)) /\
                    Cache.config (snd (Cache.get key now c)) = Cache.config c.
Proof.
  intros Hc. destruct (step_bounded c (Runs.OpGet key now) Hc) as (c' & Hstep & Hc' & Hcfg).
  cbn [Runs.step] in Hstep. injection Hstep as <-. auto.
Qed.

Lemma intercept_cache_counters (requests : list (Z * bool)) :
  forall m : HealthMonitor.t,
    HealthMonitor.cacheHits (fold_left intercept requests m) = HealthMonitor.cacheHits m /\
    HealthMonitor.cacheMisses (fold_left intercept requests m) = HealthMonitor.cacheMisses m /\
    HealthMonitor.requestCount (fold_left intercept requests m)
    = HealthMonitor.requestCount m + Z.of_nat (length requests).
Proof.
  induction requests as [|r requests IH]; intros m; [cbn; lia|].
  cbn [fold_left length]. destruct (IH (intercept m r)) as (-> & -> & ->).
  unfold intercept. cbn. lia.
Qed.

(** A call that invoked an operation which settled with [v], on a
    cache within its capacity, has stored [v] under the key. *)
Lemma withCache_stores key op (now1 now2 : Z) s (v : Any) :
  Runs.bounded (cache s) ->
  invoked (withCache key op now1 now2 s) = true ->
  settles op = inl v ->
  returns (withCache key op now1 now2 s) = inl v /\
  Cache.map_get key (Cache.cache (cache (after (withCache key op now1 now2 s))))
  = Some (Cache.mkEntry v (now2 + Cache.ttl (Cache.config (cache s)))).
Proof.
  intros Hb Hinv Hop. unfold withCache in *.
  destruct (get_bounded key now1 (cache s) Hb) as [Hb1 Hcfg].
  destruct (Cache.get key now1 (cache s)) as [cached cache1]. cbn [snd] in *.
  destruct (usable cached); [discriminate|].
  rewrite Hop in *.
  destruct (set_succeeds key v now2 cache1) as [cache2 Hset];
    [left; destruct Hb1 as (_ & Hpos & _); exact Hpos|].
  rewrite Hset. cbn [returns after cache]. split; [reflexivity|].
  destruct (set_shape _ _ _ _ _ Hset) as [_ [m ->]].
  rewrite Hcfg. apply map_get_set_eq.
Qed.

Lemma withCache_hit key op (now1 now2 : Z) s (v : Any) :
  fst (Cache.get key now1 (cache s)) = Some v -> truthy v = true ->
  withCache key op now1 now2 s
  = mkCall E (mk (snd (Cache.get key now1 (cache s)))
                 (HealthMonitor.recordCacheAccess true (healthMonitor s)))
           (inl v) false.
Proof.
  intros Hget Hv. unfold withCache.
  destruct (Cache.get key now1 (cache s)) as [cached cache1]. cbn [fst snd] in *.
  subst cached. cbn [usable default]. rewrite Hv. reflexivity.
Qed.

Lemma withCache_miss key op (now1 now2 : Z) s :
  usable (fst (Cache.get key now1 (cache s))) = false ->
  let call := withCache key op now1 now2 s in
  invoked call = true /\
  HealthMonitor.cacheMisses (healthMonitor (after call))
  = HealthMonitor.cacheMisses (healthMonitor s) + 1 /\
  HealthMonitor.cacheHits (healthMonitor (after call))
  = HealthMonitor.cacheHits (healthMonitor s) /\
  HealthMonitor.requestCount (healthMonitor (after call))
  = HealthMonitor.requestCount (healthMonitor s) + Z.of_nat (length (completed op)) /\
  (forall e, settles op = inr e ->
             returns call = inr (OperationFailed e) /\
             cache (after call) = snd (Cache.get key now1 (cache s))).
Proof.
  intros Hu. cbv zeta. unfold withCache.
  destruct (Cache.get key now1 (cache s)) as [cached cache1]. cbn [fst snd] in *.
  rewrite Hu.
  destruct (intercept_cache_counters (completed op)
              (HealthMonitor.recordCacheAccess false (healthMonitor s)))
    as (Hhits & Hmisses & Hreqs).
  destruct (settles op) as [result|e].
  - destruct (Cache.set key result now2 cache1); cbn [invoked after healthMonitor];
      rewrite Hhits, Hmisses, Hreqs;
      (split; [reflexivity|]); (split; [reflexivity|]); (split; [reflexivity|]);
      (split; [reflexivity|]); discriminate.
  - cbn [invoked after healthMonitor returns cache].
    rewrite Hhits, Hmisses, Hreqs.
    (split; [reflexivity|]); (split; [reflexivity|]); (split; [reflexivity|]).
    split; [reflexivity|]. intros e0 [= <-]. split; reflexivity.
Qed.

Lemma get_stored (key : string) (now : Z) (c : Cache.t Any) (entry : Cache.CacheEntry Any) :
  Cache.map_get key (Cache.cache c) = Some entry ->
  (now <= Cache.expiresAt entry -> Cache.get key now c = (Some (Cache.value entry), c)) /\
  (fst (Cache.get key now c) = None \/ fst (Cache.get key now c) = Some (Cache.value entry)).
Proof.
  intros Hget. unfold Cache.get. rewrite Hget.
  destruct (Z.ltb_spec (Cache.expiresAt entry) now); cbn [fst]; split; auto; lia.
Qed.

(** X26.  A value that reads as true and was fetched and cached by a
    call is served by the next call for the same key, as long as that
    call reads the cache no later than one TTL after the value was
    written: the operation of that call is not invoked, the cache is as
    before, and a hit is recorded. *)
Theorem withCache_serves_within_ttl key op (op' : Operation E)
        (now1 now2 now3 now4 : Z) s (v : Any) :
  Runs.bounded (cache s) ->
  invoked (withCache key op now1 now2 s) = true ->
  settles op = inl v ->
  truthy v = true ->
  now3 <= now2 + Cache.ttl (Cache.config (cache s)) ->
  let first := withCache key op now1 now2 s in
  let second := withCache key op' now3 now4 (after first) in
  returns first = inl v /\
  returns second = inl v /\
  invoked second = false /\
  cache (after second) = cache (after first) /\
  HealthMonitor.cacheHits (healthMonitor (after second))
  = HealthMonitor.cacheHits (healthMonitor (after first)) + 1.
Proof.
  intros Hb Hinv Hop Hv Hnow first second.
  destruct (withCache_stores key op now1 now2 s v Hb Hinv Hop) as [Hret Hget].
  fold first in Hret, Hget. split; [exact Hret|].
  destruct (get_stored key now3 (cache (after first)) _ Hget) as [Hlive _].
  specialize (Hlive Hnow). cbn [Cache.value] in Hlive.
  unfold second. rewrite (withCache_hit key op' now3 now4 (after first) v);
    [|rewrite Hlive; reflexivity|exact Hv].
  rewrite Hlive. cbn [returns invoked after cache healthMonitor snd].
  repeat split; reflexivity.
Qed.

(** X27.  A value that reads as false is stored like any other, but it
    is never served: the next call for the key, whenever it comes, finds
    the value, takes it for a miss, and invokes its operation again. *)
Theorem withCache_never_serves_falsy key op (op' : Operation E)
        (now1 now2 now3 now4 : Z) s (v : Any) :
  Runs.bounded (cache s) ->
  invoked (withCache key op now1 now2 s) = true ->
  settles op = inl v ->
  truthy v = false ->
  let first := withCache key op now1 now2 s in
  let second := withCache key op' now3 now4 (after first) in
  returns first = inl v /\
  (exists entry, Cache.map_get key (Cache.cache (cache (after first))) = Some entry /\
                 Cache.value entry = v) /\
  invoked second = true /\
  HealthMonitor.cacheMisses (healthMonitor (after second))
  = HealthMonitor.cacheMisses (healthMonitor (after first)) + 1.
Proof.
  intros Hb Hinv Hop Hv first second.
  destruct (withCache_stores key op now1 now2 s v Hb Hinv Hop) as [Hret Hget].
  fold first in Hret, Hget. split; [exact Hret|].
  split; [eexists; split; [exact Hget|reflexivity]|].
  destruct (get_stored key now3 (cache (after first)) _ Hget) as [_ Hcases].
  cbn [Cache.value] in Hcases.
  destruct (withCache_miss key op' now3 now4 (after first)) as (Hi & Hm & _).
  { destruct Hcases as [->| ->]; [reflexivity|exact Hv]. }
  split; [exact Hi|exact Hm].
Qed.

(** X28.  Every call records exactly one access to the cache with the
    monitor: a hit when it serves a cached value, and then the operation
    is not invoked and no request is counted; a miss otherwise, and then
    the requests that the operation completes are counted.  An
    operation that fails leaves in the cache what the lookup left, so
    that a failure is never cached, and the call throws what the
    operation threw. *)
Theorem withCache_accounting key op (now1 now2 : Z) s :
  let call := withCache key op now1 now2 s in
  let before := healthMonitor s in
  let later := healthMonitor (after call) in
  HealthMonitor.cacheHits later + HealthMonitor.cacheMisses later
  = HealthMonitor.cacheHits before + HealthMonitor.cacheMisses before + 1 /\
  (invoked call = false ->
   HealthMonitor.cacheHits later = HealthMonitor.cacheHits before + 1 /\
   HealthMonitor.requestCount later = HealthMonitor.requestCount before) /\
  (invoked call = true ->
   HealthMonitor.cacheMisses later = HealthMonitor.cacheMisses before + 1 /\
   HealthMonitor.requestCount later
   = HealthMonitor.requestCount before + Z.of_nat (length (completed op)) /\
   forall e, settles op = inr e ->
             returns call = inr (OperationFailed e) /\
             cache (after call) = snd (Cache.get key now1 (cache s))).
Proof.
  cbv zeta.
  destruct (usable (fst (Cache.get key now1 (cache s)))) eqn:Hu.
  - destruct (fst (Cache.get key now1 (cache s))) as [v|] eqn:Hget; [|discriminate].
    rewrite (withCache_hit key op now1 now2 s v Hget Hu).
    cbn [invoked after healthMonitor]. cbn. repeat split; try lia; discriminate.
  - destruct (withCache_miss key op now1 now2 s Hu) as (Hi & Hm & Hh & Hr & He).
    rewrite Hi, Hm, Hh, Hr. split; [lia|]. split; [discriminate|].
    intros _. split; [reflexivity|]. split; [reflexivity|exact He].
Qed.

End CachedCalls.


Section ClientToken.
Import SapCommerceClient.
Local Open Scope Z_scope.

Implicit Types (c : SapCommerceClient.t) (clocks : nat -> Z * Z)
         (post : nat -> AuthToken + Retry.Error).

Lemma withRetry_first_success {T} (op : @Retry.Operation T)
      (config : Retry.PartialConfig) (v : T) :
  op 0%nat = inl v ->
  0 <= Retry.maxRetries (Retry.finalConfig config) ->
  Retry.withRetry op config = Retry.mkRun (inl v) [] 1.
Proof.
  intros Hop Hmax. unfold Retry.withRetry.
  assert (Hfirst : Retry.failsThenSucceeds op 0 v)
    by (split; [intros k Hk; lia|exact Hop]).
  rewrite (retryLoop_succeeds (Retry.finalConfig config) op 0 v Hfirst Hmax 0%nat 0%nat);
    [reflexivity|lia|lia].
Qed.

Lemma withRetry_all_fail {T} (op : @Retry.Operation T) (config : Retry.PartialConfig) :
  (forall k, exists e, op k = inr e) ->
  0 <= Retry.maxRetries (Retry.finalConfig config) ->
  exists e,
    Retry.outcome (Retry.withRetry op config)
    = inr (Retry.OperationFailedAfter (Retry.maxRetries (Retry.finalConfig config) + 1) e) /\
    Retry.calls (Retry.withRetry op config)
    = S (Z.to_nat (Retry.maxRetries (Retry.finalConfig config))).
Proof.
  intros Hall Hmax. unfold Retry.withRetry.
  set (cfg := Retry.finalConfig config) in *.
  destruct (retryLoop_run cfg op (Z.to_nat (Retry.maxRetries cfg + 1)) 0
              (Retry.initialDelay cfg) []) as (n & Hn & _ & _ & Hcalls & Hout);
    [lia|lia|].
  cbn [Nat.add] in *.
  destruct Hout as [(v & Hv & _)|(e & He & Hlast & Hout)].
  - destruct (Hall n) as [e He]. congruence.
  - exists e. split; [exact Hout|]. rewrite Hcalls. f_equal. lia.
Qed.

Lemma filter_all {A} (p : A -> bool) (l : list A) :
  (forall x, p x = true) -> List.filter p l = l.
Proof.
  intros Hp. induction l as [|x l IH]; [reflexivity|].
  cbn. rewrite Hp, IH. reflexivity.
Qed.

(** X29.  Whether the cached client token is used again does not depend
    on when it was obtained: the expiry is computed from the clock at
    the time of the check.  With credentials and a cached token, a token
    whose lifetime exceeds the buffer of five minutes by more than the
    time between the two readings of the clock is returned without any
    request, however old it is; and a token whose lifetime is at most
    five minutes is never used again, a new one being requested at every
    call. *)
Theorem cached_token_validity_ignores_age c clocks post (cached : AuthToken) :
  missing (clientId c) = false ->
  missing (clientSecret c) = false ->
  0 <= Retry.maxRetries (Retry.finalConfig (default Retry.no_overrides (retryConfig c))) ->
  authToken c = Some cached ->
  (snd (clocks 0%nat) - fst (clocks 0%nat) < expires_in cached * 1000 - 300000 ->
   getAuthToken c clocks post = mkGot c (Some cached) 0 1) /\
  (expires_in cached <= 300 ->
   fst (clocks 0%nat) <= snd (clocks 0%nat) ->
   forall fresh, post 0%nat = inl fresh ->
                 getAuthToken c clocks post
                 = mkGot (mk (clientId c) (clientSecret c) (retryConfig c) (Some fresh))
                         (Some fresh) 1 1).
Proof.
  intros Hid Hsecret Hmax Hcached.
  unfold getAuthToken. rewrite Hid, Hsecret. cbn [orb].
  split.
  - intros Hvalid.
    assert (Hok : stillValid cached (fst (clocks 0%nat)) (snd (clocks 0%nat)) = true).
    { unfold stillValid, bufferTime. apply Z.ltb_lt. lia. }
    rewrite (withRetry_first_success _ _ cached); [|unfold attempt; rewrite Hcached, Hok; reflexivity|exact Hmax].
    cbn [Retry.outcome Retry.calls seq List.filter].
    unfold requests. rewrite Hcached, Hok. cbn [negb length].
    destruct c as [i sec rc tok]. cbn in Hcached. subst tok. reflexivity.
  - intros Hshort Hclock fresh Hpost.
    assert (Hno : stillValid cached (fst (clocks 0%nat)) (snd (clocks 0%nat)) = false).
    { unfold stillValid, bufferTime. apply Z.ltb_ge. lia. }
    rewrite (withRetry_first_success _ _ fresh); [|unfold attempt; rewrite Hcached, Hno; exact Hpost|exact Hmax].
    cbn [Retry.outcome Retry.calls seq List.filter].
    unfold requests. rewrite Hcached, Hno. reflexivity.
Qed.

(** X30.  The client never throws for want of a token.  Without a
    client id or a client secret it answers [null] and makes no request.
    With both and no cached token, when every token request is refused,
    it makes as many requests as the retry policy allows attempts,
    answers [null], and keeps no token. *)
Theorem getAuthToken_gives_up_quietly c clocks post :
  (missing (clientId c) || missing (clientSecret c) = true ->
   getAuthToken c clocks post = mkGot c None 0 0) /\
  (missing (clientId c) || missing (clientSecret c) = false ->
   authToken c = None ->
   0 <= Retry.maxRetries (Retry.finalConfig (default Retry.no_overrides (retryConfig c))) ->
   (forall k, exists e, post k = inr e) ->
   let tries := S (Z.to_nat (Retry.maxRetries
                               (Retry.finalConfig (default Retry.no_overrides (retryConfig c))))) in
   getAuthToken c clocks post = mkGot c None tries tries).
Proof.
  unfold getAuthToken. split.
  - intros ->. reflexivity.
  - intros Hcred Hnone Hmax Hfail. cbv zeta. rewrite Hcred.
    destruct (withRetry_all_fail (attempt c clocks post)
                (default Retry.no_overrides (retryConfig c))) as (e & Hout & Hcalls).
    { intros k. unfold attempt. rewrite Hnone. apply Hfail. }
    { exact Hmax. }
    rewrite Hout, Hcalls.
    rewrite filter_all; [rewrite length_seq; reflexivity|].
    intros k. unfold requests. rewrite Hnone. reflexivity.
Qed.

End ClientToken.


(* ===================================================================== *)
(** * The further properties on concrete inputs *)
(* ===================================================================== *)

Section Instances.
Import Js ChatService Props.
Local Open Scope string_scope.

(** Two conversations with a cart each; conversation c1 places its
    order. *)
Lemma toolPhase_confined_witness :
  let st := mkState Demo.World (<["c2" := JStr "00077"]> {[ "c1" := JStr "00001" ]})
                    ∅ ∅ 0%Z [] in
  cartsByConversation Demo.World (fst (Demo.turn Demo.healthy [Demo.placeOrderCall] st)) !! "c2"
  = Some (JStr "00077") /\
  cartsByConversation Demo.World (fst (Demo.turn Demo.healthy [Demo.placeOrderCall] st)) !! "c1"
  = None.
Proof.
  intros st.
  destruct (toolPhase_confined Demo.healthy Demo.parse Demo.stringify Demo.toString Demo.toLowerCase
              (Demo.request "c1") [Demo.placeOrderCall] st "c2") as (Hc & _ & _).
  - discriminate.
  - split; [unfold Demo.turn; rewrite Hc|]; vm_compute; reflexivity.
Defined.

(** A first add-to-cart in a service that has no cart yet. *)
Lemma toolPhase_cartsTruthy_witness :
  cartsTruthy (cartsByConversation Demo.World
                 (fst (Demo.turn Demo.healthy [Demo.addCall] (initialState Demo.World 0%Z)))).
Proof.
  destruct (toolPhase_cartsTruthy Demo.healthy Demo.parse Demo.stringify Demo.toString Demo.toLowerCase
              (Demo.request "c1") [Demo.addCall] (initialState Demo.World 0%Z)) as [H _].
  - intros conv cid Hlook. cbn in Hlook. rewrite lookup_empty in Hlook. discriminate.
  - exact H.
Defined.

(** A tool that the switch does not know. *)
Lemma unknown_tool_is_silent_witness :
  Demo.run Demo.healthy (mkToolCall "toolu_10" "cancel-order" (Some (JObj [])))
           (Demo.withCart "c1" "00001")
  = (Demo.withCart "c1" "00001", mkToolResult "toolu_10" None (Some []) None).
Proof.
  destruct (unknown_tool_is_silent Demo.healthy Demo.parse Demo.stringify Demo.toString Demo.toLowerCase
              (mkToolCall "toolu_10" "cancel-order" (Some (JObj []))) "c1" Demo.tok
              (Demo.withCart "c1" "00001")) as [H _].
  - reflexivity.
  - exact H.
Defined.

(** An address for a conversation that has no cart. *)
Lemma address_without_cart_still_asks_for_modes_witness :
  calledTools (fst (Demo.turn Demo.healthy [Demo.addressCall] (initialState Demo.World 0%Z)))
  = ["get-delivery-modes"] /\
  toolsUsed (snd (Demo.turn Demo.healthy [Demo.addressCall] (initialState Demo.World 0%Z)))
  = ["set-delivery-address"; "get-delivery-modes"].
Proof.
  destruct (address_without_cart_still_asks_for_modes
              Demo.healthy Demo.parse Demo.stringify Demo.toString Demo.toLowerCase
              (Demo.request "c1") Demo.addressCall (initialState Demo.World 0%Z))
    as (_ & _ & Htrace & Hused).
  - reflexivity.
  - apply lookup_empty.
  - split; [|exact Hused].
    unfold calledTools, Demo.turn. rewrite Htrace. reflexivity.
Defined.

(** A payment that the backend answers with an error. *)
Lemma order_is_placed_whatever_payment_answers_witness :
  isError (snd (Demo.expired 0%Z "set-payment-details" [])) = true /\
  calledTools (fst (Demo.turn Demo.expired [Demo.paymentCall] (Demo.withCart "c1" "00001")))
  = ["set-payment-details"; "place-order"] /\
  cartsByConversation Demo.World
    (fst (Demo.turn Demo.expired [Demo.paymentCall] (Demo.withCart "c1" "00001"))) !! "c1"
  = None.
Proof.
  destruct (order_is_placed_whatever_payment_answers
              Demo.expired Demo.parse Demo.stringify Demo.toString Demo.toLowerCase
              (Demo.request "c1") Demo.paymentCall (Demo.withCart "c1" "00001"))
    as (Hcalled & _ & Hcart).
  - reflexivity.
  - split; discriminate.
  - discriminate.
  - discriminate.
  - split; [reflexivity|]. split; [exact Hcalled|].
    apply Hcart. vm_compute. reflexivity.
Defined.

(** A request for the delivery modes that fails, in a conversation that
    has a cached list. *)
Lemma requested_modes_keep_stale_list_witness :
  let st := mkState Demo.World ∅ {[ "c1" := Demo.standardModes ]} ∅ 0%Z [] in
  deliveryModesByConversation Demo.World
    (fst (Demo.run Demo.healthy
            (mkToolCall "toolu_11" "get-delivery-modes" (Some (JObj []))) st)) !! "c1"
  = Some Demo.standardModes.
Proof.
  intros st. unfold Demo.run.
  rewrite (requested_modes_keep_stale_list Demo.healthy Demo.parse Demo.stringify Demo.toString Demo.toLowerCase
             (mkToolCall "toolu_11" "get-delivery-modes" (Some (JObj []))) "c1" Demo.tok st
             0%Z (Demo.failed "Cart not found.")).
  - vm_compute. reflexivity.
  - reflexivity.
  - vm_compute. reflexivity.
Defined.

(** A code that no cached mode has and that matches none by its token. *)
Lemma fixDeliveryModeCode_sends_cached_code_witness :
  exists m, In m Demo.standardModes /\
            optProp "code" (Some m) = Some (JStr "standard-gross").
Proof.
  apply (fixDeliveryModeCode_sends_cached_code Demo.toLowerCase
           {[ "c1" := Demo.standardModes ]} "c1" Demo.standardModes
           (Some (JStr "express-net")) (Some (JStr "standard-gross"))).
  - apply lookup_singleton_eq.
  - discriminate.
  - vm_compute. reflexivity.
Defined.

End Instances.

Section GuardrailInstances.
Import Guardrails.
Local Open Scope Z_scope.

(** Five requests within a minute under a limit of three. *)
Lemma rate_limit_counts_in_fixed_windows_witness :
  snd (rateLimited (mkConfig 2000 3 10) (Some "ada"%string)
                   [1000; 2000; 3000; 4000; 61000] ∅)
  = [true; true; true; false; false].
Proof.
  destruct (rate_limit_counts_in_fixed_windows (mkConfig 2000 3 10) (Some "ada"%string)
              1000 [2000; 3000; 4000; 61000] ∅) as [Hflags _].
  - apply lookup_empty.
  - repeat constructor; lia.
  - exact Hflags.
Defined.

End GuardrailInstances.

Section ConversationInstances.
Import Js ConversationManager.
Local Open Scope string_scope.

(** Fifty-one messages, the last of them tagged as a system message. *)
Lemma prune_length_witness :
  let plain := mkChatMessage "m" user tt 0%Z None in
  let tagged := mkChatMessage "s" assistant tt 0%Z (Some ["system"]) in
  prune (repeat plain 50 ++ [tagged]) = (tagged :: repeat plain 48 ++ [tagged])%list.
Proof.
  intros plain tagged.
  destruct (prune_length (repeat plain 50 ++ [tagged])) as [Hfew _].
  - rewrite length_app, repeat_length. cbn. lia.
  - destruct Hfew as [Heq _]; [vm_compute; lia|].
    rewrite Heq. vm_compute. reflexivity.
Defined.

(** The fifty-first message of a conversation. *)
Lemma addMessage_keeps_the_last_fifty_witness :
  let old := mkChatMessage "m" user tt 0%Z None in
  let newest := mkChatMessage "n" assistant tt 7%Z (Some ["search-products"]) in
  let cs := [("c1", mkConversation "c1" None (repeat old 50) 0%Z 0%Z)] in
  exists cs',
    addMessage "c1" newest 9%Z cs = Ok cs' /\
    getMessages "c1" cs' = (repeat old 49 ++ [newest])%list.
Proof.
  intros old newest cs.
  destruct (addMessage_keeps_the_last_fifty "c1" newest 9%Z cs
              (mkConversation "c1" None (repeat old 50) 0%Z 0%Z))
    as (cs' & c' & Hadd & _ & Hmsgs & Hget & _).
  - reflexivity.
  - apply List.Forall_forall. intros x Hx. apply in_app_or in Hx as [Hx|[<-|[]]].
    + apply repeat_spec in Hx. subst x. reflexivity.
    + reflexivity.
  - exists cs'. split; [exact Hadd|]. rewrite Hget, Hmsgs. vm_compute. reflexivity.
Defined.

(** A second conversation, below the capacity. *)
Lemma createConversation_evicts_least_recently_updated_witness :
  let first := mkConversation (Content := unit) "c1" None [] 10%Z 20%Z in
  map fst (fst (createConversation "c2" (Some "ada") 30%Z 30%Z [("c1", first)]))
  = ["c1"; "c2"].
Proof.
  intros first.
  destruct (createConversation_evicts_least_recently_updated
              "c2" (Some "ada") 30%Z 30%Z [("c1", first)])
    as (_ & _ & _ & Hbelow & _).
  - unfold wf. cbn. repeat constructor. cbn. tauto.
  - reflexivity.
  - cbn. lia.
  - intros e [<-|[]]. cbn. lia.
  - rewrite Hbelow; [reflexivity|cbn; lia].
Defined.

End ConversationInstances.

Section CachedInstances.
Import Js CommerceService.
Local Open Scope Z_scope.

(** The list of countries, fetched and asked for again four minutes
    later. *)
Lemma withCache_serves_within_ttl_witness :
  let countries := Some (JObj [("countries", JArr [JStr "GB"; JStr "DE"])]) in
  let fetch := mkOperation unit [(120, false)] (inl countries) in
  let unused := mkOperation unit [] (inr tt) in
  let first := withCache "GET:/countries:{}" fetch 1000 1120 (create 0) in
  let second := withCache "GET:/countries:{}" unused 241120 241120 (after first) in
  returns second = inl countries /\ invoked second = false.
Proof.
  intros countries fetch unused first second.
  destruct (withCache_serves_within_ttl "GET:/countries:{}" fetch unused
              1000 1120 241120 241120 (create 0) countries)
    as (_ & Hret & Hinv & _).
  - unfold Runs.bounded, Cache.wf. cbn. split; [constructor|lia].
  - reflexivity.
  - reflexivity.
  - reflexivity.
  - cbn. lia.
  - split; [exact Hret|exact Hinv].
Defined.

(** An operation that settles with [null]. *)
Lemma withCache_never_serves_falsy_witness :
  let fetch := mkOperation unit [(80, false)] (inl (Some JNull)) in
  let first := withCache "GET:/products/0:{}" fetch 1000 1080 (create 0) in
  let second := withCache "GET:/products/0:{}" fetch 2000 2080 (after first) in
  invoked second = true /\ Cache.size (cache (after first)) = 1.
Proof.
  intros fetch first second.
  destruct (withCache_never_serves_falsy "GET:/products/0:{}" fetch fetch
              1000 1080 2000 2080 (create 0) (Some JNull))
    as (_ & _ & Hinv & _).
  - unfold Runs.bounded, Cache.wf. cbn. split; [constructor|lia].
  - reflexivity.
  - reflexivity.
  - reflexivity.
  - split; [exact Hinv|reflexivity].
Defined.

End CachedInstances.

Section TokenInstances.
Import SapCommerceClient.
Local Open Scope Z_scope.

(** A token of one hour, checked a year after the client was started. *)
Lemma cached_token_validity_ignores_age_witness :
  let c := mk (Some "id"%string) (Some "secret"%string) None
              (Some (mkAuthToken "t0" 3600)) in
  let yearLater := 365 * 24 * 3600 * 1000 in
  getAuthToken c (fun _ => (yearLater, yearLater + 1))
               (fun _ => inr (Retry.OtherError "not asked"))
  = mkGot c (Some (mkAuthToken "t0" 3600)) 0 1.
Proof.
  intros c yearLater.
  destruct (cached_token_validity_ignores_age c (fun _ => (yearLater, yearLater + 1))
              (fun _ => inr (Retry.OtherError "not asked")) (mkAuthToken "t0" 3600))
    as [Hreuse _].
  - reflexivity.
  - reflexivity.
  - vm_compute. discriminate.
  - reflexivity.
  - apply Hreuse. vm_compute. reflexivity.
Defined.

End TokenInstances.
